(** * Snake game (snake_game_final.py): simulation core, session controller
      and leaderboard, embedded shallowly and checked against the
      natural-language specification.

    Python integers are [Z]; tuples are pairs; lists are [list]; the
    score table (a [dict] keyed by difficulty name) is a [gmap string];
    exceptions ([IndexError], [AttributeError]) are [None] results; the
    pseudo-random generator is an explicit stream of draws; floats are
    IEEE-754 binary64 values ([spec_float] at precision 53). *)

From Stdlib Require Import ZArith List Bool Lia String QArith Qround Sorted.
From Stdlib Require Import Floats.SpecFloat.
From stdpp Require Import base gmap strings list.

Local Open Scope Z_scope.

(** ** GameConfig *)

Module GameConfig.
Definition WINDOW_WIDTH : Z := 1000.
Definition WINDOW_HEIGHT : Z := 700.
Definition GAME_AREA_X : Z := 150.
Definition GAME_AREA_Y : Z := 80.
Definition GAME_AREA_WIDTH : Z := 700.
Definition GAME_AREA_HEIGHT : Z := 540.
Definition GRID_SIZE : Z := 20.
Definition GRID_WIDTH : Z := GAME_AREA_WIDTH / GRID_SIZE.
Definition GRID_HEIGHT : Z := GAME_AREA_HEIGHT / GRID_SIZE.
End GameConfig.

(** A grid cell, and a direction, are both Python tuples of two ints. *)
Definition Cell : Type := Z * Z.

Definition in_grid (c : Cell) : bool :=
  (0 <=? fst c) && (fst c <? GameConfig.GRID_WIDTH) &&
  (0 <=? snd c) && (snd c <? GameConfig.GRID_HEIGHT).

Definition cell_eqb (a b : Cell) : bool :=
  (fst a =? fst b) && (snd a =? snd b).

(** Python [c in cells] on a list of tuples. *)
Definition cell_in (c : Cell) (cells : list Cell) : bool :=
  existsb (cell_eqb c) cells.

(** ** AudioManager

    Only what the simulation can observe of it: the [enabled] switch and
    the sequence of effects handed to [play_sound] while enabled. *)

Record AudioManager := mkAudio {
  enabled : bool;
  played : list string
}.

Definition play_sound (name : string) (a : AudioManager) : AudioManager :=
  if enabled a then mkAudio (enabled a) (played a ++ [name]) else a.

Definition toggle (a : AudioManager) : AudioManager :=
  mkAudio (negb (enabled a)) (played a).

(** ** Snake *)

Record Snake := mkSnake {
  positions : list Cell;
  direction : Z * Z;
  grow_pending : bool;
  segment_animations : list Z;
  head_glow_intensity : Z;
  body_pulse_offset : Z
}.

(** [Snake.__init__] *)
Definition Snake_init : Snake :=
  let start_x := GameConfig.GRID_WIDTH / 2 in
  let start_y := GameConfig.GRID_HEIGHT / 2 in
  mkSnake [(start_x, start_y)] (1, 0) false [0] 0 0.

(** [list.pop()]: drop the last element. *)
Definition pop_last {A} (l : list A) : list A := removelast l.

(** [Snake.move]. [self.positions[0]] raises on an empty list. *)
Definition move (s : Snake) : option Snake :=
  match positions s with
  | [] => None
  | (head_x, head_y) :: _ =>
      let new_head := (head_x + fst (direction s), head_y + snd (direction s)) in
      let inserted := new_head :: positions s in
      let '(ps, gp, anims) :=
        if negb (grow_pending s)
        then (pop_last inserted, grow_pending s, segment_animations s)
        else (inserted, false, segment_animations s ++ [0]) in
      Some (mkSnake ps (direction s) gp
              (map (fun a => (a + 1) mod 60) anims)
              ((head_glow_intensity s + 1) mod 60)
              ((body_pulse_offset s + 1) mod 120))
  end.

Definition dir_eqb (a b : Z * Z) : bool := cell_eqb a b.

(** [Snake.change_direction]; the audio manager is the shared one. *)
Definition change_direction (new_direction : Z * Z) (s : Snake) (a : AudioManager)
  : Snake * AudioManager :=
  if negb (dir_eqb (fst new_direction * -1, snd new_direction * -1) (direction s))
  then
    let a' := if negb (dir_eqb new_direction (direction s))
              then play_sound "turn" a else a in
    (mkSnake (positions s) new_direction (grow_pending s)
       (segment_animations s) (head_glow_intensity s) (body_pulse_offset s), a')
  else (s, a).

(** [Snake.check_collision] *)
Definition check_collision (s : Snake) : option bool :=
  match positions s with
  | [] => None
  | (head_x, head_y) :: rest =>
      if (head_x <? 0) || (head_x >=? GameConfig.GRID_WIDTH) ||
         (head_y <? 0) || (head_y >=? GameConfig.GRID_HEIGHT)
      then Some true
      else Some (cell_in (head_x, head_y) rest)
  end.

(** [Snake.eat_food] *)
Definition eat_food (s : Snake) (a : AudioManager) : Snake * AudioManager :=
  (mkSnake (positions s) (direction s) true
     (segment_animations s) (head_glow_intensity s) (body_pulse_offset s),
   play_sound "eat" a).

(** ** Random numbers

    The module-level generator, as [Food._generate_position] sees it:
    the stream lists, in call order, the raw draws that its [randint]
    calls consume, and the cursor counts them. The draws that the
    sparkles of [Food.update] and the particle effects take from the
    same generator in between feed only the picture and are left out of
    the stream. [random.randint(a, b)] consumes one draw and returns an
    integer of the closed range [a..b]; every integer of the range is
    the image of some draw. *)

Record Rng := mkRng {
  draws : nat -> Z;
  cursor : nat
}.

Definition randint (a b : Z) (r : Rng) : Z * Rng :=
  (a + draws r (cursor r) mod (b - a + 1), mkRng (draws r) (S (cursor r))).

(** ** Food *)

Record Food := mkFood {
  position : Cell;
  animation_frame : Z
}.

(** [Food._generate_position] *)
Definition generate_position (r : Rng) : Cell * Rng :=
  let '(x, r1) := randint 0 (GameConfig.GRID_WIDTH - 1) r in
  let '(y, r2) := randint 0 (GameConfig.GRID_HEIGHT - 1) r1 in
  ((x, y), r2).

(** [Food.__init__] *)
Definition Food_init (r : Rng) : Food * Rng :=
  let '(p, r') := generate_position r in (mkFood p 0, r').

(** The [while attempts < 100] loop of [Food.respawn], counted by the
    attempts that remain. Leaving the loop by exhaustion assigns
    nothing. *)
Fixpoint respawn_loop (remaining : nat) (snake_positions : list Cell)
    (f : Food) (r : Rng) : Food * Rng :=
  match remaining with
  | O => (f, r)
  | S n =>
      let '(new_position, r') := generate_position r in
      if negb (cell_in new_position snake_positions)
      then (mkFood new_position (animation_frame f), r')
      else respawn_loop n snake_positions f r'
  end.

(** [Food.respawn] *)
Definition respawn (snake_positions : list Cell) (f : Food) (r : Rng) : Food * Rng :=
  respawn_loop 100 snake_positions f r.

(** [Food.update]: the frame counter; the sparkle particles are cosmetic. *)
Definition Food_update (f : Food) : Food :=
  mkFood (position f) (animation_frame f + 1).

(** ** Python floats (binary64) *)

Definition float : Type := spec_float.

(** A literal or an exact dyadic [m * 2^e], rounded to binary64. *)
Definition float_of (m e : Z) : float := binary_normalize 53 1024 m e false.

(** [int * float]: the int operand is converted first. *)
Definition int_mul_float (n : Z) (x : float) : float :=
  SFmul 53 1024 (float_of n 0) x.

(** [int(x)]: truncation toward zero; raises on nan and infinities. *)
Definition int_of_float (x : float) : option Z :=
  match x with
  | S754_zero _ => Some 0
  | S754_finite s m e =>
      let v := if 0 <=? e then Z.pos m * 2 ^ e else Z.pos m / 2 ^ (- e) in
      Some (if s then - v else v)
  | S754_infinity _ => None
  | S754_nan => None
  end.

(** The exact rational value of a finite float. *)
Definition float_value (x : float) : Q :=
  match x with
  | S754_finite s m e =>
      let n := if s then Z.neg m else Z.pos m in
      if 0 <=? e then inject_Z (n * 2 ^ e) else Qmake n (Z.to_pos (2 ^ (- e)))
  | _ => 0%Q
  end.

(** ** DifficultyManager *)

Record DifficultyConfig := mkDifficulty {
  name : string;
  speed : Z;
  multiplier : float;
  color : Z * Z * Z
}.

Module Colors.
Definition EASY_COLOR : Z * Z * Z := (50, 255, 50).
Definition MEDIUM_COLOR : Z * Z * Z := (255, 200, 50).
Definition HARD_COLOR : Z * Z * Z := (255, 80, 80).
End Colors.

Definition EASY_config := mkDifficulty "EASY" 8 (float_of 1 0) Colors.EASY_COLOR.
Definition MEDIUM_config := mkDifficulty "MEDIUM" 12 (float_of 3 (-1)) Colors.MEDIUM_COLOR.
Definition HARD_config := mkDifficulty "HARD" 18 (float_of 2 0) Colors.HARD_COLOR.

Definition DIFFICULTIES : gmap string DifficultyConfig :=
  <["EASY" := EASY_config]> (<["MEDIUM" := MEDIUM_config]> (<["HARD" := HARD_config]> ∅)).

(** [DifficultyManager.get_config]: unknown keys fall back to MEDIUM. *)
Definition get_config (difficulty : string) : DifficultyConfig :=
  default MEDIUM_config (DIFFICULTIES !! difficulty).

(** ** ScoreManager *)

Record ScoreEntry := mkEntry {
  score : Z;
  player : string;
  date : string
}.

(** The dict literal at the end of [_load_scores]. *)
Definition empty_scores : gmap string (list ScoreEntry) :=
  <["EASY" := []]> (<["MEDIUM" := []]> (<["HARD" := []]> ∅)).



(** Dict equality of two entries: all three fields. *)
Definition entry_eqb (a b : ScoreEntry) : bool :=
  (score a =? score b) && String.eqb (player a) (player b) && String.eqb (date a) (date b).

(** [list.sort(key=..., reverse=True)]: the stable descending sort.
    Elements are inserted from the right, each one in front of the
    elements whose key is not greater, so equal keys keep their order. *)
Fixpoint insert_desc {A} (key : A -> Z) (x : A) (l : list A) : list A :=
  match l with
  | [] => [x]
  | y :: l' => if key x <? key y then y :: insert_desc key x l' else x :: y :: l'
  end.

Definition sort_reverse {A} (key : A -> Z) (l : list A) : list A :=
  foldr (insert_desc key) [] l.

(** [for i, x in enumerate(l): if p(x): return i + 1], else [len(l)]. *)
Fixpoint rank_of {A} (p : A -> bool) (l : list A) (i : Z) : option Z :=
  match l with
  | [] => None
  | x :: l' => if p x then Some (i + 1) else rank_of p l' (i + 1)
  end.

(** [ScoreManager.add_score]; [now] is the formatted clock reading.
    Saving writes the table to disk and leaves it unchanged. *)
Definition add_score (difficulty : string) (sc : Z) (pl : string) (now : string)
    (scores : gmap string (list ScoreEntry)) : Z * gmap string (list ScoreEntry) :=
  let entry := mkEntry sc pl now in
  let s1 := match scores !! difficulty with
            | None => <[difficulty := []]> scores
            | Some _ => scores
            end in
  let s2 := alter (fun l => l ++ [entry]) difficulty s1 in
  let s3 := alter (sort_reverse score) difficulty s2 in
  let s4 := alter (take 10) difficulty s3 in
  let l := default [] (s4 !! difficulty) in
  (default (Z.of_nat (length l)) (rank_of (entry_eqb entry) l 0), s4).

(** [ScoreManager.get_high_score] *)
Definition get_high_score (difficulty : string)
    (scores : gmap string (list ScoreEntry)) : Z :=
  match default [] (scores !! difficulty) with
  | e :: _ => score e
  | [] => 0
  end.

(** [ScoreManager.get_top_scores] *)
Definition get_top_scores (difficulty : string) (count : nat)
    (scores : gmap string (list ScoreEntry)) : list ScoreEntry :=
  take count (default [] (scores !! difficulty)).

(** [ScoreManager.is_high_score] *)
Definition is_high_score (difficulty : string) (sc : Z)
    (scores : gmap string (list ScoreEntry)) : bool :=
  let l := default [] (scores !! difficulty) in
  (length l <? 10)%nat ||
  match last l with
  | Some e => sc >? score e
  | None => false
  end.

(** ** SnakeGame *)

Inductive GameState := MENU | DIFFICULTY_SELECT | PLAYING | GAME_OVER | LEADERBOARD.

(** The controller's attributes that the simulation reads or writes.
    [game_score] is [self.score] (the name [score] is the entry key
    above); fonts, buttons, particles and surfaces are presentation. *)
Record SnakeGame := mkGame {
  state : GameState;
  current_difficulty : string;
  snake : option Snake;
  food : option Food;
  game_score : Z;
  score_manager : gmap string (list ScoreEntry);
  audio_manager : AudioManager;
  leaderboard_difficulty : string;
  rng : Rng
}.

Definition set_state (st : GameState) (g : SnakeGame) : SnakeGame :=
  mkGame st (current_difficulty g) (snake g) (food g) (game_score g)
    (score_manager g) (audio_manager g) (leaderboard_difficulty g) (rng g).

Definition set_audio (a : AudioManager) (g : SnakeGame) : SnakeGame :=
  mkGame (state g) (current_difficulty g) (snake g) (food g) (game_score g)
    (score_manager g) a (leaderboard_difficulty g) (rng g).

Definition set_snake (s : Snake) (g : SnakeGame) : SnakeGame :=
  mkGame (state g) (current_difficulty g) (Some s) (food g) (game_score g)
    (score_manager g) (audio_manager g) (leaderboard_difficulty g) (rng g).

Definition set_food (f : Food) (g : SnakeGame) : SnakeGame :=
  mkGame (state g) (current_difficulty g) (snake g) (Some f) (game_score g)
    (score_manager g) (audio_manager g) (leaderboard_difficulty g) (rng g).

Definition set_leaderboard_difficulty (d : string) (g : SnakeGame) : SnakeGame :=
  mkGame (state g) (current_difficulty g) (snake g) (food g) (game_score g)
    (score_manager g) (audio_manager g) d (rng g).

(** [SnakeGame.__init__], given the loaded score table and the generator. *)
Definition SnakeGame_init (scores : gmap string (list ScoreEntry)) (r : Rng) : SnakeGame :=
  mkGame MENU "MEDIUM" None None 0 scores (mkAudio true []) "MEDIUM" r.

(** [SnakeGame._start_new_game] *)
Definition start_new_game (g : SnakeGame) : SnakeGame :=
  let '(f, r') := Food_init (rng g) in
  mkGame PLAYING (current_difficulty g) (Some Snake_init) (Some f) 0
    (score_manager g) (play_sound "game_start" (audio_manager g))
    (leaderboard_difficulty g) r'.

(** [SnakeGame._select_difficulty] *)
Definition select_difficulty (difficulty : string) (g : SnakeGame) : SnakeGame :=
  mkGame (state g) difficulty (snake g) (food g) (game_score g)
    (score_manager g) (audio_manager g) (leaderboard_difficulty g) (rng g).

(** [SnakeGame._toggle_audio] *)
Definition toggle_audio (g : SnakeGame) : SnakeGame :=
  set_audio (toggle (audio_manager g)) g.

Inductive Key :=
  | K_SPACE | K_RETURN | K_ESCAPE | K_l | K_m | K_1 | K_2 | K_3
  | K_UP | K_w | K_DOWN | K_s | K_LEFT | K_a | K_RIGHT | K_d | K_OTHER.

(** [self.snake.change_direction(d)] on the controller. *)
Definition game_change_direction (d : Z * Z) (g : SnakeGame) : option SnakeGame :=
  s ← snake g;
  let '(s', a') := change_direction d s (audio_manager g) in
  Some (set_audio a' (set_snake s' g)).

(** [SnakeGame._handle_keyboard_input]: the flag is the return value
    ([False] asks the loop to stop). *)
Definition handle_keyboard_input (key : Key) (g : SnakeGame) : option (bool * SnakeGame) :=
  match state g with
  | MENU =>
      match key with
      | K_SPACE | K_RETURN => Some (true, set_state DIFFICULTY_SELECT g)
      | K_l => Some (true, set_state LEADERBOARD g)
      | K_ESCAPE => Some (false, g)
      | K_m => Some (true, toggle_audio g)
      | _ => Some (true, g)
      end
  | DIFFICULTY_SELECT =>
      match key with
      | K_1 => Some (true, select_difficulty "EASY" g)
      | K_2 => Some (true, select_difficulty "MEDIUM" g)
      | K_3 => Some (true, select_difficulty "HARD" g)
      | K_SPACE | K_RETURN => Some (true, start_new_game g)
      | K_ESCAPE => Some (true, set_state MENU g)
      | _ => Some (true, g)
      end
  | PLAYING =>
      match key with
      | K_UP | K_w => g' ← game_change_direction (0, -1) g; Some (true, g')
      | K_DOWN | K_s => g' ← game_change_direction (0, 1) g; Some (true, g')
      | K_LEFT | K_a => g' ← game_change_direction (-1, 0) g; Some (true, g')
      | K_RIGHT | K_d => g' ← game_change_direction (1, 0) g; Some (true, g')
      | K_ESCAPE => Some (true, set_state MENU g)
      | K_m => Some (true, toggle_audio g)
      | _ => Some (true, g)
      end
  | GAME_OVER =>
      match key with
      | K_SPACE | K_RETURN => Some (true, start_new_game g)
      | K_d => Some (true, set_state DIFFICULTY_SELECT g)
      | K_l => Some (true, set_state LEADERBOARD g)
      | K_ESCAPE => Some (true, set_state MENU g)
      | K_m => Some (true, toggle_audio g)
      | _ => Some (true, g)
      end
  | LEADERBOARD =>
      match key with
      | K_ESCAPE => Some (true, set_state MENU g)
      | K_1 => Some (true, set_leaderboard_difficulty "EASY" g)
      | K_2 => Some (true, set_leaderboard_difficulty "MEDIUM" g)
      | K_3 => Some (true, set_leaderboard_difficulty "HARD" g)
      | _ => Some (true, g)
      end
  end.

(** The events of one frame that reach the simulation. *)
Inductive Event := QUIT | KEYDOWN (key : Key).

(** [SnakeGame._handle_events]: the loop over [pygame.event.get()]. *)
Fixpoint handle_events (events : list Event) (g : SnakeGame) : option (bool * SnakeGame) :=
  match events with
  | [] => Some (true, g)
  | QUIT :: _ => Some (false, g)
  | KEYDOWN key :: rest =>
      match handle_keyboard_input key g with
      | None => None
      | Some (true, g') => handle_events rest g'
      | Some (false, g') => Some (false, g')
      end
  end.

(** [final_score = int(self.score * config.multiplier)] *)
Definition final_score (difficulty : string) (raw : Z) : option Z :=
  int_of_float (int_mul_float raw (multiplier (get_config difficulty))).

(** [SnakeGame._handle_game_over]; [now] is the clock reading that
    [add_score] stamps on the entry. *)
Definition handle_game_over (now : string) (g : SnakeGame) : option SnakeGame :=
  fs ← final_score (current_difficulty g) (game_score g);
  if is_high_score (current_difficulty g) fs (score_manager g)
  then
    let '(_, scores') := add_score (current_difficulty g) fs "Player" now (score_manager g) in
    Some (mkGame GAME_OVER (current_difficulty g) (snake g) (food g) (game_score g)
            scores' (play_sound "high_score" (audio_manager g))
            (leaderboard_difficulty g) (rng g))
  else
    Some (mkGame GAME_OVER (current_difficulty g) (snake g) (food g) (game_score g)
            (score_manager g) (play_sound "game_over" (audio_manager g))
            (leaderboard_difficulty g) (rng g)).

(** [SnakeGame._handle_food_eaten]. The particles of [add_food_effect]
    feed only the picture; their draws are not part of the stream. *)
Definition handle_food_eaten (g : SnakeGame) : option SnakeGame :=
  s ← snake g;
  f ← food g;
  let '(s', a') := eat_food s (audio_manager g) in
  let '(f', r') := respawn (positions s') f (rng g) in
  Some (mkGame (state g) (current_difficulty g) (Some s') (Some f') (game_score g + 10)
          (score_manager g) a' (leaderboard_difficulty g) r').

(** [SnakeGame._update_game_logic]: one tick. *)
Definition update_game_logic (now : string) (g : SnakeGame) : option SnakeGame :=
  match state g with
  | PLAYING =>
      s ← snake g;
      s' ← move s;
      f ← food g;
      let g1 := set_food (Food_update f) (set_snake s' g) in
      collided ← check_collision s';
      if (collided : bool) then handle_game_over now g1
      else
        h ← head (positions s');
        if cell_eqb h (position (Food_update f)) then handle_food_eaten g1 else Some g1
  | _ => Some g
  end.

(** One turn of the loop in [SnakeGame.run]: the frame's events, then
    the tick. The flag is [running]. *)
Definition frame (events : list Event) (now : string) (g : SnakeGame)
  : option (bool * SnakeGame) :=
  match handle_events events g with
  | None => None
  | Some (running, g1) => g2 ← update_game_logic now g1; Some (running, g2)
  end.

(** ** Buttons and mouse

    A [pygame.Rect] is its left, top, width and height;
    [Rect.collidepoint] excludes the right and the bottom edge. *)

Definition Rect : Type := Z * Z * Z * Z.

Definition collidepoint (r : Rect) (p : Z * Z) : bool :=
  let '(x, y, w, h) := r in
  (x <=? fst p) && (fst p <? x + w) && (y <=? snd p) && (snd p <? y + h).

(** The ten buttons that [SnakeGame._create_buttons] creates. *)
Inductive ButtonId :=
  | start_button | leaderboard_button | quit_button
  | easy_button | medium_button | hard_button
  | play_again_button | change_difficulty_button
  | back_button | audio_button.

#[global] Instance ButtonId_eq_dec : EqDecision ButtonId.
Proof. solve_decision. Defined.

(** [SnakeGame._create_buttons]: the rectangle given to each button. *)
Definition button_rect (b : ButtonId) : Rect :=
  let center_x := GameConfig.WINDOW_WIDTH / 2 in
  match b with
  | start_button => (center_x - 100, 350, 200, 60)
  | leaderboard_button => (center_x - 120, 420, 240, 50)
  | quit_button => (center_x - 80, 480, 160, 50)
  | easy_button => (center_x - 280, 300, 160, 80)
  | medium_button => (center_x - 80, 300, 160, 80)
  | hard_button => (center_x + 120, 300, 160, 80)
  | play_again_button => (center_x - 120, 400, 240, 60)
  | change_difficulty_button => (center_x - 140, 470, 280, 50)
  | back_button => (50, GameConfig.WINDOW_HEIGHT - 80, 120, 50)
  | audio_button =>
      (GameConfig.WINDOW_WIDTH - 170, GameConfig.WINDOW_HEIGHT - 80, 120, 50)
  end.

(** The events of [pygame.event.get()] by type; [EV_OTHER] stands for
    every type the game does not look at. *)
Inductive PygameEvent :=
  | EV_QUIT
  | EV_KEYDOWN (key : Key)
  | EV_MOUSEBUTTONDOWN (button : Z) (pos : Z * Z)
  | EV_OTHER.

(** [Button.handle_event]: a left click inside the rectangle plays the
    click sound and returns [True]. *)
Definition Button_handle_event (b : ButtonId) (event : PygameEvent) (a : AudioManager)
  : bool * AudioManager :=
  match event with
  | EV_MOUSEBUTTONDOWN button pos =>
      if (button =? 1) && collidepoint (button_rect b) pos
      then (true, play_sound "button_click" a)
      else (false, a)
  | _ => (false, a)
  end.

(** [self.<button>.handle_event(event)] on the controller, whose audio
    manager the buttons share. *)
Definition press (b : ButtonId) (event : PygameEvent) (g : SnakeGame) : bool * SnakeGame :=
  let '(hit, a) := Button_handle_event b event (audio_manager g) in
  (hit, set_audio a g).

(** [SnakeGame._handle_button_clicks]: the [elif] chains, button by
    button; the flag is the return value. *)
Definition handle_button_clicks (event : PygameEvent) (g : SnakeGame) : bool * SnakeGame :=
  match state g with
  | MENU =>
      let '(hit, g1) := press start_button event g in
      if hit then (true, set_state DIFFICULTY_SELECT g1) else
      let '(hit, g2) := press leaderboard_button event g1 in
      if hit then (true, set_state LEADERBOARD g2) else
      let '(hit, g3) := press quit_button event g2 in
      if hit then (false, g3) else
      let '(hit, g4) := press audio_button event g3 in
      if hit then (true, toggle_audio g4) else (true, g4)
  | DIFFICULTY_SELECT =>
      let '(hit, g1) := press easy_button event g in
      if hit then (true, start_new_game (select_difficulty "EASY" g1)) else
      let '(hit, g2) := press medium_button event g1 in
      if hit then (true, start_new_game (select_difficulty "MEDIUM" g2)) else
      let '(hit, g3) := press hard_button event g2 in
      if hit then (true, start_new_game (select_difficulty "HARD" g3)) else
      let '(hit, g4) := press back_button event g3 in
      if hit then (true, set_state MENU g4) else
      let '(hit, g5) := press audio_button event g4 in
      if hit then (true, toggle_audio g5) else (true, g5)
  | PLAYING => (true, g)
  | GAME_OVER =>
      let '(hit, g1) := press play_again_button event g in
      if hit then (true, start_new_game g1) else
      let '(hit, g2) := press change_difficulty_button event g1 in
      if hit then (true, set_state DIFFICULTY_SELECT g2) else
      let '(hit, g3) := press back_button event g2 in
      if hit then (true, set_state MENU g3) else
      let '(hit, g4) := press audio_button event g3 in
      if hit then (true, toggle_audio g4) else (true, g4)
  | LEADERBOARD =>
      let '(hit, g1) := press back_button event g in
      if hit then (true, set_state MENU g1) else
      let '(hit, g2) := press audio_button event g1 in
      if hit then (true, toggle_audio g2) else (true, g2)
  end.

(** The controller together with the hover flag of every button
    ([Button.is_hovered]); scale and glow of a button are presentation. *)
Record UI := mkUI {
  game : SnakeGame;
  is_hovered : ButtonId -> bool
}.

(** [Button.update]: the pointer entering the rectangle plays the hover
    sound. *)
Definition Button_update (b : ButtonId) (mouse_pos : Z * Z) (ui : UI) : UI :=
  let was_hovered := is_hovered ui b in
  let now_hovered := collidepoint (button_rect b) mouse_pos in
  let a := audio_manager (game ui) in
  mkUI (set_audio (if now_hovered && negb was_hovered
                   then play_sound "button_hover" a else a) (game ui))
       (fun b' => if bool_decide (b' = b) then now_hovered else is_hovered ui b').

(** The [buttons_by_state] table of [_update_button_hovers]; a state
    without an entry has no buttons to update. *)
Definition buttons_by_state (st : GameState) : list ButtonId :=
  match st with
  | MENU => [start_button; leaderboard_button; quit_button; audio_button]
  | DIFFICULTY_SELECT =>
      [easy_button; medium_button; hard_button; back_button; audio_button]
  | GAME_OVER =>
      [play_again_button; change_difficulty_button; back_button; audio_button]
  | LEADERBOARD => [back_button; audio_button]
  | PLAYING => []
  end.

(** [SnakeGame._update_button_hovers] *)
Definition update_button_hovers (mouse_pos : Z * Z) (ui : UI) : UI :=
  fold_left (fun u b => Button_update b mouse_pos u)
            (buttons_by_state (state (game ui))) ui.

(** The loop of [SnakeGame._handle_events] over all event types: a key
    event goes to the keyboard handler, and every event that did not
    stop the loop goes to the buttons. *)
Fixpoint handle_event_loop (events : list PygameEvent) (g : SnakeGame)
  : option (bool * SnakeGame) :=
  match events with
  | [] => Some (true, g)
  | EV_QUIT :: _ => Some (false, g)
  | event :: rest =>
      match (match event with
             | EV_KEYDOWN key => handle_keyboard_input key g
             | _ => Some (true, g)
             end) with
      | None => None
      | Some (false, g1) => Some (false, g1)
      | Some (true, g1) =>
          let '(continue, g2) := handle_button_clicks event g1 in
          if continue then handle_event_loop rest g2 else Some (false, g2)
      end
  end.

(** [SnakeGame._handle_events] with the pointer position read at its
    start; the hover states are updated only when the loop ran through. *)
Definition handle_events_ui (events : list PygameEvent) (mouse_pos : Z * Z) (ui : UI)
  : option (bool * UI) :=
  match handle_event_loop events (game ui) with
  | None => None
  | Some (false, g) => Some (false, mkUI g (is_hovered ui))
  | Some (true, g) => Some (true, update_button_hovers mouse_pos (mkUI g (is_hovered ui)))
  end.

(** ** Drawing

    Of the drawing code, what reads or writes the simulation: the
    indexing of the animation list by [Snake.draw], the final score and
    the banner test of [_draw_game_over], the rows of the leaderboard,
    and the tab clicks that [_draw_leaderboard] acts on. *)

(** The top-left pixel of a cell ([Snake.draw]). *)
Definition cell_screen (c : Cell) : Z * Z :=
  (GameConfig.GAME_AREA_X + fst c * GameConfig.GRID_SIZE,
   GameConfig.GAME_AREA_Y + snd c * GameConfig.GRID_SIZE).

(** The centre pixel of a cell ([Food.draw], the particle effects). *)
Definition cell_center (c : Cell) : Z * Z :=
  (GameConfig.GAME_AREA_X + fst c * GameConfig.GRID_SIZE + GameConfig.GRID_SIZE / 2,
   GameConfig.GAME_AREA_Y + snd c * GameConfig.GRID_SIZE + GameConfig.GRID_SIZE / 2).

(** [Snake.draw]: for every body index the screen position and the
    animation phase [segment_animations[i] + body_pulse_offset];
    [segment_animations[i]] raises when the list is too short. *)
Fixpoint Snake_draw_from (i : nat) (cells : list Cell) (s : Snake)
  : option (list (Z * Z * Z)) :=
  match cells with
  | [] => Some []
  | c :: rest =>
      phase ← segment_animations s !! i;
      drawn ← Snake_draw_from (S i) rest s;
      Some ((cell_screen c, phase + body_pulse_offset s) :: drawn)
  end.

Definition Snake_draw (s : Snake) : option (list (Z * Z * Z)) :=
  Snake_draw_from 0 (positions s) s.

(** [SnakeGame._draw_game_over]: the final score shown and whether the
    banner NEW HIGH SCORE is shown. *)
Definition draw_game_over (g : SnakeGame) : option (Z * bool) :=
  fs ← final_score (current_difficulty g) (game_score g);
  Some (fs, is_high_score (current_difficulty g) fs (score_manager g)).

(** [GameUI.draw_high_score_panel]: the best score of each difficulty. *)
Definition draw_high_score_panel (scores : gmap string (list ScoreEntry))
  : list (string * Z) :=
  map (fun difficulty => (difficulty, get_high_score difficulty scores))
      ["EASY"; "MEDIUM"; "HARD"].

(** [SnakeGame._draw_game]: the snake when there is one. *)
Definition draw_game (g : SnakeGame) : option (list (Z * Z * Z)) :=
  match snake g with
  | Some s => Snake_draw s
  | None => Some []
  end.

(** The tabs of [_draw_leaderboard]. *)
Definition tab_rect (i : Z) : Rect :=
  (GameConfig.WINDOW_WIDTH / 2 - 300 + i * 200, 130, 200, 50).

(** The tab loop of [_draw_leaderboard]: [mouse i] is what
    [pygame.mouse.get_pos()] and [get_pressed()[0]] return while tab [i]
    is drawn. *)
Definition draw_leaderboard_tabs (mouse : Z -> (Z * Z) * bool) (g : SnakeGame)
  : SnakeGame :=
  fold_left
    (fun g1 '(i, difficulty) =>
       if collidepoint (tab_rect i) (fst (mouse i)) && snd (mouse i)
       then set_leaderboard_difficulty difficulty g1 else g1)
    [(0, "EASY"); (1, "MEDIUM"); (2, "HARD")] g.

(** The rows of [_draw_leaderboard]: rank, score and date. *)
Fixpoint rows_from (i : Z) (entries : list ScoreEntry) : list (Z * Z * string) :=
  match entries with
  | [] => []
  | e :: rest => (i + 1, score e, date e) :: rows_from (i + 1) rest
  end.

Definition draw_leaderboard_rows (g : SnakeGame) : list (Z * Z * string) :=
  rows_from 0 (get_top_scores (leaderboard_difficulty g) 10 (score_manager g)).

(** [SnakeGame.draw]: the state it leaves behind, or [None] when a
    computation in it raises. *)
Definition draw (mouse : Z -> (Z * Z) * bool) (g : SnakeGame) : option SnakeGame :=
  match state g with
  | MENU | DIFFICULTY_SELECT => Some g
  | PLAYING => _ ← draw_game g; Some g
  | GAME_OVER => _ ← draw_game g; _ ← draw_game_over g; Some g
  | LEADERBOARD => Some (draw_leaderboard_tabs mouse g)
  end.

(** ** The main loop *)

(** What one turn of the loop reads from outside. *)
Record FrameInput := mkInput {
  frame_events : list PygameEvent;
  frame_mouse_pos : Z * Z;
  frame_draw_mouse : Z -> (Z * Z) * bool;
  frame_now : string
}.

(** One turn of the loop of [SnakeGame.run]: events, tick, drawing. *)
Definition run_frame (i : FrameInput) (ui : UI) : option (bool * UI) :=
  match handle_events_ui (frame_events i) (frame_mouse_pos i) ui with
  | None => None
  | Some (running, ui1) =>
      g2 ← update_game_logic (frame_now i) (game ui1);
      g3 ← draw (frame_draw_mouse i) g2;
      Some (running, mkUI g3 (is_hovered ui1))
  end.

(** The frame rate asked of the clock at the end of a turn. *)
Definition tick_rate (g : SnakeGame) : Z :=
  match state g with
  | PLAYING => speed (get_config (current_difficulty g))
  | _ => 60
  end.

(** [SnakeGame.run]: turns while [running]; [None] when a turn raises. *)
Fixpoint run (inputs : list FrameInput) (ui : UI) : option UI :=
  match inputs with
  | [] => Some ui
  | i :: rest =>
      match run_frame i ui with
      | None => None
      | Some (true, ui') => run rest ui'
      | Some (false, ui') => Some ui'
      end
  end.

(** The program at start: [SnakeGame.__init__] with no button hovered. *)
Definition UI_init (scores : gmap string (list ScoreEntry)) (r : Rng) : UI :=
  mkUI (SnakeGame_init scores r) (fun _ => false).

(** ** Vocabulary of the statements *)

(** The cell that [move] inserts at the front. *)
Definition new_head (s : Snake) : option Cell :=
  match positions s with
  | [] => None
  | (head_x, head_y) :: _ => Some (head_x + fst (direction s), head_y + snd (direction s))
  end.

(** The generator after [n] more draws. *)
Definition skip (n : nat) (r : Rng) : Rng := mkRng (draws r) (n + cursor r).

(** The cell that the [k]-th call of [_generate_position] from [r]
    returns (each call takes two draws). *)
Definition sample (r : Rng) (k : nat) : Cell := fst (generate_position (skip (2 * k) r)).

(** The body cells that are still body cells after the next step: all
    of them when a growth is pending, all but the tail otherwise. *)
Definition kept_cells (s : Snake) : list Cell :=
  if grow_pending s then positions s else removelast (positions s).


(** The direction a key asks for while playing. *)
Definition key_direction (key : Key) : option (Z * Z) :=
  match key with
  | K_UP | K_w => Some (0, -1)
  | K_DOWN | K_s => Some (0, 1)
  | K_LEFT | K_a => Some (-1, 0)
  | K_RIGHT | K_d => Some (1, 0)
  | _ => None
  end.

(** The exact negation of a direction. *)
Definition opposite (d : Z * Z) : Z * Z := (fst d * -1, snd d * -1).

(** One request against the direction in force when it arrives. *)
Definition turn (current request : Z * Z) : Z * Z :=
  if dir_eqb (opposite request) current then current else request.

(** The requests of an interval, applied in order of arrival. *)
Definition apply_intents (requests : list (Z * Z)) (current : Z * Z) : Z * Z :=
  fold_left turn requests current.

(** Insertion of a new element behind every element whose key is not
    smaller: the place the specification gives to an inserted entry. *)
Fixpoint insert_back {A} (key : A -> Z) (e : A) (l : list A) : list A :=
  match l with
  | [] => [e]
  | y :: l' => if key e <=? key y then y :: insert_back key e l' else e :: y :: l'
  end.

(** Descending order by key: every element is followed only by
    elements whose key is not greater. *)
Definition desc {A} (key : A -> Z) (a b : A) : Prop := key b <= key a.

Definition sorted_desc (l : list ScoreEntry) : Prop := StronglySorted (desc score) l.

(** The arguments of one call of [add_score], and the clock reading at
    the call. *)
Record AddCall := mkCall {
  call_difficulty : string;
  call_score : Z;
  call_player : string;
  call_now : string
}.

(** Calls of [add_score] made one after the other: the ranks returned
    and the table. *)
Definition add_all (calls : list AddCall)
    (m : gmap string (list ScoreEntry)) : list Z * gmap string (list ScoreEntry) :=
  fold_left (fun acc c =>
               let '(r, m') := add_score (call_difficulty c) (call_score c)
                                 (call_player c) (call_now c) (snd acc) in
               (fst acc ++ [r], m'))
            calls ([], m).


(** The leaderboard invariant of the data model. *)
Definition table_ok (scores : gmap string (list ScoreEntry)) : Prop :=
  forall d l, scores !! d = Some l -> (length l <= 10)%nat /\ sorted_desc l.

(** The largest raw score a session can hold: ten per cell of the grid. *)
Definition MAX_RAW_SCORE : Z := 10 * (GameConfig.GRID_WIDTH * GameConfig.GRID_HEIGHT).

(** [p] on the [n] integers from [start] on. *)
Fixpoint all_from (p : Z -> bool) (n : nat) (start : Z) : bool :=
  match n with
  | O => true
  | S k => p start && all_from p k (start + 1)
  end.

(** The float computation of a final score agrees with the exact floor. *)
Definition final_score_exact (c : DifficultyConfig) (raw : Z) : bool :=
  match int_of_float (int_mul_float raw (multiplier c)) with
  | Some v => v =? Qfloor (inject_Z raw * float_value (multiplier c))
  | None => false
  end.

(** The four directions the keys ask for. *)
Definition unit_direction (d : Z * Z) : Prop :=
  d = (1, 0) \/ d = (-1, 0) \/ d = (0, 1) \/ d = (0, -1).

(** What holds of a snake from its creation on: a head, one animation
    counter per segment, a direction of the keys. *)
Definition snake_ok (s : Snake) : Prop :=
  positions s <> [] /\
  length (segment_animations s) = length (positions s) /\
  unit_direction (direction s).

(** The body between two steps: cells of the grid, no two equal. *)
Definition body_ok (s : Snake) : Prop :=
  NoDup (positions s) /\ Forall (fun c => in_grid c = true) (positions s).

(** The invariant of the controller: the raw score is in range, a snake
    that exists is well formed, and while playing there are a snake and
    a food in the grid and the score counts ten per segment grown or
    pending. *)
Definition game_ok (g : SnakeGame) : Prop :=
  0 <= game_score g <= MAX_RAW_SCORE /\
  (forall s, snake g = Some s -> snake_ok s) /\
  (state g = PLAYING ->
   exists s f,
     snake g = Some s /\ food g = Some f /\ body_ok s /\
     in_grid (position f) = true /\
     game_score g
     = 10 * (Z.of_nat (length (positions s)) - 1) + (if grow_pending s then 10 else 0)).

(** All cells of the grid, column by column. *)
Definition grid_cells : list Cell :=
  x ← seqZ 0 GameConfig.GRID_WIDTH; y ← seqZ 0 GameConfig.GRID_HEIGHT; [(x, y)].

(** The keyboard events of a frame as events of the full loop. *)
Definition to_pygame (e : Event) : PygameEvent :=
  match e with
  | QUIT => EV_QUIT
  | KEYDOWN key => EV_KEYDOWN key
  end.

(** Whether an event is a left click inside a button. *)
Definition button_hit (b : ButtonId) (event : PygameEvent) : bool :=
  match event with
  | EV_MOUSEBUTTONDOWN button pos => (button =? 1) && collidepoint (button_rect b) pos
  | _ => false
  end.

(** The controller after the click sound of a button. *)
Definition click (g : SnakeGame) : SnakeGame :=
  set_audio (play_sound "button_click" (audio_manager g)) g.

(** Two controllers that differ at most in the audio manager. *)
Definition same_but_audio (g g' : SnakeGame) : Prop :=
  state g' = state g /\ current_difficulty g' = current_difficulty g /\
  snake g' = snake g /\ food g' = food g /\ game_score g' = game_score g /\
  score_manager g' = score_manager g /\
  leaderboard_difficulty g' = leaderboard_difficulty g /\ rng g' = rng g.

(** A rectangle inside the window. *)
Definition in_window (r : Rect) : Prop :=
  let '(x, y, w, h) := r in
  0 <= x /\ 0 <= y /\ 0 < w /\ 0 < h /\
  x + w <= GameConfig.WINDOW_WIDTH /\ y + h <= GameConfig.WINDOW_HEIGHT.

(** What a button does on the screen of a state, the click sound played. *)
Definition button_action (st : GameState) (b : ButtonId) (g : SnakeGame) : bool * SnakeGame :=
  match st, b with
  | MENU, start_button => (true, set_state DIFFICULTY_SELECT g)
  | MENU, leaderboard_button => (true, set_state LEADERBOARD g)
  | MENU, quit_button => (false, g)
  | DIFFICULTY_SELECT, easy_button => (true, start_new_game (select_difficulty "EASY" g))
  | DIFFICULTY_SELECT, medium_button => (true, start_new_game (select_difficulty "MEDIUM" g))
  | DIFFICULTY_SELECT, hard_button => (true, start_new_game (select_difficulty "HARD" g))
  | DIFFICULTY_SELECT, back_button => (true, set_state MENU g)
  | GAME_OVER, play_again_button => (true, start_new_game g)
  | GAME_OVER, change_difficulty_button => (true, set_state DIFFICULTY_SELECT g)
  | GAME_OVER, back_button => (true, set_state MENU g)
  | LEADERBOARD, back_button => (true, set_state MENU g)
  | MENU, audio_button | DIFFICULTY_SELECT, audio_button
  | GAME_OVER, audio_button | LEADERBOARD, audio_button => (true, toggle_audio g)
  | _, _ => (true, g)
  end.

(** The rectangle of the game area on the screen. *)
Definition game_area : Rect :=
  (GameConfig.GAME_AREA_X, GameConfig.GAME_AREA_Y,
   GameConfig.GAME_AREA_WIDTH, GameConfig.GAME_AREA_HEIGHT).

(** An event the keyboard does not see: a mouse button or another type. *)
Definition mouse_or_other (event : PygameEvent) : Prop :=
  match event with
  | EV_MOUSEBUTTONDOWN _ _ | EV_OTHER => True
  | _ => False
  end.

(** An event that is neither the M key nor a click on the audio button. *)
Definition no_audio_toggle (event : PygameEvent) : Prop :=
  event <> EV_KEYDOWN K_m /\ button_hit audio_button event = false.

(** The three names of the difficulty table. *)
Definition known_difficulty (d : string) : Prop :=
  d = "EASY"%string \/ d = "MEDIUM"%string \/ d = "HARD"%string.

(** Both difficulty attributes of the controller carry a known name. *)
Definition names_ok (g : SnakeGame) : Prop :=
  known_difficulty (current_difficulty g) /\ known_difficulty (leaderboard_difficulty g).

(** * Properties *)

(** ** Cells and membership *)

Lemma cell_eqb_eq (a b : Cell) : cell_eqb a b = true <-> a = b.
Proof.
  destruct a as [a1 a2], b as [b1 b2]; unfold cell_eqb; simpl.
  rewrite andb_true_iff, !Z.eqb_eq. split; [intros [-> ->] | intros [= -> ->]]; auto.
Qed.

Lemma cell_eqb_refl (a : Cell) : cell_eqb a a = true.
Proof. now apply cell_eqb_eq. Qed.

Lemma cell_eqb_neq (a b : Cell) : cell_eqb a b = false <-> a <> b.
Proof.
  rewrite <- cell_eqb_eq. destruct (cell_eqb a b); split; congruence.
Qed.

Lemma cell_in_In (c : Cell) (cells : list Cell) : cell_in c cells = true <-> In c cells.
Proof.
  unfold cell_in. rewrite existsb_exists. split.
  - intros [x [Hx He]]. apply cell_eqb_eq in He. now subst.
  - intros H. exists c. split; [assumption | apply cell_eqb_refl].
Qed.

Lemma cell_in_not_In (c : Cell) (cells : list Cell) : cell_in c cells = false <-> ~ In c cells.
Proof.
  rewrite <- cell_in_In. destruct (cell_in c cells); split; congruence.
Qed.

Lemma in_grid_bounds (c : Cell) :
  in_grid c = true <->
  0 <= fst c < GameConfig.GRID_WIDTH /\ 0 <= snd c < GameConfig.GRID_HEIGHT.
Proof.
  unfold in_grid. rewrite !andb_true_iff, !Z.leb_le, !Z.ltb_lt. tauto.
Qed.

(** The wall test of [check_collision] is the complement of [in_grid]. *)
Lemma wall_test_in_grid (x y : Z) :
  (x <? 0) || (x >=? GameConfig.GRID_WIDTH) || (y <? 0) || (y >=? GameConfig.GRID_HEIGHT)
  = negb (in_grid (x, y)).
Proof.
  unfold in_grid; simpl.
  destruct (Z.ltb_spec x 0), (Z.leb_spec 0 x); try lia;
  destruct (Z.geb_spec x GameConfig.GRID_WIDTH), (Z.ltb_spec x GameConfig.GRID_WIDTH); try lia;
  destruct (Z.ltb_spec y 0), (Z.leb_spec 0 y); try lia;
  destruct (Z.geb_spec y GameConfig.GRID_HEIGHT), (Z.ltb_spec y GameConfig.GRID_HEIGHT); try lia;
  reflexivity.
Qed.

(** ** The snake's move *)

Lemma move_positions (s : Snake) (h : Cell) :
  new_head s = Some h ->
  exists s', move s = Some s' /\
    positions s' = (if grow_pending s then h :: positions s
                    else h :: removelast (positions s)) /\
    direction s' = direction s /\ grow_pending s' = false.
Proof.
  unfold new_head, move. destruct (positions s) as [| [hx hy] rest] eqn:E; [discriminate |].
  intros [= <-]. destruct (grow_pending s) eqn:G; simpl.
  - eexists; repeat split.
  - eexists; repeat split.
Qed.

Lemma new_head_some (s : Snake) : positions s <> [] -> exists h, new_head s = Some h.
Proof.
  unfold new_head. destruct (positions s) as [| [hx hy] rest]; [congruence | eauto].
Qed.

Lemma length_removelast_cons {A} (l : list A) :
  l <> [] -> S (length (removelast l)) = length l.
Proof.
  intros H. destruct (exists_last H) as [l' [a ->]].
  rewrite removelast_last, length_app. simpl. lia.
Qed.

Lemma check_collision_cons (s : Snake) (h : Cell) (rest : list Cell) :
  positions s = h :: rest ->
  check_collision s = Some (negb (in_grid h) || cell_in h rest).
Proof.
  intros E. unfold check_collision. rewrite E. destruct h as [x y].
  rewrite wall_test_in_grid. destruct (in_grid (x, y)); reflexivity.
Qed.

Lemma opposite_involutive (d : Z * Z) : opposite (opposite d) = d.
Proof. destruct d as [x y]; unfold opposite; simpl; f_equal; lia. Qed.

Lemma opposite_inj (d e : Z * Z) : opposite d = opposite e -> d = e.
Proof. intros H. rewrite <- (opposite_involutive d), H. apply opposite_involutive. Qed.

Lemma change_direction_turn (d : Z * Z) (s : Snake) (a : AudioManager) :
  direction (fst (change_direction d s a)) = turn (direction s) d /\
  positions (fst (change_direction d s a)) = positions s /\
  grow_pending (fst (change_direction d s a)) = grow_pending s.
Proof.
  unfold change_direction, turn, opposite.
  destruct (dir_eqb (fst d * -1, snd d * -1) (direction s)); simpl; auto.
Qed.

Lemma set_snake_audio_same (g : SnakeGame) (s : Snake) :
  snake g = Some s -> set_audio (audio_manager g) (set_snake s g) = g.
Proof. destruct g; simpl; intros ->; reflexivity. Qed.

(** ** C6: growth *)

(** C6. A step changes the body length by exactly the grow-pending flag
    it starts with (plus one when set, unchanged otherwise), so the
    length never decreases; a step that does not collide and whose new
    head is the food cell leaves the body as moved, sets the flag for
    the next step and adds 10 to the raw score. *)
Theorem body_length_step (now : string) (g : SnakeGame) (s : Snake) (f : Food) :
  state g = PLAYING -> snake g = Some s -> food g = Some f -> positions s <> [] ->
  exists s' h,
    move s = Some s' /\ head (positions s') = Some h /\
    length (positions s') = (length (positions s) + (if grow_pending s then 1 else 0))%nat /\
    (check_collision s' = Some false ->
     exists g' s'',
       update_game_logic now g = Some g' /\ snake g' = Some s'' /\
       positions s'' = positions s' /\
       grow_pending s'' = cell_eqb h (position f) /\
       game_score g' = game_score g + (if cell_eqb h (position f) then 10 else 0)).
Proof.
  intros Hst Hs Hf Hne.
  destruct (new_head_some s Hne) as [h Hh].
  destruct (move_positions s h Hh) as [s' [Hm [Hp [_ Hg]]]].
  exists s', h. split; [exact Hm |]. split.
  { rewrite Hp. destruct (grow_pending s); reflexivity. }
  split.
  { rewrite Hp. destruct (grow_pending s); simpl.
    - lia.
    - rewrite (length_removelast_cons _ Hne). lia. }
  intros Hc. unfold update_game_logic. rewrite Hst, Hs. simpl. rewrite Hm. simpl.
  rewrite Hf. simpl. rewrite Hc. simpl.
  assert (Hhd : head (positions s') = Some h).
  { rewrite Hp. destruct (grow_pending s); reflexivity. }
  rewrite Hhd. simpl.
  destruct (cell_eqb h (position f)) eqn:E.
  - unfold handle_food_eaten. simpl.
    destruct (respawn (positions s') (Food_update f) (rng g)) as [f' r'].
    eexists _, _. split; [reflexivity |]. simpl. repeat split.
  - eexists _, _. split; [reflexivity |]. simpl. repeat split; [assumption | lia].
Qed.

(** The first step of a new snake keeps its length of one. A snake of
    two segments with a growth pending and the food right ahead: the
    step makes it three segments long, eats, sets the flag again and
    takes the raw score from 10 to 20. *)
Lemma body_length_step_witness :
  (exists s' h,
     move Snake_init = Some s' /\ head (positions s') = Some h /\
     length (positions s') = 1%nat) /\
  (let s := mkSnake [(18, 13); (17, 13)] (1, 0) true [0; 0] 0 0 in
   let g := mkGame PLAYING "MEDIUM" (Some s) (Some (mkFood (19, 13) 0)) 10 ∅
              (mkAudio true []) "MEDIUM" (mkRng (fun _ => 0) 0) in
   exists g' s'',
     update_game_logic "t" g = Some g' /\ snake g' = Some s'' /\
     length (positions s'') = 3%nat /\ grow_pending s'' = true /\
     game_score g' = 20).
Proof.
  split.
  - pose (g := start_new_game (SnakeGame_init ∅ (mkRng (fun _ => 0) 0))).
    destruct (body_length_step "t" g Snake_init (mkFood (0, 0) 0))
      as [s' [h [H1 [H2 [H3 _]]]]];
      [reflexivity | reflexivity | reflexivity | discriminate |].
    exists s', h. auto.
  - intros s g.
    destruct (body_length_step "t" g s (mkFood (19, 13) 0))
      as [s' [h [H1 [H2 [H3 H4]]]]];
      [reflexivity | reflexivity | reflexivity | discriminate |].
    vm_compute in H1. injection H1 as <-.
    vm_compute in H2. injection H2 as <-.
    destruct H4 as (g' & s'' & Hu & Hs & Hp & Hg & Hsc); [vm_compute; reflexivity |].
    exists g', s''. split; [exact Hu |]. split; [exact Hs |].
    split; [rewrite Hp; reflexivity |]. split; [rewrite Hg; reflexivity |].
    rewrite Hsc. reflexivity.
Defined.

(** ** C7: collision after tail removal *)

(** C7. The collision test runs on the body as [move] leaves it: with
    [h] the new head and [rest] the cells behind it after any tail
    removal, a collision is reported exactly when [h] is outside the
    grid or [h] occurs in [rest]. For a duplicate-free body of length
    at least two inside the grid, moving with no pending growth into the
    cell its tail leaves reports no collision. *)
Theorem collision_after_tail_removal (s : Snake) (h : Cell) :
  (2 <= length (positions s))%nat -> grow_pending s = false ->
  NoDup (positions s) -> Forall (fun c => in_grid c = true) (positions s) ->
  new_head s = Some h ->
  exists s' rest,
    move s = Some s' /\ positions s' = h :: rest /\
    rest = removelast (positions s) /\
    check_collision s' = Some (negb (in_grid h) || cell_in h rest) /\
    (last (positions s) = Some h -> check_collision s' = Some false).
Proof.
  intros Hlen Hg Hnd Hin Hh.
  destruct (move_positions s h Hh) as [s' [Hm [Hp _]]].
  rewrite Hg in Hp. exists s', (removelast (positions s)).
  split; [exact Hm |]. split; [exact Hp |]. split; [reflexivity |].
  split; [now apply check_collision_cons |].
  intros Hl. rewrite (check_collision_cons _ _ _ Hp).
  apply last_Some in Hl. destruct Hl as [l' Hl'].
  rewrite Hl' in *. rewrite removelast_last.
  apply NoDup_app in Hnd. destruct Hnd as [_ [Hdis _]].
  apply Forall_app in Hin. destruct Hin as [_ Hin].
  apply Forall_inv in Hin. rewrite Hin. simpl. f_equal.
  apply cell_in_not_In. intros Hc. apply list_elem_of_In in Hc.
  apply (Hdis h Hc). apply list_elem_of_here.
Qed.

Lemma collision_after_tail_removal_witness :
  exists s',
    move (mkSnake [(5, 5); (5, 6); (4, 6); (4, 5)] (-1, 0) false [0; 0; 0; 0] 0 0) = Some s' /\
    check_collision s' = Some false.
Proof.
  destruct (collision_after_tail_removal
              (mkSnake [(5, 5); (5, 6); (4, 6); (4, 5)] (-1, 0) false [0; 0; 0; 0] 0 0)
              (4, 5)) as [s' [rest [H1 [_ [_ [_ H5]]]]]].
  - simpl. lia.
  - reflexivity.
  - simpl. apply NoDup_ListNoDup.
    repeat (constructor; [simpl; intuition congruence |]). constructor.
  - simpl. repeat constructor.
  - reflexivity.
  - exists s'. split; [exact H1 | apply H5; reflexivity].
Defined.

(** ** C8: a reversal request *)

(** C8. A request that is the exact negation of the active direction
    leaves the snake and the audio log as they are (no change, no turn
    sound), so the next step still moves in the old direction; any other
    request becomes the active direction. While moving right, the left
    keys are such a request. *)
Theorem reversal_request_dropped (g : SnakeGame) (s : Snake) :
  state g = PLAYING -> snake g = Some s ->
  change_direction (opposite (direction s)) s (audio_manager g) = (s, audio_manager g) /\
  (forall d a, d <> opposite (direction s) ->
     direction (fst (change_direction d s a)) = d) /\
  (forall key, key_direction key = Some (opposite (direction s)) ->
     handle_keyboard_input key g = Some (true, g) /\
     handle_events [KEYDOWN key] g = Some (true, g) /\
     forall now, frame [KEYDOWN key] now g = pair true <$> update_game_logic now g) /\
  (forall key d, key_direction key = Some d -> d <> opposite (direction s) ->
     exists g' s', handle_keyboard_input key g = Some (true, g') /\
       snake g' = Some s' /\ direction s' = d /\ positions s' = positions s) /\
  (forall h, new_head s = Some h -> exists s', move s = Some s' /\
     head (positions s') = Some h /\ direction s' = direction s).
Proof.
  intros Hst Hs.
  assert (Hrev : forall a, change_direction (opposite (direction s)) s a = (s, a)).
  { intros a. unfold change_direction.
    change (fst (opposite (direction s)) * -1, snd (opposite (direction s)) * -1)
      with (opposite (opposite (direction s))).
    rewrite opposite_involutive. unfold dir_eqb. rewrite cell_eqb_refl. reflexivity. }
  assert (Hkey : forall key d, key_direction key = Some d ->
            handle_keyboard_input key g =
            g' ← game_change_direction d g; Some (true, g')).
  { intros key d Hk. unfold handle_keyboard_input. rewrite Hst.
    destruct key; simpl in Hk; try discriminate; injection Hk as <-; reflexivity. }
  split; [apply Hrev |]. split.
  { intros d a Hd. destruct (change_direction_turn d s a) as [-> _].
    unfold turn, dir_eqb. destruct (cell_eqb (opposite d) (direction s)) eqn:E; [| reflexivity].
    apply cell_eqb_eq in E. exfalso. apply Hd. rewrite <- E. symmetry. apply opposite_involutive. }
  split.
  { intros key Hk.
    assert (H1 : handle_keyboard_input key g = Some (true, g)).
    { rewrite (Hkey _ _ Hk). unfold game_change_direction. rewrite Hs. simpl.
      rewrite Hrev. simpl. now rewrite set_snake_audio_same. }
    split; [exact H1 |]. split.
    - simpl. rewrite H1. reflexivity.
    - intros now. unfold frame. simpl. rewrite H1.
      destruct (update_game_logic now g); reflexivity. }
  split.
  { intros key d Hk Hd. rewrite (Hkey _ _ Hk). unfold game_change_direction. rewrite Hs. simpl.
    destruct (change_direction d s (audio_manager g)) as [s1 a1] eqn:E. simpl.
    exists (set_audio a1 (set_snake s1 g)), s1. split; [reflexivity |]. split; [reflexivity |].
    destruct (change_direction_turn d s (audio_manager g)) as [H1 [H2 _]].
    rewrite E in H1, H2. simpl in H1, H2. split; [| exact H2].
    rewrite H1. unfold turn, dir_eqb.
    destruct (cell_eqb (opposite d) (direction s)) eqn:E'; [| reflexivity].
    apply cell_eqb_eq in E'. exfalso. apply Hd. rewrite <- E'. symmetry. apply opposite_involutive. }
  intros h Hh. destruct (move_positions s h Hh) as [s' [Hm [Hp [Hd _]]]].
  exists s'. split; [exact Hm |]. split; [| exact Hd].
  rewrite Hp. destruct (grow_pending s); reflexivity.
Qed.

(** Scenario B on a concrete session: moving right, the left key changes
    nothing and the step goes right; the up key then turns the snake. *)
Lemma reversal_request_dropped_witness :
  let g := start_new_game (SnakeGame_init ∅ (mkRng (fun _ => 0) 0)) in
  handle_keyboard_input K_LEFT g = Some (true, g) /\
  (exists s', move Snake_init = Some s' /\ head (positions s') = Some (18, 13)) /\
  (exists g' s', handle_keyboard_input K_UP g = Some (true, g') /\
     snake g' = Some s' /\ direction s' = (0, -1)).
Proof.
  intros g.
  destruct (reversal_request_dropped g Snake_init eq_refl eq_refl) as [_ [_ [H3 [H4 H5]]]].
  split; [apply (H3 K_LEFT); reflexivity |]. split.
  - destruct (H5 (18, 13) eq_refl) as [s' [Hm [Hh _]]]. exists s'. auto.
  - destruct (H4 K_UP (0, -1) eq_refl) as [g' [s' [H [Hs [Hd _]]]]]; [discriminate |].
    exists g', s'. auto.
Defined.

(** ** C10: a new session *)

(** C10. Whatever the controller held before (state, snake, direction,
    score of an earlier session), [_start_new_game] leaves it playing
    with the body the single centre cell (17, 13), direction right, no
    pending growth and raw score 0; confirming a difficulty and playing
    again both go through it. *)
Theorem new_session_initial_state (g : SnakeGame) :
  state (start_new_game g) = PLAYING /\
  game_score (start_new_game g) = 0 /\
  snake (start_new_game g) = Some Snake_init /\
  positions Snake_init = [(GameConfig.GRID_WIDTH / 2, GameConfig.GRID_HEIGHT / 2)] /\
  positions Snake_init = [(17, 13)] /\
  direction Snake_init = (1, 0) /\
  grow_pending Snake_init = false /\
  handle_keyboard_input K_SPACE (set_state DIFFICULTY_SELECT g)
    = Some (true, start_new_game g) /\
  handle_keyboard_input K_RETURN (set_state DIFFICULTY_SELECT g)
    = Some (true, start_new_game g) /\
  handle_keyboard_input K_SPACE (set_state GAME_OVER g) = Some (true, start_new_game g) /\
  handle_keyboard_input K_RETURN (set_state GAME_OVER g) = Some (true, start_new_game g).
Proof.
  assert (H : forall st, start_new_game (set_state st g) = start_new_game g).
  { intros st. unfold start_new_game. simpl. reflexivity. }
  repeat split;
    try (unfold handle_keyboard_input; simpl; rewrite H; reflexivity);
    unfold start_new_game; destruct (Food_init (rng g)); reflexivity.
Qed.

(** ** C9: the final score *)

Lemma all_from_spec (p : Z -> bool) (n : nat) (start : Z) :
  all_from p n start = true ->
  forall z, start <= z < start + Z.of_nat n -> p z = true.
Proof.
  revert start. induction n as [| n IH]; intros start H z Hz.
  - lia.
  - simpl in H. apply andb_true_iff in H. destruct H as [H0 H1].
    destruct (Z.eq_dec z start) as [-> | Hne]; [exact H0 |].
    apply (IH (start + 1) H1). lia.
Qed.

Lemma get_config_cases (d : string) :
  get_config d = EASY_config \/ get_config d = MEDIUM_config \/ get_config d = HARD_config.
Proof.
  unfold get_config, DIFFICULTIES.
  destruct (decide (d = "EASY")) as [-> | H1].
  { left. now rewrite lookup_insert_eq. }
  rewrite lookup_insert_ne by congruence.
  destruct (decide (d = "MEDIUM")) as [-> | H2].
  { right; left. now rewrite lookup_insert_eq. }
  rewrite lookup_insert_ne by congruence.
  destruct (decide (d = "HARD")) as [-> | H3].
  { right; right. now rewrite lookup_insert_eq. }
  rewrite lookup_insert_ne by congruence.
  right; left. now rewrite lookup_empty.
Qed.

Lemma get_config_MEDIUM : get_config "MEDIUM" = MEDIUM_config.
Proof.
  unfold get_config, DIFFICULTIES.
  rewrite lookup_insert_ne by discriminate. now rewrite lookup_insert_eq.
Qed.

Lemma final_score_exact_all (c : DifficultyConfig) :
  c = EASY_config \/ c = MEDIUM_config \/ c = HARD_config ->
  all_from (final_score_exact c) (Z.to_nat (MAX_RAW_SCORE + 1)) 0 = true.
Proof.
  intros [-> | [-> | ->]]; vm_compute; reflexivity.
Qed.

Lemma final_score_floor (d : string) (raw : Z) :
  0 <= raw <= MAX_RAW_SCORE ->
  final_score d raw
  = Some (Qfloor (inject_Z raw * float_value (multiplier (get_config d)))).
Proof.
  intros Hr.
  pose proof (all_from_spec _ _ _ (final_score_exact_all _ (get_config_cases d)) raw) as H.
  assert (Hb : 0 <= raw < 0 + Z.of_nat (Z.to_nat (MAX_RAW_SCORE + 1))).
  { rewrite Z2Nat.id by (unfold MAX_RAW_SCORE; vm_compute; discriminate). lia. }
  specialize (H Hb). unfold final_score_exact in H. unfold final_score.
  destruct (int_of_float (int_mul_float raw (multiplier (get_config d)))) as [v |];
    [| discriminate].
  apply Z.eqb_eq in H. now subst.
Qed.

(** C9. For every raw score a session can hold (0 up to ten per grid
    cell), the final score [int(score * multiplier)] computed in
    binary64 is the floor of the exact product; MEDIUM's multiplier is
    exactly 3/2 and a raw score of 40 on MEDIUM gives 60. Game over
    stores that score when it qualifies. *)
Theorem final_score_is_floor (now : string) (g : SnakeGame) :
  0 <= game_score g <= MAX_RAW_SCORE ->
  let d := current_difficulty g in
  let fs := Qfloor (inject_Z (game_score g) * float_value (multiplier (get_config d))) in
  final_score d (game_score g) = Some fs /\
  (float_value (multiplier (get_config "MEDIUM")) == 3 # 2)%Q /\
  final_score "MEDIUM" 40 = Some 60 /\
  exists g',
    handle_game_over now g = Some g' /\ state g' = GAME_OVER /\
    game_score g' = game_score g /\
    score_manager g' =
      (if is_high_score d fs (score_manager g)
       then snd (add_score d fs "Player" now (score_manager g))
       else score_manager g).
Proof.
  intros Hr d fs.
  assert (Hfs : final_score d (game_score g) = Some fs) by now apply final_score_floor.
  split; [exact Hfs |]. split.
  { rewrite get_config_MEDIUM. vm_compute. reflexivity. }
  split.
  { rewrite (final_score_floor "MEDIUM" 40) by (vm_compute; split; discriminate).
    rewrite get_config_MEDIUM. vm_compute. reflexivity. }
  unfold handle_game_over. fold d. rewrite Hfs. simpl.
  destruct (is_high_score d fs (score_manager g)).
  - destruct (add_score d fs "Player" now (score_manager g)) as [rk sm'].
    eexists. split; [reflexivity |]. simpl. auto.
  - eexists. split; [reflexivity |]. simpl. auto.
Qed.

(** Scenario C on a session that reached raw score 40 on MEDIUM. *)
Lemma final_score_is_floor_witness :
  let g := mkGame PLAYING "MEDIUM" (Some Snake_init) None 40 ∅ (mkAudio true []) "MEDIUM"
             (mkRng (fun _ => 0) 0) in
  final_score "MEDIUM" 40 = Some 60 /\
  exists g', handle_game_over "2026-01-01 12:00" g = Some g' /\ state g' = GAME_OVER.
Proof.
  intros g.
  destruct (final_score_is_floor "2026-01-01 12:00" g) as [H1 [_ [_ [g' [H4 [H5 _]]]]]].
  - vm_compute. split; discriminate.
  - split.
    + change (final_score "MEDIUM" 40) with (final_score (current_difficulty g) (game_score g)).
      rewrite H1. unfold g. simpl. rewrite get_config_MEDIUM. vm_compute. reflexivity.
    + exists g'. split; assumption.
Defined.

(** ** Food placement *)

Lemma generate_position_sample (r : Rng) :
  generate_position r = (sample r 0, skip 2 r).
Proof. destruct r as [d c]. reflexivity. Qed.

Lemma sample_skip (r : Rng) (k : nat) : sample (skip 2 r) k = sample r (S k).
Proof.
  unfold sample, skip. simpl.
  replace (k + (k + 0) + S (S (cursor r)))%nat with (S (k + S (k + 0) + cursor r))%nat by lia.
  reflexivity.
Qed.

Lemma skip_skip (n m : nat) (r : Rng) : skip n (skip m r) = skip (n + m) r.
Proof. unfold skip. simpl. f_equal. lia. Qed.

Lemma randint_range (a b : Z) (r : Rng) : a <= b -> a <= fst (randint a b r) <= b.
Proof.
  intros H. unfold randint. simpl.
  pose proof (Z.mod_pos_bound (draws r (cursor r)) (b - a + 1)). lia.
Qed.

Lemma generate_position_in_grid (r : Rng) : in_grid (fst (generate_position r)) = true.
Proof.
  unfold generate_position.
  pose proof (randint_range 0 (GameConfig.GRID_WIDTH - 1) r) as Hx.
  destruct (randint 0 (GameConfig.GRID_WIDTH - 1) r) as [x r1].
  pose proof (randint_range 0 (GameConfig.GRID_HEIGHT - 1) r1) as Hy.
  destruct (randint 0 (GameConfig.GRID_HEIGHT - 1) r1) as [y r2].
  simpl in *. apply in_grid_bounds. simpl.
  assert (GameConfig.GRID_WIDTH = 35) as Hw by reflexivity.
  assert (GameConfig.GRID_HEIGHT = 27) as Hh by reflexivity.
  lia.
Qed.

Lemma sample_in_grid (r : Rng) (k : nat) : in_grid (sample r k) = true.
Proof. apply generate_position_in_grid. Qed.

Lemma respawn_loop_S (n : nat) (ps : list Cell) (f : Food) (r : Rng) :
  respawn_loop (S n) ps f r
  = if negb (cell_in (sample r 0) ps)
    then (mkFood (sample r 0) (animation_frame f), skip 2 r)
    else respawn_loop n ps f (skip 2 r).
Proof. cbn [respawn_loop]. rewrite generate_position_sample. reflexivity. Qed.

(** Every sample occupied: the loop runs out and assigns nothing. *)
Lemma respawn_loop_exhausted (n : nat) (ps : list Cell) (f : Food) (r : Rng) :
  (forall k, (k < n)%nat -> cell_in (sample r k) ps = true) ->
  respawn_loop n ps f r = (f, skip (2 * n) r).
Proof.
  revert r. induction n as [| n IH]; intros r H.
  - destruct r; reflexivity.
  - rewrite respawn_loop_S, (H 0%nat) by lia. simpl negb. cbv iota.
    rewrite IH.
    + rewrite skip_skip. f_equal. f_equal. lia.
    + intros k Hk. rewrite sample_skip. apply H. lia.
Qed.

(** Some sample free: the food ends on a free cell of the grid. *)
Lemma respawn_loop_free (n : nat) (ps : list Cell) (f : Food) (r : Rng) :
  (exists k, (k < n)%nat /\ cell_in (sample r k) ps = false) ->
  cell_in (position (fst (respawn_loop n ps f r))) ps = false /\
  in_grid (position (fst (respawn_loop n ps f r))) = true.
Proof.
  revert r. induction n as [| n IH]; intros r [k [Hk Hfree]].
  - lia.
  - rewrite respawn_loop_S.
    destruct (cell_in (sample r 0) ps) eqn:E0; simpl negb; cbv iota.
    + apply IH. destruct k as [| k]; [congruence |].
      exists k. split; [lia |]. now rewrite sample_skip.
    + simpl. split; [exact E0 | apply sample_in_grid].
Qed.

(** ** C2: the retry bound *)

(** C2 (amended). When all 100 samples of a respawn are occupied cells,
    the food is left exactly as it was (its previous position is kept,
    no sample is accepted) and 100 samples have been consumed. *)
Theorem respawn_exhausted_keeps_position (ps : list Cell) (f : Food) (r : Rng) :
  (forall k, (k < 100)%nat -> cell_in (sample r k) ps = true) ->
  respawn ps f r = (f, skip 200 r) /\
  position (fst (respawn ps f r)) = position f.
Proof.
  intros H. unfold respawn. rewrite (respawn_loop_exhausted 100 ps f r H).
  split; reflexivity.
Qed.

Lemma constant_draws_sample (c : Z) (k : nat) :
  sample (mkRng (fun _ => c) 0) k = (c mod 35, c mod 27).
Proof. reflexivity. Qed.

Lemma respawn_exhausted_keeps_position_witness :
  respawn [(14, 13); (13, 13)] (mkFood (14, 13) 7) (mkRng (fun _ => 13) 0)
  = (mkFood (14, 13) 7, mkRng (fun _ => 13) 200).
Proof.
  apply (respawn_exhausted_keeps_position [(14, 13); (13, 13)] (mkFood (14, 13) 7)
           (mkRng (fun _ => 13) 0)).
  intros k _. rewrite constant_draws_sample. reflexivity.
Defined.

(** C2 as stated fails: with the body on (14,13),(13,13), the food on
    (14,13) and every sample equal to (13,13), the bound is exhausted and
    the food stays on (14,13); the last sample (13,13) is not accepted. *)
Lemma respawn_exhausted_not_last_sample :
  ~ (forall (ps : list Cell) (f : Food) (r : Rng),
       (forall k, (k < 100)%nat -> cell_in (sample r k) ps = true) ->
       position (fst (respawn ps f r)) = sample r 99).
Proof.
  intros H.
  specialize (H [(14, 13); (13, 13)] (mkFood (14, 13) 7) (mkRng (fun _ => 13) 0)).
  assert (Hocc : forall k, (k < 100)%nat ->
            cell_in (sample (mkRng (fun _ => 13) 0) k) [(14, 13); (13, 13)] = true).
  { intros k _. rewrite constant_draws_sample. reflexivity. }
  specialize (H Hocc). vm_compute in H. discriminate.
Qed.

(** ** C1: food and body, the cells of a moved body *)

Lemma In_removelast {A} (x : A) (l : list A) : In x (removelast l) -> In x l.
Proof.
  induction l as [| a l IH]; simpl; [tauto |].
  destruct l as [| b l]; simpl in *; [tauto |]. intuition.
Qed.

(** The body after a move holds the new head and cells of the old body. *)
Lemma moved_body_cells (s s' : Snake) (h c : Cell) :
  new_head s = Some h -> move s = Some s' ->
  In c (positions s') -> c = h \/ In c (positions s).
Proof.
  intros Hh Hm Hc. destruct (move_positions s h Hh) as [s1 [Hm1 [Hp _]]].
  rewrite Hm in Hm1. injection Hm1 as <-. rewrite Hp in Hc.
  destruct (grow_pending s); simpl in Hc.
  - destruct Hc as [<- | Hc]; auto.
  - destruct Hc as [<- | Hc]; auto. right. now apply In_removelast.
Qed.


(** ** C3: intents between two ticks *)

Lemma handle_key_direction (g : SnakeGame) (key : Key) (d : Z * Z) :
  state g = PLAYING -> key_direction key = Some d ->
  handle_keyboard_input key g = g' ← game_change_direction d g; Some (true, g').
Proof.
  intros Hst Hk. unfold handle_keyboard_input. rewrite Hst.
  destruct key; simpl in Hk; try discriminate; injection Hk as <-; reflexivity.
Qed.

Lemma apply_intents_last (ds : list (Z * Z)) (d cur : Z * Z) :
  apply_intents (ds ++ [d]) cur = turn (apply_intents ds cur) d.
Proof. unfold apply_intents. now rewrite fold_left_app. Qed.

(** Each directional key of a frame is applied to the snake at once,
    against the direction in force when it arrives; the direction used
    by the next step is the result of applying the frame's requests in
    order to the direction of the previous step. The last request wins
    unless it is the negation of the direction left by the earlier
    requests; a single request is judged against the previous step's
    direction alone. Body and growth flag are untouched. *)
Lemma intents_applied_in_order (keys : list Key) (ds : list (Z * Z))
    (g : SnakeGame) (s : Snake) :
  state g = PLAYING -> snake g = Some s ->
  Forall2 (fun k d => key_direction k = Some d) keys ds ->
  exists g' s',
    handle_events (KEYDOWN <$> keys) g = Some (true, g') /\
    state g' = PLAYING /\ snake g' = Some s' /\
    food g' = food g /\ game_score g' = game_score g /\ rng g' = rng g /\
    positions s' = positions s /\ grow_pending s' = grow_pending s /\
    direction s' = apply_intents ds (direction s) /\
    (forall ds0 d, ds = ds0 ++ [d] ->
       direction s' = turn (apply_intents ds0 (direction s)) d) /\
    (forall d, ds = [d] -> direction s' = turn (direction s) d).
Proof.
  intros Hst Hs HF.
  assert (Hmain : exists g' s',
    handle_events (KEYDOWN <$> keys) g = Some (true, g') /\
    state g' = PLAYING /\ snake g' = Some s' /\
    food g' = food g /\ game_score g' = game_score g /\ rng g' = rng g /\
    positions s' = positions s /\ grow_pending s' = grow_pending s /\
    direction s' = apply_intents ds (direction s)).
  { revert g s Hst Hs. induction HF as [| k d keys ds Hk HF IH]; intros g s Hst Hs.
    - exists g, s. simpl. repeat split; assumption.
    - simpl. rewrite (handle_key_direction g k d Hst Hk).
      unfold game_change_direction. rewrite Hs. simpl.
      destruct (change_direction_turn d s (audio_manager g)) as [Hd [Hp Hg]].
      destruct (change_direction d s (audio_manager g)) as [s1 a1]. simpl in *.
      destruct (IH (set_audio a1 (set_snake s1 g)) s1 Hst eq_refl)
        as [g' [s' [He [H1 [H2 [H3 [H4 [H5 [H6 [H7 H8]]]]]]]]]].
      exists g', s'. split; [exact He |]. simpl in *.
      repeat split; try assumption; try congruence. }
  destruct Hmain as [g' [s' [He [H1 [H2 [H3 [H4 [H5 [H6 [H7 H8]]]]]]]]]].
  exists g', s'. repeat split; try assumption.
  - intros ds0 d ->. rewrite H8. apply apply_intents_last.
  - intros d ->. rewrite H8. reflexivity.
Qed.

(** What C3 excludes happens. In a new session (moving right), the keys
    up then left in one frame make the next step move left, to (16, 13);
    the key left alone is dropped and the step moves right, to (18, 13).
    Same previous direction, same last intent, different steps. *)
Lemma intermediate_intent_changes_step :
  let g := start_new_game (SnakeGame_init ∅ (mkRng (fun _ => 0) 0)) in
  let now := "2026-01-01 12:00"%string in
  (exists g1 s1, frame [KEYDOWN K_UP; KEYDOWN K_LEFT] now g = Some (true, g1) /\
     snake g1 = Some s1 /\ direction s1 = (-1, 0) /\ positions s1 = [(16, 13)]) /\
  (exists g2 s2, frame [KEYDOWN K_LEFT] now g = Some (true, g2) /\
     snake g2 = Some s2 /\ direction s2 = (1, 0) /\ positions s2 = [(18, 13)]).
Proof.
  split; eexists _, _; (split; [vm_compute; reflexivity |]); repeat split.
Qed.

(** ** The stable descending sort *)

Section StableSort.
Context {A : Type}.
Variable key : A -> Z.

Lemma insert_desc_perm (x : A) (l : list A) : insert_desc key x l ≡ₚ x :: l.
Proof.
  induction l as [| y l IH]; simpl; [reflexivity |].
  destruct (key x <? key y); [| reflexivity].
  rewrite IH. apply Permutation_swap.
Qed.

Lemma sort_reverse_perm (l : list A) : sort_reverse key l ≡ₚ l.
Proof.
  induction l as [| x l IH]; simpl; [reflexivity |].
  unfold sort_reverse in *. simpl. rewrite insert_desc_perm. now rewrite IH.
Qed.

Lemma insert_desc_sorted (x : A) (l : list A) :
  StronglySorted (desc key) l -> StronglySorted (desc key) (insert_desc key x l).
Proof.
  induction 1 as [| y l Hs IH Hy]; simpl.
  - repeat constructor.
  - destruct (Z.ltb_spec (key x) (key y)).
    + constructor; [exact IH |].
      rewrite insert_desc_perm. constructor; [unfold desc; lia | exact Hy].
    + constructor; [constructor; assumption |].
      constructor; [unfold desc; lia |].
      eapply Forall_impl; [exact Hy |]. unfold desc. intros; simpl in *; lia.
Qed.

Lemma sort_reverse_sorted (l : list A) : StronglySorted (desc key) (sort_reverse key l).
Proof.
  induction l as [| x l IH]; [constructor |].
  unfold sort_reverse in *. simpl. now apply insert_desc_sorted.
Qed.

(** Inserting from the front and inserting at the back commute. *)
Lemma insert_desc_insert_back (x e : A) (l : list A) :
  insert_desc key x (insert_back key e l) = insert_back key e (insert_desc key x l).
Proof.
  induction l as [| y l IH]; simpl.
  - destruct (Z.ltb_spec (key x) (key e)), (Z.leb_spec (key e) (key x)); try lia; reflexivity.
  - destruct (Z.leb_spec (key e) (key y)); simpl.
    + destruct (Z.ltb_spec (key x) (key y)); simpl.
      * destruct (Z.leb_spec (key e) (key y)); try lia. now rewrite IH.
      * destruct (Z.leb_spec (key e) (key x)); try lia. simpl.
        destruct (Z.leb_spec (key e) (key y)); try lia. reflexivity.
    + destruct (Z.ltb_spec (key x) (key e)); simpl.
      * destruct (Z.ltb_spec (key x) (key y)); simpl.
        -- destruct (Z.leb_spec (key e) (key y)); try lia. reflexivity.
        -- destruct (Z.leb_spec (key e) (key x)); try lia. reflexivity.
      * destruct (Z.ltb_spec (key x) (key y)); try lia. simpl.
        destruct (Z.leb_spec (key e) (key x)); try lia. simpl.
        destruct (Z.leb_spec (key e) (key y)); try lia. reflexivity.
Qed.

(** Stability at the new element: appending then sorting puts it
    behind every element with a key at least as large. *)
Lemma sort_reverse_snoc (l : list A) (e : A) :
  sort_reverse key (l ++ [e]) = insert_back key e (sort_reverse key l).
Proof.
  induction l as [| x l IH]; [reflexivity |].
  unfold sort_reverse in *. simpl. rewrite IH. apply insert_desc_insert_back.
Qed.

(** Sorting a sorted list changes nothing. *)
Lemma sort_reverse_id (l : list A) :
  StronglySorted (desc key) l -> sort_reverse key l = l.
Proof.
  induction 1 as [| x l Hs IH Hx]; [reflexivity |].
  unfold sort_reverse in *. simpl. rewrite IH.
  destruct l as [| y l]; [reflexivity |]. simpl.
  apply Forall_inv in Hx. unfold desc in Hx.
  destruct (Z.ltb_spec (key x) (key y)); [lia | reflexivity].
Qed.

Lemma filter_none (P : A -> Prop) `{!forall x, Decision (P x)} (l : list A) :
  Forall (fun y => ~ P y) l -> filter P l = [].
Proof.
  induction 1 as [| y l Hy _ IH]; [reflexivity |].
  now rewrite filter_cons_False.
Qed.

Lemma filter_all (P : A -> Prop) `{!forall x, Decision (P x)} (l : list A) :
  Forall P l -> filter P l = l.
Proof.
  induction 1 as [| y l Hy _ IH]; [reflexivity |].
  rewrite filter_cons_True by assumption. now rewrite IH.
Qed.

(** On a sorted list the new element splits it: the elements with a
    key at least as large, in their order, then the new one, then the
    smaller ones, in their order. *)
Lemma insert_back_split (e : A) (l : list A) :
  StronglySorted (desc key) l ->
  insert_back key e l
  = filter (fun y => key e <= key y) l ++ e :: filter (fun y => key y < key e) l.
Proof.
  induction 1 as [| y l Hs IH Hy]; [reflexivity |]. simpl.
  destruct (Z.leb_spec (key e) (key y)).
  - rewrite filter_cons_True by assumption.
    rewrite (filter_cons_False (fun y => key y < key e)) by lia.
    rewrite IH. reflexivity.
  - rewrite filter_cons_False by lia.
    rewrite (filter_cons_True (fun y => key y < key e)) by assumption.
    rewrite filter_none, filter_all; [reflexivity | |];
      (eapply Forall_impl; [exact Hy |]); unfold desc; intros; simpl in *; lia.
Qed.

Lemma insert_back_sorted (e : A) (l : list A) :
  StronglySorted (desc key) l -> StronglySorted (desc key) (insert_back key e l).
Proof.
  induction 1 as [| y l Hs IH Hy]; simpl.
  - repeat constructor.
  - destruct (Z.leb_spec (key e) (key y)).
    + constructor; [exact IH |].
      assert (Hp : insert_back key e l ≡ₚ e :: l).
      { clear. induction l as [| z l IH]; simpl; [reflexivity |].
        destruct (key e <=? key z); [| reflexivity].
        rewrite IH. apply Permutation_swap. }
      rewrite Hp. constructor; [unfold desc; lia | exact Hy].
    + constructor; [constructor; assumption |].
      constructor; [unfold desc; lia |].
      eapply Forall_impl; [exact Hy |]. unfold desc. intros; simpl in *; lia.
Qed.

Lemma take_sorted (n : nat) (l : list A) :
  StronglySorted (desc key) l -> StronglySorted (desc key) (take n l).
Proof.
  intros H. revert n. induction H as [| y l Hs IH Hy]; intros [| n]; simpl;
    try constructor; [apply IH |].
  apply Forall_take. exact Hy.
Qed.

(** [rank_of] on a list whose first match is known. *)
Lemma rank_of_split (p : A -> bool) (l1 l2 : list A) (x : A) (i : Z) :
  Forall (fun y => p y = false) l1 -> p x = true ->
  rank_of p (l1 ++ x :: l2) i = Some (i + Z.of_nat (length l1) + 1).
Proof.
  intros H Hx. revert i. induction H as [| y l1 Hy _ IH]; intros i; simpl.
  - rewrite Hx. f_equal. lia.
  - rewrite Hy, IH. f_equal. lia.
Qed.

Lemma rank_of_none (p : A -> bool) (l : list A) (i : Z) :
  Forall (fun y => p y = false) l -> rank_of p l i = None.
Proof.
  intros H. revert i. induction H as [| y l Hy _ IH]; intros i; simpl; [reflexivity |].
  now rewrite Hy, IH.
Qed.

End StableSort.

(** ** ScoreManager *)

Lemma entry_eqb_eq (a b : ScoreEntry) : entry_eqb a b = true <-> a = b.
Proof.
  destruct a as [s1 p1 d1], b as [s2 p2 d2]. unfold entry_eqb. simpl.
  rewrite !andb_true_iff, Z.eqb_eq, !String.eqb_eq.
  split; [intros [[-> ->] ->] | intros [= -> -> ->]]; auto.
Qed.

Lemma entry_eqb_neq (a b : ScoreEntry) : entry_eqb a b = false <-> a <> b.
Proof. rewrite <- entry_eqb_eq. destruct (entry_eqb a b); split; congruence. Qed.

(** What [add_score] stores and returns, in one expression each. *)
Lemma add_score_unfold (d : string) (sc : Z) (pl now : string)
    (m : gmap string (list ScoreEntry)) :
  let e := mkEntry sc pl now in
  let l' := take 10 (sort_reverse score (default [] (m !! d) ++ [e])) in
  snd (add_score d sc pl now m) !! d = Some l' /\
  (forall d', d' <> d -> snd (add_score d sc pl now m) !! d' = m !! d') /\
  fst (add_score d sc pl now m)
  = default (Z.of_nat (length l')) (rank_of (entry_eqb e) l' 0).
Proof.
  intros e l'. unfold add_score. simpl.
  assert (H : alter (take 10) d
                (alter (sort_reverse score) d
                   (alter (fun l => l ++ [e]) d
                      match m !! d with
                      | Some _ => m
                      | None => <[d:=[]]> m
                      end)) !! d = Some l').
  { rewrite !lookup_alter_eq. unfold l'. destruct (m !! d) eqn:E.
    - rewrite E. reflexivity.
    - rewrite lookup_insert_eq. reflexivity. }
  split; [exact H |]. split.
  - intros d' Hd. rewrite !lookup_alter_ne by congruence.
    destruct (m !! d) eqn:E; [reflexivity |]. now rewrite lookup_insert_ne by congruence.
  - fold e. rewrite H. reflexivity.
Qed.

Lemma sorted_lookup (l : list ScoreEntry) (i j : nat) (a b : ScoreEntry) :
  sorted_desc l -> (i < j)%nat -> l !! i = Some a -> l !! j = Some b -> score b <= score a.
Proof.
  intros H. revert i j. induction H as [| x l Hs IH Hx]; intros i j Hij Ha Hb.
  - discriminate.
  - destruct j as [| j]; [lia |]. simpl in Hb. destruct i as [| i]; simpl in Ha.
    + injection Ha as <-. rewrite Forall_forall in Hx. apply Hx.
      eapply list_elem_of_lookup_2. exact Hb.
    + apply (IH i j); [lia | assumption | assumption].
Qed.

Section Stability.
Context {A : Type}.
Variable key : A -> Z.

Lemma insert_desc_stable (v : Z) (x : A) (l : list A) :
  filter (fun y => key y = v) (insert_desc key x l) = filter (fun y => key y = v) (x :: l).
Proof.
  induction l as [| y l IH]; [reflexivity |]. simpl.
  destruct (Z.ltb_spec (key x) (key y)); [| reflexivity].
  rewrite filter_cons, IH, !filter_cons.
  destruct (decide (key y = v)), (decide (key x = v)); try reflexivity. lia.
Qed.

(** Elements of equal key leave the sort in the order they entered. *)
Lemma sort_reverse_stable (v : Z) (l : list A) :
  filter (fun y => key y = v) (sort_reverse key l) = filter (fun y => key y = v) l.
Proof.
  induction l as [| x l IH]; [reflexivity |].
  unfold sort_reverse in *. simpl. rewrite insert_desc_stable, !filter_cons, IH. reflexivity.
Qed.

End Stability.

(** The same, for a difficulty the table has. *)
Lemma add_score_at (d : string) (sc : Z) (pl now : string)
    (m : gmap string (list ScoreEntry)) (l : list ScoreEntry) :
  m !! d = Some l ->
  let e := mkEntry sc pl now in
  let l' := take 10 (sort_reverse score (l ++ [e])) in
  snd (add_score d sc pl now m) !! d = Some l' /\
  fst (add_score d sc pl now m)
  = default (Z.of_nat (length l')) (rank_of (entry_eqb e) l' 0).
Proof.
  intros Hm e l'. destruct (add_score_unfold d sc pl now m) as [H1 [_ H2]].
  rewrite Hm in H1, H2. simpl in H1, H2. split; assumption.
Qed.

(** One [add_score] of a run, from the list stored so far. *)
Ltac add_one sc L E R L' :=
  match goal with
  | |- context [add_score ?d sc ?pl ?now ?m] =>
      let r := fresh "r" in let m' := fresh "m" in
      destruct (add_score d sc pl now m) as [r m'] eqn:E;
      pose proof (add_score_at d sc pl now m _ L) as [L' R];
      rewrite E in L', R; cbn in L', R;
      unfold entry_eqb in R; cbn in R; rewrite String.eqb_refl in R; cbn in R;
      cbn [fst snd]
  end.

(** Scenario E, whatever the clock reads at each call. *)
Lemma scenario_E_ranks (t1 t2 t3 t4 : string) :
  let '(ranks, t) := add_all [mkCall "EASY" 50 "Player" t1; mkCall "EASY" 30 "Player" t2;
                              mkCall "EASY" 80 "Player" t3; mkCall "EASY" 10 "Player" t4]
                       empty_scores in
  ranks = [1; 2; 1; 4] /\
  (score <$> default [] (t !! "EASY")) = [80; 50; 30; 10].
Proof.
  unfold add_all.
  cbn [fold_left fst snd call_difficulty call_score call_player call_now].
  assert (L0 : empty_scores !! "EASY" = Some []) by (vm_compute; reflexivity).
  add_one 50 L0 E1 R1 L1. add_one 30 L1 E2 R2 L2.
  add_one 80 L2 E3 R3 L3. add_one 10 L3 E4 R4 L4.
  cbn [app]. rewrite L4. subst. split; reflexivity.
Qed.

(** The rank returned is the place of the first element that passes
    the test; without such an element nothing is returned. *)
Lemma rank_of_first {A} (p : A -> bool) (l : list A) (i : Z) :
  match rank_of p l i with
  | Some r => exists (k : nat) (x : A),
                r = i + Z.of_nat k + 1 /\ l !! k = Some x /\ p x = true /\
                forall (j : nat) (y : A), (j < k)%nat -> l !! j = Some y -> p y = false
  | None => Forall (fun y => p y = false) l
  end.
Proof.
  revert i. induction l as [| x l IH]; intros i; simpl; [constructor |].
  destruct (p x) eqn:Hx.
  - exists 0%nat, x. split; [lia |]. split; [reflexivity |]. split; [exact Hx |].
    intros j y Hj. lia.
  - specialize (IH (i + 1)). destruct (rank_of p l (i + 1)) as [r |].
    + destruct IH as (k & x0 & Hr & Hk & Hp & Hbefore). exists (S k), x0.
      split; [lia |]. split; [exact Hk |]. split; [exact Hp |].
      intros [| j] y Hj Hy; simpl in Hy; [congruence |].
      apply (Hbefore j y); [lia | exact Hy].
    + constructor; assumption.
Qed.

(** The value that [add_score] returns for a stored list: the 1-based
    place of the first entry equal to the new one, or the length of the
    list when no entry is equal to it. *)
Lemma rank_default_spec (e : ScoreEntry) (l : list ScoreEntry) :
  let r := default (Z.of_nat (length l)) (rank_of (entry_eqb e) l 0) in
  (e ∈ l ->
     1 <= r <= Z.of_nat (length l) /\ l !! Z.to_nat (r - 1) = Some e /\
     forall j : nat, (j < Z.to_nat (r - 1))%nat -> l !! j <> Some e) /\
  (e ∉ l -> r = Z.of_nat (length l)) /\
  (forall k : nat, l !! k = Some e -> r <= Z.of_nat k + 1).
Proof.
  intros r. unfold r. pose proof (rank_of_first (entry_eqb e) l 0) as H.
  destruct (rank_of (entry_eqb e) l 0) as [r0 |]; simpl.
  - destruct H as (k & x & Hr & Hk & Hp & Hbefore).
    apply entry_eqb_eq in Hp. subst x.
    pose proof (lookup_lt_Some _ _ _ Hk) as Hlt.
    replace (Z.to_nat (r0 - 1)) with k by lia.
    split; [| split].
    + intros _. split; [lia |]. split; [exact Hk |].
      intros j Hj Hje. specialize (Hbefore j e Hj Hje).
      apply entry_eqb_neq in Hbefore. congruence.
    + intros Hnot. exfalso. apply Hnot. eapply list_elem_of_lookup_2. exact Hk.
    + intros k' Hk'. destruct (Nat.lt_ge_cases k' k) as [Hlt' | Hge]; [| lia].
      specialize (Hbefore k' e Hlt' Hk'). apply entry_eqb_neq in Hbefore. congruence.
  - split; [| split].
    + intros Hin. exfalso. rewrite Forall_forall in H. specialize (H e Hin).
      apply entry_eqb_neq in H. congruence.
    + reflexivity.
    + intros k Hk. exfalso. rewrite Forall_forall in H.
      specialize (H e (list_elem_of_lookup_2 _ _ _ Hk)).
      apply entry_eqb_neq in H. congruence.
Qed.

(** ** C4: adding a score *)

(** C4 (amended). [add_score] appends the new entry, sorts the list
    descending by score with stable ties (entries of equal score keep
    their order, the new entry behind them) and keeps the first 10: the
    stored list has at most 10 entries and is sorted descending, other
    difficulties are untouched, and the leaderboard invariant is kept.
    With [above] the stored entries whose score is at least the new
    one: if fewer than 10 are above, the new entry is stored at
    position [|above| + 1]; if 10 or more are above, it is not stored.
    The call returns the 1-based position of the first stored entry
    that equals the new one in score, player and date, or the length of
    the stored list when there is none. So it returns at most
    [|above| + 1] when the new entry is stored, exactly that (the new
    entry's own position) when no entry equal to it was stored before,
    and 10 when the new entry was cut off and none was. Scores 50, 30,
    80, 10 into the empty table give ranks 1, 2, 1, 4 and the stored
    order 80, 50, 30, 10, whatever the clock reads. *)
Theorem add_score_spec (d : string) (sc : Z) (pl now : string)
    (m : gmap string (list ScoreEntry)) :
  let l := default [] (m !! d) in
  let e := mkEntry sc pl now in
  let sorted := sort_reverse score (l ++ [e]) in
  let above := filter (fun y => sc <= score y) (sort_reverse score l) in
  let below := filter (fun y => score y < sc) (sort_reverse score l) in
  let l' := take 10 sorted in
  let r := fst (add_score d sc pl now m) in
  let m' := snd (add_score d sc pl now m) in
  m' !! d = Some l' /\
  (forall d', d' <> d -> m' !! d' = m !! d') /\
  sorted ≡ₚ l ++ [e] /\
  (forall v, filter (fun y => score y = v) sorted = filter (fun y => score y = v) (l ++ [e])) /\
  sorted = above ++ e :: below /\
  (sorted_desc l -> sort_reverse score l = l) /\
  (length l' <= 10)%nat /\ sorted_desc l' /\
  (table_ok m -> table_ok m') /\
  ((length above < 10)%nat ->
     l' !! length above = Some e /\
     1 <= r <= Z.of_nat (length above) + 1 /\
     (Forall (fun y => y <> e) l -> r = Z.of_nat (length above) + 1)) /\
  ((10 <= length above)%nat ->
     l' = take 10 above /\
     (Forall (fun y => y <> e) l -> r = 10 /\ (e ∉ l'))) /\
  (e ∈ l' ->
     1 <= r <= Z.of_nat (length l') /\ l' !! Z.to_nat (r - 1) = Some e /\
     forall j : nat, (j < Z.to_nat (r - 1))%nat -> l' !! j <> Some e) /\
  (e ∉ l' -> r = Z.of_nat (length l')) /\
  (forall t1 t2 t3 t4 : string,
     let '(ranks, t) :=
       add_all [mkCall "EASY" 50 "Player" t1; mkCall "EASY" 30 "Player" t2;
                mkCall "EASY" 80 "Player" t3; mkCall "EASY" 10 "Player" t4]
         empty_scores in
     ranks = [1; 2; 1; 4] /\
     (score <$> default [] (t !! "EASY")) = [80; 50; 30; 10]).
Proof.
  intros l e sorted above below l' r m'.
  destruct (add_score_unfold d sc pl now m) as [Hl [Hother Hr]].
  fold l e in Hl, Hr. fold sorted in Hl, Hr. fold l' in Hl, Hr. fold m' in Hl. fold r in Hr.
  fold m' in Hother.
  destruct (rank_default_spec e l') as (Hin & Hout & Hle).
  cbv zeta in Hin, Hout, Hle. rewrite <- Hr in Hin, Hout, Hle.
  assert (Hsplit : sorted = above ++ e :: below).
  { unfold sorted. rewrite sort_reverse_snoc.
    apply (insert_back_split score e). apply sort_reverse_sorted. }
  assert (Hsorted : sorted_desc l').
  { apply take_sorted. apply sort_reverse_sorted. }
  assert (Hlen : (length l' <= 10)%nat).
  { unfold l'. rewrite length_take. lia. }
  assert (Habove : forall y, y ∈ above -> y ∈ l).
  { intros y Hy. apply list_elem_of_filter in Hy. destruct Hy as [_ Hy].
    now rewrite sort_reverse_perm in Hy. }
  split; [exact Hl |]. split; [exact Hother |].
  split; [apply sort_reverse_perm |].
  split; [intros v; apply sort_reverse_stable |].
  split; [exact Hsplit |].
  split; [apply sort_reverse_id |].
  split; [exact Hlen |]. split; [exact Hsorted |].
  split.
  { intros Hok d0 l0 H0. destruct (decide (d0 = d)) as [-> | Hne].
    - rewrite Hl in H0. injection H0 as <-. split; assumption.
    - rewrite Hother in H0 by assumption. now apply Hok in H0. }
  split.
  { intros Hlt.
    assert (Htake : l' = above ++ e :: take (10 - length above - 1) below).
    { unfold l'. rewrite Hsplit, take_app, take_ge by lia.
      destruct (10 - length above)%nat as [| k] eqn:Ek; [lia |]. simpl.
      replace (k - 0)%nat with k by lia. reflexivity. }
    assert (Hat : l' !! length above = Some e).
    { rewrite Htake. rewrite lookup_app_r by lia.
      replace (length above - length above)%nat with 0%nat by lia. reflexivity. }
    split; [exact Hat |]. split.
    - pose proof (Hle _ Hat). destruct (Hin (list_elem_of_lookup_2 _ _ _ Hat)) as [? _]. lia.
    - intros Hfresh. rewrite Hr, Htake.
      rewrite (rank_of_split (entry_eqb e) above _ e 0).
      + simpl. lia.
      + apply Forall_forall. intros y Hy. apply entry_eqb_neq.
        rewrite Forall_forall in Hfresh. intros ->. now apply (Hfresh _ (Habove _ Hy)).
      + now apply entry_eqb_eq. }
  split.
  { intros Hge.
    assert (Htake : l' = take 10 above).
    { unfold l'. rewrite Hsplit. now apply take_app_le. }
    split; [exact Htake |]. intros Hfresh.
    assert (Hnot : e ∉ l').
    { rewrite Htake. intros Hi. apply elem_of_take in Hi.
      destruct Hi as [i [Hi _]]. apply list_elem_of_lookup_2 in Hi.
      rewrite Forall_forall in Hfresh. now apply (Hfresh _ (Habove _ Hi)). }
    split; [| exact Hnot].
    rewrite (Hout Hnot), Htake, length_take. lia. }
  split; [exact Hin |]. split; [exact Hout |].
  intros t1 t2 t3 t4. apply scenario_E_ranks.
Qed.

(** An entry equal to the new one is already stored: two entries of 70
    points with the same player and date are stored at positions 2 and
    3, and the call returns 2. *)
Lemma add_score_spec_witness :
  let m := <["HARD" := [mkEntry 90 "Player" "2024-01-01 10:00";
                        mkEntry 70 "Player" "2024-01-03 10:00"]]> empty_scores in
  let r := fst (add_score "HARD" 70 "Player" "2024-01-03 10:00" m) in
  let l' := default [] (snd (add_score "HARD" 70 "Player" "2024-01-03 10:00" m) !! "HARD") in
  table_ok (snd (add_score "HARD" 70 "Player" "2024-01-03 10:00" m)) /\
  l' !! 2%nat = Some (mkEntry 70 "Player" "2024-01-03 10:00") /\ r = 2.
Proof.
  intros m r l'.
  pose proof (add_score_spec "HARD" 70 "Player" "2024-01-03 10:00" m)
    as (Hl & _ & _ & _ & _ & _ & _ & _ & Hok & Hrank & _ & Hin & _).
  split; [| split].
  - apply Hok. intros d l Hd. unfold m in Hd.
    destruct (decide (d = "HARD")) as [-> | Hne].
    + rewrite lookup_insert_eq in Hd. injection Hd as <-. split; [simpl; lia |].
      repeat constructor. unfold desc. simpl. lia.
    + rewrite lookup_insert_ne in Hd by congruence. unfold empty_scores in Hd.
      destruct (decide (d = "EASY")) as [-> | H1];
        [rewrite lookup_insert_eq in Hd | rewrite lookup_insert_ne in Hd by congruence].
      { injection Hd as <-. split; [simpl; lia | constructor]. }
      destruct (decide (d = "MEDIUM")) as [-> | H2];
        [rewrite lookup_insert_eq in Hd | rewrite lookup_insert_ne in Hd by congruence].
      { injection Hd as <-. split; [simpl; lia | constructor]. }
      rewrite lookup_insert_ne in Hd by congruence.
      rewrite lookup_empty in Hd. discriminate.
  - destruct Hrank as [Hat _]; [vm_compute; lia |].
    unfold l'. rewrite Hl. exact Hat.
  - destruct Hin as (Hb & Hlk & Hfirst).
    + vm_compute. apply list_elem_of_In. simpl. auto.
    + fold r in Hb, Hlk, Hfirst.
      destruct (Z.eq_dec r 1) as [E1 | N1].
      { rewrite E1 in Hlk. vm_compute in Hlk. discriminate. }
      destruct (Z.eq_dec r 2) as [E2 | N2]; [exact E2 |].
      exfalso. apply (Hfirst 1%nat); [lia | vm_compute; reflexivity].
Defined.

(** Ten stored scores of 100 and a new score of 50: the new entry is cut
    off by the truncation, the call still returns 10, and the entry at
    position 10 of the stored list is an old one. *)
Lemma add_score_rank_of_evicted_entry :
  let old := mkEntry 100 "Player" "2024-01-01 10:00" in
  let m := <["HARD" := replicate 10 old]> empty_scores in
  let e := mkEntry 50 "Player" "2024-01-02 10:00" in
  let r := fst (add_score "HARD" 50 "Player" "2024-01-02 10:00" m) in
  let l' := default [] (snd (add_score "HARD" 50 "Player" "2024-01-02 10:00" m) !! "HARD") in
  r = 10 /\ l' = replicate 10 old /\
  l' !! Z.to_nat (r - 1) = Some old /\
  ~ (l' !! Z.to_nat (r - 1) = Some e) /\
  ~ In e l'.
Proof.
  vm_compute. repeat split; try reflexivity.
  - discriminate.
  - intuition discriminate.
Qed.

(** ** C5: qualifying for the leaderboard *)

Lemma last_lookup_length {A} (l : list A) : last l = l !! (length l - 1)%nat.
Proof.
  rewrite last_lookup. f_equal. lia.
Qed.

Lemma sorted_last_lowest (l : list ScoreEntry) (e y : ScoreEntry) :
  sorted_desc l -> last l = Some e -> y ∈ l -> score e <= score y.
Proof.
  intros Hs He Hy. rewrite last_lookup_length in He.
  apply list_elem_of_lookup_1 in Hy. destruct Hy as [i Hi].
  pose proof (lookup_lt_Some _ _ _ Hi) as Hlt.
  destruct (decide (i = (length l - 1)%nat)) as [-> | Hne].
  - rewrite Hi in He. injection He as ->. lia.
  - apply (sorted_lookup l i (length l - 1) y e Hs); [lia | assumption | assumption].
Qed.

(** C5.  On a table that keeps the leaderboard invariant (every list
    sorted descending, at most 10 entries), [is_high_score] is true if
    and only if the list of the difficulty has fewer than 10 entries or
    the score is strictly greater than the 10th stored score, which is
    the lowest one.  So with 10 entries whose minimum is [lo] the answer
    is [lo < sc]: a score equal to the minimum does not qualify, one
    above it does (minimum 100: 100 no, 101 yes). *)
Theorem is_high_score_spec (d : string) (sc : Z) (m : gmap string (list ScoreEntry)) :
  table_ok m ->
  let l := default [] (m !! d) in
  (is_high_score d sc m = true <->
     (length l < 10)%nat \/
     exists e, l !! 9%nat = Some e /\ (forall y, y ∈ l -> score e <= score y) /\ score e < sc) /\
  (length l = 10%nat ->
     forall lo, (exists e, e ∈ l /\ score e = lo) -> (forall y, y ∈ l -> lo <= score y) ->
     is_high_score d sc m = (lo <? sc)).
Proof.
  intros Hok l.
  assert (Hl : (length l <= 10)%nat /\ sorted_desc l).
  { unfold l. destruct (m !! d) as [l0 |] eqn:E; simpl.
    - exact (Hok d l0 E).
    - split; [lia | constructor]. }
  destruct Hl as [Hlen Hs].
  unfold is_high_score. fold l. split.
  - split.
    + intros H. apply orb_true_iff in H. destruct H as [H | H].
      * left. apply Nat.ltb_lt in H. exact H.
      * destruct (decide (length l < 10)%nat) as [Hlt | Hge]; [left; exact Hlt | right].
        destruct (last l) as [e |] eqn:El; [| discriminate].
        exists e. split; [| split].
        -- rewrite last_lookup_length in El. replace 9%nat with (length l - 1)%nat by lia. exact El.
        -- intros y Hy. exact (sorted_last_lowest l e y Hs El Hy).
        -- apply Z.gtb_lt in H. lia.
    + intros [Hlt | [e [He [_ Hsc]]]]; apply orb_true_iff.
      * left. apply Nat.ltb_lt. exact Hlt.
      * right. pose proof (lookup_lt_Some _ _ _ He) as Hlt.
        rewrite last_lookup_length. replace (length l - 1)%nat with 9%nat by lia.
        rewrite He. apply Z.gtb_lt. lia.
  - intros H10 lo [e0 [He0 Hlo]] Hmin.
    replace (length l <? 10)%nat with false by (symmetry; apply Nat.ltb_ge; lia). simpl.
    destruct (last l) as [e |] eqn:El.
    + assert (H1 : score e <= lo) by (rewrite <- Hlo; exact (sorted_last_lowest l e e0 Hs El He0)).
      assert (H2 : lo <= score e).
      { apply Hmin. rewrite last_lookup_length in El. eapply list_elem_of_lookup_2. exact El. }
      replace (score e) with lo by lia.
      rewrite Z.gtb_ltb. reflexivity.
    + rewrite last_None in El. rewrite El in H10. discriminate.
Qed.

Lemma is_high_score_spec_witness :
  let m := <["HARD" := [mkEntry 900 "Player" "2024-01-01 10:00";
                        mkEntry 800 "Player" "2024-01-01 10:05";
                        mkEntry 700 "Player" "2024-01-01 10:10";
                        mkEntry 600 "Player" "2024-01-01 10:15";
                        mkEntry 500 "Player" "2024-01-01 10:20";
                        mkEntry 400 "Player" "2024-01-01 10:25";
                        mkEntry 300 "Player" "2024-01-01 10:30";
                        mkEntry 200 "Player" "2024-01-01 10:35";
                        mkEntry 100 "Player" "2024-01-01 10:40";
                        mkEntry 100 "Player" "2024-01-01 10:45"]]>
             (∅ : gmap string (list ScoreEntry)) in
  table_ok m /\
  is_high_score "HARD" 100 m = false /\ is_high_score "HARD" 101 m = true.
Proof.
  intros m.
  assert (Hok : table_ok m).
  { intros d l Hd. unfold m in Hd.
    destruct (decide (d = "HARD")) as [-> | Hne].
    - rewrite lookup_insert_eq in Hd. injection Hd as <-. split; [simpl; lia |].
      repeat constructor; unfold desc; simpl; lia.
    - rewrite lookup_insert_ne in Hd by congruence. rewrite lookup_empty in Hd. discriminate. }
  assert (Hmin : forall sc, is_high_score "HARD" sc m = (100 <? sc)).
  { intros sc. apply (is_high_score_spec "HARD" sc m Hok).
    - reflexivity.
    - exists (mkEntry 100 "Player" "2024-01-01 10:40"). split; [| reflexivity].
      unfold m. rewrite lookup_insert_eq. simpl. repeat constructor.
    - unfold m. rewrite lookup_insert_eq. simpl. intros y Hy.
      repeat (apply elem_of_cons in Hy; destruct Hy as [-> | Hy]; [simpl; lia |]).
      inversion Hy. }
  split; [exact Hok |]. split; rewrite Hmin; reflexivity.
Defined.

(** * Further properties of the code *)

(** ** The body fits the grid *)

Lemma grid_cells_complete (c : Cell) : in_grid c = true -> c ∈ grid_cells.
Proof.
  intros H. apply in_grid_bounds in H. destruct c as [x y]. simpl in H.
  unfold grid_cells. apply list_elem_of_bind. exists x. split.
  - apply list_elem_of_bind. exists y. split; [apply list_elem_of_singleton; reflexivity |].
    apply elem_of_seqZ. lia.
  - apply elem_of_seqZ. lia.
Qed.

Lemma grid_cells_length :
  Z.of_nat (length grid_cells) = GameConfig.GRID_WIDTH * GameConfig.GRID_HEIGHT.
Proof. vm_compute. reflexivity. Qed.

(** A body of distinct grid cells has at most one segment per cell. *)
Lemma body_length_bound (s : Snake) :
  body_ok s ->
  Z.of_nat (length (positions s)) <= GameConfig.GRID_WIDTH * GameConfig.GRID_HEIGHT.
Proof.
  intros [Hnd Hin]. rewrite <- grid_cells_length. apply inj_le.
  apply submseteq_length. apply NoDup_submseteq; [exact Hnd |].
  intros c Hc. apply grid_cells_complete. rewrite Forall_forall in Hin. now apply Hin.
Qed.

(** ** The snake between two steps *)

Lemma NoDup_removelast {A} (l : list A) : NoDup l -> NoDup (removelast l).
Proof.
  intros H. destruct (decide (l = [])) as [-> | Hne]; [exact H |].
  destruct (exists_last Hne) as [l' [a ->]]. rewrite removelast_last.
  apply NoDup_app in H. tauto.
Qed.

Lemma Forall_removelast {A} (P : A -> Prop) (l : list A) :
  Forall P l -> Forall P (removelast l).
Proof.
  intros H. apply Forall_forall. intros x Hx. rewrite Forall_forall in H.
  apply H. apply list_elem_of_In. apply In_removelast. now apply list_elem_of_In.
Qed.

Lemma length_removelast_push {A} (x : A) (l : list A) :
  length (removelast (x :: l)) = length l.
Proof.
  revert x. induction l as [| y l IH]; intros x; [reflexivity |].
  change (removelast (x :: y :: l)) with (x :: removelast (y :: l)).
  cbn [length]. now rewrite IH.
Qed.

Lemma unit_direction_dec (d : Z * Z) :
  unit_direction d ->
  (fst d = 1 \/ fst d = -1 \/ fst d = 0) /\ Z.abs (fst d) + Z.abs (snd d) = 1.
Proof. intros [-> | [-> | [-> | ->]]]; simpl; lia. Qed.

(** The step of a well-formed snake: it does not raise, the new body is
    the new head in front of the old body (less its tail unless growth
    was pending), and the result is well formed with its counters in
    range. *)
Lemma move_snake_ok (s : Snake) :
  snake_ok s ->
  exists s' h,
    move s = Some s' /\ new_head s = Some h /\
    positions s' = h :: (if grow_pending s then positions s else removelast (positions s)) /\
    direction s' = direction s /\ grow_pending s' = false /\
    snake_ok s' /\
    Forall (fun a => 0 <= a < 60) (segment_animations s') /\
    0 <= head_glow_intensity s' < 60 /\ 0 <= body_pulse_offset s' < 120.
Proof.
  intros [Hne [Hlen Hdir]]. unfold move, new_head.
  destruct (positions s) as [| [hx hy] rest] eqn:E; [congruence |].
  exists (mkSnake
            (if grow_pending s then (hx + fst (direction s), hy + snd (direction s)) :: (hx, hy) :: rest
             else removelast ((hx + fst (direction s), hy + snd (direction s)) :: (hx, hy) :: rest))
            (direction s) false
            (map (fun a => (a + 1) mod 60)
               (if grow_pending s then segment_animations s ++ [0] else segment_animations s))
            ((head_glow_intensity s + 1) mod 60) ((body_pulse_offset s + 1) mod 120)),
         (hx + fst (direction s), hy + snd (direction s)).
  destruct (grow_pending s) eqn:G;
    repeat split;
    cbn [positions direction grow_pending segment_animations head_glow_intensity
         body_pulse_offset];
    try reflexivity; try (apply Z.mod_pos_bound; lia); try assumption.
  - discriminate.
  - rewrite length_map, length_app, Hlen. simpl. lia.
  - apply Forall_forall. intros a Ha. apply list_elem_of_In, in_map_iff in Ha.
    destruct Ha as [b [<- _]]. apply Z.mod_pos_bound. lia.
  - destruct rest; discriminate.
  - rewrite length_map, Hlen, length_removelast_push. reflexivity.
  - apply Forall_forall. intros a Ha. apply list_elem_of_In, in_map_iff in Ha.
    destruct Ha as [b [<- _]]. apply Z.mod_pos_bound. lia.
Qed.

(** A step that does not collide leaves a body of distinct grid cells. *)
Lemma step_body_ok (s s' : Snake) :
  snake_ok s -> body_ok s -> move s = Some s' -> check_collision s' = Some false ->
  body_ok s'.
Proof.
  intros Hs [Hnd Hin] Hm Hc.
  destruct (move_snake_ok s Hs) as [s1 [h [Hm1 [_ [Hp _]]]]].
  rewrite Hm in Hm1. injection Hm1 as <-.
  rewrite (check_collision_cons s' h _ Hp) in Hc. injection Hc as Hc.
  apply orb_false_iff in Hc. destruct Hc as [Hg Hn].
  apply negb_false_iff in Hg. apply cell_in_not_In in Hn.
  unfold body_ok. rewrite Hp. split.
  - apply NoDup_cons. split.
    + intros Hx. apply Hn. now apply list_elem_of_In.
    + destruct (grow_pending s); [exact Hnd | now apply NoDup_removelast].
  - constructor; [exact Hg |].
    destruct (grow_pending s); [exact Hin | now apply Forall_removelast].
Qed.

(** ** The invariant of the controller *)

Lemma game_ok_ext (g g' : SnakeGame) :
  state g' = state g -> snake g' = snake g -> food g' = food g ->
  game_score g' = game_score g -> game_ok g -> game_ok g'.
Proof.
  intros H1 H2 H3 H4 H. unfold game_ok. rewrite H1, H2, H3, H4. exact H.
Qed.

Lemma game_ok_leave (g g' : SnakeGame) :
  state g' <> PLAYING -> snake g' = snake g -> game_score g' = game_score g ->
  game_ok g -> game_ok g'.
Proof.
  intros H1 H2 H3 [Hs [Hk _]]. unfold game_ok. rewrite H2, H3.
  split; [exact Hs |]. split; [exact Hk |]. intros H. contradiction.
Qed.

Lemma MAX_RAW_SCORE_value : MAX_RAW_SCORE = 9450.
Proof. reflexivity. Qed.

Lemma Snake_init_ok : snake_ok Snake_init /\ body_ok Snake_init.
Proof.
  split; [split; [discriminate | split; [reflexivity | left; reflexivity]] |].
  split.
  - apply NoDup_singleton.
  - repeat constructor.
Qed.

(** A new session satisfies the invariant, whatever came before. *)
Lemma start_new_game_ok (g : SnakeGame) : game_ok (start_new_game g).
Proof.
  unfold start_new_game.
  pose proof (generate_position_in_grid (rng g)) as Hf.
  unfold Food_init. destruct (generate_position (rng g)) as [p r'] eqn:E. simpl in Hf.
  destruct Snake_init_ok as [H1 H2].
  split; [simpl; rewrite MAX_RAW_SCORE_value; lia |]. split.
  - simpl. intros s [= <-]. exact H1.
  - intros _. exists Snake_init, (mkFood p 0). simpl. repeat split; try assumption.
    apply H2. apply H2.
Qed.

Lemma key_direction_unit (key : Key) (d : Z * Z) :
  key_direction key = Some d -> unit_direction d.
Proof.
  unfold unit_direction. destruct key; simpl; intros [= <-]; auto.
Qed.

(** A direction request while playing: no exception, the invariant is
    kept and nothing but the direction and the sound log can change. *)
Lemma game_change_direction_ok (d : Z * Z) (g : SnakeGame) :
  game_ok g -> state g = PLAYING -> unit_direction d ->
  exists g', game_change_direction d g = Some g' /\ game_ok g' /\
    state g' = PLAYING /\ score_manager g' = score_manager g /\
    game_score g' = game_score g /\ food g' = food g /\ rng g' = rng g /\
    current_difficulty g' = current_difficulty g.
Proof.
  intros [Hsc [Hsn Hpl]] Hst Hd.
  destruct (Hpl Hst) as [s [f [Hs [Hf [Hb [Hfg Hrel]]]]]].
  unfold game_change_direction. rewrite Hs. simpl.
  destruct (change_direction_turn d s (audio_manager g)) as [H1 [H2 H3]].
  assert (H4 : segment_animations (fst (change_direction d s (audio_manager g)))
               = segment_animations s).
  { unfold change_direction. destruct (negb _); reflexivity. }
  destruct (change_direction d s (audio_manager g)) as [s' a'] eqn:E. simpl in *.
  eexists. split; [reflexivity |].
  destruct (Hsn s Hs) as [Hne [Hlen Hu]].
  assert (Hs' : snake_ok s').
  { split; [now rewrite H2 |]. split; [now rewrite H4, H2 |].
    rewrite H1. unfold turn. destruct (dir_eqb _ _); assumption. }
  split; [| simpl; repeat split; assumption].
  split; [exact Hsc |]. split.
  - simpl. intros s0 [= <-]. exact Hs'.
  - intros _. exists s', f. simpl. repeat split; try assumption.
    + unfold body_ok. rewrite H2. apply Hb.
    + unfold body_ok. rewrite H2. apply Hb.
    + rewrite H2, H3. exact Hrel.
Qed.

(** The invariant after a handler that starts a session, leaves play or
    changes neither state, snake, food nor score. *)
Ltac keeps_game_ok g H :=
  first
    [ exact H
    | apply start_new_game_ok
    | apply (game_ok_leave g); [simpl; congruence | reflexivity | reflexivity | exact H]
    | apply (game_ok_ext g); [reflexivity | reflexivity | reflexivity | reflexivity | exact H] ].

Lemma start_new_game_scores (g : SnakeGame) :
  score_manager (start_new_game g) = score_manager g.
Proof. unfold start_new_game. destruct (Food_init (rng g)). reflexivity. Qed.

(** The keyboard handler never raises on a state that satisfies the
    invariant, keeps the invariant and never touches the score table. *)
Lemma handle_keyboard_input_ok (key : Key) (g : SnakeGame) :
  game_ok g ->
  exists b g', handle_keyboard_input key g = Some (b, g') /\ game_ok g' /\
    score_manager g' = score_manager g.
Proof.
  intros H. unfold handle_keyboard_input.
  destruct (state g) eqn:Hst.
  3: destruct (key_direction key) as [d |] eqn:Hk.
  3: { destruct (game_change_direction_ok d g H Hst (key_direction_unit key d Hk))
         as [g' [Hg [Hok [_ [Hsm _]]]]].
       exists true, g'. split; [| split; assumption].
       destruct key; simpl in Hk; try discriminate; injection Hk as <-;
         rewrite Hg; reflexivity. }
  all: destruct key; try discriminate; eexists _, _; (split; [reflexivity |]);
    (split; [keeps_game_ok g H | try reflexivity; apply start_new_game_scores]).
Qed.

(** ** Respawn in general *)

(** The loop stops at the first free sample. *)
Lemma respawn_loop_first_free (n k : nat) (ps : list Cell) (f : Food) (r : Rng) :
  (k < n)%nat -> cell_in (sample r k) ps = false ->
  (forall j, (j < k)%nat -> cell_in (sample r j) ps = true) ->
  respawn_loop n ps f r = (mkFood (sample r k) (animation_frame f), skip (2 * (k + 1)) r).
Proof.
  revert k r. induction n as [| n IH]; intros k r Hk Hfree Hocc; [lia |].
  rewrite respawn_loop_S. destruct k as [| k].
  - rewrite Hfree. reflexivity.
  - rewrite (Hocc 0%nat) by lia. simpl negb. cbv iota.
    rewrite (IH k (skip 2 r)).
    + rewrite sample_skip, skip_skip. do 2 f_equal. lia.
    + lia.
    + now rewrite sample_skip.
    + intros j Hj. rewrite sample_skip. apply Hocc. lia.
Qed.

(** Whatever the draws, the loop leaves the food where it was or puts
    it on a free cell of the grid; the frame counter is not touched. *)
Lemma respawn_loop_cases (n : nat) (ps : list Cell) (f : Food) (r : Rng) :
  let f' := fst (respawn_loop n ps f r) in
  animation_frame f' = animation_frame f /\
  (position f' = position f \/
   (cell_in (position f') ps = false /\ in_grid (position f') = true)).
Proof.
  revert r. induction n as [| n IH]; intros r; [simpl; auto |].
  rewrite respawn_loop_S. destruct (cell_in (sample r 0) ps) eqn:E; simpl negb; cbv iota.
  - apply IH.
  - simpl. split; [reflexivity |]. right. split; [exact E | apply sample_in_grid].
Qed.

(** ** One tick *)

Lemma final_score_some (d : string) (raw : Z) :
  0 <= raw <= MAX_RAW_SCORE -> exists fs, final_score d raw = Some fs.
Proof. intros H. rewrite (final_score_floor d raw H). eauto. Qed.

(** Game over on a state in range: no exception; state, snake, food and
    raw score as described, the table as [add_score] leaves it when the
    final score qualifies. *)
Lemma handle_game_over_ok (now : string) (g : SnakeGame) :
  0 <= game_score g <= MAX_RAW_SCORE ->
  exists g' fs,
    handle_game_over now g = Some g' /\
    final_score (current_difficulty g) (game_score g) = Some fs /\
    state g' = GAME_OVER /\ snake g' = snake g /\ food g' = food g /\
    game_score g' = game_score g /\ current_difficulty g' = current_difficulty g /\
    rng g' = rng g /\ leaderboard_difficulty g' = leaderboard_difficulty g /\
    score_manager g'
    = (if is_high_score (current_difficulty g) fs (score_manager g)
       then snd (add_score (current_difficulty g) fs "Player" now (score_manager g))
       else score_manager g) /\
    audio_manager g'
    = play_sound (if is_high_score (current_difficulty g) fs (score_manager g)
                  then "high_score" else "game_over") (audio_manager g).
Proof.
  intros Hr. destruct (final_score_some (current_difficulty g) _ Hr) as [fs Hfs].
  unfold handle_game_over. rewrite Hfs. cbn [mbind option_bind].
  destruct (is_high_score (current_difficulty g) fs (score_manager g)) eqn:Hq.
  - destruct (add_score (current_difficulty g) fs "Player" now (score_manager g))
      as [rk sm'] eqn:E.
    eexists _, fs. split; [reflexivity |]. rewrite Hq, E. simpl. repeat split; reflexivity.
  - eexists _, fs. split; [reflexivity |]. rewrite Hq. simpl. repeat split; reflexivity.
Qed.

Lemma respawn_cases (ps : list Cell) (f : Food) (r : Rng) :
  let f' := fst (respawn ps f r) in
  animation_frame f' = animation_frame f /\
  (position f' = position f \/
   (cell_in (position f') ps = false /\ in_grid (position f') = true)).
Proof. exact (respawn_loop_cases 100 ps f r). Qed.

(** Eating: growth is pending, ten points are added, the food is
    respawned against the body as it is. *)
Lemma handle_food_eaten_eq (g : SnakeGame) (s : Snake) (f : Food) :
  snake g = Some s -> food g = Some f ->
  handle_food_eaten g
  = Some (mkGame (state g) (current_difficulty g)
            (Some (mkSnake (positions s) (direction s) true (segment_animations s)
                     (head_glow_intensity s) (body_pulse_offset s)))
            (Some (fst (respawn (positions s) f (rng g))))
            (game_score g + 10) (score_manager g)
            (play_sound "eat" (audio_manager g)) (leaderboard_difficulty g)
            (snd (respawn (positions s) f (rng g)))).
Proof.
  intros Hs Hf. unfold handle_food_eaten. rewrite Hs, Hf.
  cbn [mbind option_bind]. unfold eat_food. cbn [positions].
  destruct (respawn (positions s) f (rng g)). reflexivity.
Qed.

(** The tick while playing, by cases on the moved snake. *)
Lemma update_game_logic_eq (now : string) (g : SnakeGame) (s s' : Snake) (f : Food)
    (h : Cell) (rest : list Cell) :
  state g = PLAYING -> snake g = Some s -> food g = Some f ->
  move s = Some s' -> positions s' = h :: rest ->
  let g1 := set_food (Food_update f) (set_snake s' g) in
  update_game_logic now g
  = if negb (in_grid h) || cell_in h rest then handle_game_over now g1
    else if cell_eqb h (position f) then handle_food_eaten g1 else Some g1.
Proof.
  intros Hst Hs Hf Hm Hp g1. unfold update_game_logic.
  rewrite Hst, Hs. cbn [mbind option_bind]. rewrite Hm. cbn [mbind option_bind].
  rewrite Hf. cbn [mbind option_bind]. rewrite (check_collision_cons s' h rest Hp).
  cbn [mbind option_bind]. fold g1.
  destruct (negb (in_grid h) || cell_in h rest); [reflexivity |].
  rewrite Hp. reflexivity.
Qed.

(** One tick on a state that satisfies the invariant: no exception, and
    the invariant holds again. Outside play nothing changes; in play the
    state stays PLAYING or becomes GAME_OVER. *)
Lemma update_game_logic_ok (now : string) (g : SnakeGame) :
  game_ok g ->
  exists g', update_game_logic now g = Some g' /\ game_ok g' /\
    (state g <> PLAYING -> g' = g) /\
    (state g = PLAYING -> state g' = PLAYING \/ state g' = GAME_OVER).
Proof.
  intros H. pose proof H as [Hsc [Hsn Hpl]].
  assert (Hdec : state g = PLAYING \/ state g <> PLAYING)
    by (destruct (state g); auto; right; discriminate).
  destruct Hdec as [Hst | Hst].
  2: { exists g. split; [| split; [exact H | split; [reflexivity | contradiction]]].
       unfold update_game_logic. destruct (state g); congruence. }
  destruct (Hpl Hst) as [s [f [Hs [Hf [Hb [Hfg Hrel]]]]]].
  destruct (move_snake_ok s (Hsn s Hs))
    as [s' [h [Hm [Hh [Hp [Hd [Hgp [Hs' _]]]]]]]].
  rewrite (update_game_logic_eq now g s s' f h _ Hst Hs Hf Hm Hp).
  set (g1 := set_food (Food_update f) (set_snake s' g)).
  assert (Hlen : Z.of_nat (length (positions s'))
                 = Z.of_nat (length (positions s)) + (if grow_pending s then 1 else 0)).
  { rewrite Hp. destruct (grow_pending s); cbn [length].
    - lia.
    - rewrite <- (length_removelast_cons (positions s)) by apply (Hsn s Hs). lia. }
  destruct (negb (in_grid h) || cell_in h _) eqn:Hcol.
  - (* collision *)
    destruct (handle_game_over_ok now g1 Hsc)
      as [g' [fs [Hgo [_ [Hst' [Hsn' [_ [Hsc' _]]]]]]]].
    exists g'. split; [exact Hgo |]. split; [| split; [congruence | auto]].
    split; [rewrite Hsc'; exact Hsc |]. split.
    + rewrite Hsn'. intros s0 [= <-]. exact Hs'.
    + rewrite Hst'. discriminate.
  - (* the step completes *)
    assert (Hb' : body_ok s').
    { apply (step_body_ok s s' (Hsn s Hs) Hb Hm).
      rewrite (check_collision_cons s' h _ Hp). now rewrite Hcol. }
    destruct (cell_eqb h (position f)) eqn:Heat.
    + (* eats *)
      rewrite (handle_food_eaten_eq g1 s' (Food_update f) eq_refl eq_refl).
      pose proof (respawn_cases (positions s') (Food_update f) (rng g1)) as [_ Hcase].
      cbv zeta in Hcase.
      eexists. split; [reflexivity |].
      split; [| split; [congruence | intros _; left; exact Hst]].
      pose proof (body_length_bound s' Hb') as Hbound.
      change (GameConfig.GRID_WIDTH * GameConfig.GRID_HEIGHT) with 945 in Hbound.
      assert (Hpos : 1 <= Z.of_nat (length (positions s'))).
      { rewrite Hp. cbn [length]. lia. }
      assert (Hnew : game_score g + 10
                     = 10 * (Z.of_nat (length (positions s')) - 1) + 10).
      { rewrite Hrel, Hlen. destruct (grow_pending s); lia. }
      split; [cbn [game_score]; change (game_score g1) with (game_score g);
              rewrite Hnew, MAX_RAW_SCORE_value; lia |].
      split.
      * cbn [snake]. intros s0 [= <-]. exact Hs'.
      * intros _. eexists _, _. cbn [snake food game_score positions grow_pending].
        split; [reflexivity |]. split; [reflexivity |].
        split; [exact Hb' |]. split; [| exact Hnew].
        destruct Hcase as [-> | [_ Hg]]; [exact Hfg | exact Hg].
    + (* moves on *)
      exists g1. split; [reflexivity |].
      split; [| split; [congruence | intros _; left; exact Hst]].
      split; [exact Hsc |]. split.
      * intros s0 [= <-]. exact Hs'.
      * intros _. exists s', (Food_update f).
        split; [reflexivity |]. split; [reflexivity |]. split; [exact Hb' |].
        split; [exact Hfg |].
        change (game_score g1) with (game_score g).
        rewrite Hrel, Hlen, Hgp. destruct (grow_pending s); lia.
Qed.

(** ** Buttons *)

Lemma set_audio_same (g : SnakeGame) : set_audio (audio_manager g) g = g.
Proof. destruct g; reflexivity. Qed.

Lemma press_eq (b : ButtonId) (event : PygameEvent) (g : SnakeGame) :
  press b event g = (button_hit b event, if button_hit b event then click g else g).
Proof.
  unfold press, Button_handle_event, button_hit, click.
  destruct event; try (now rewrite set_audio_same).
  destruct ((button =? 1) && collidepoint (button_rect b) pos);
    [reflexivity | now rewrite set_audio_same].
Qed.

Lemma collidepoint_bounds (r : Rect) (p : Z * Z) :
  collidepoint r p = true <->
  let '(x, y, w, h) := r in x <= fst p < x + w /\ y <= snd p < y + h.
Proof.
  destruct r as [[[x y] w] h]. unfold collidepoint.
  rewrite !andb_true_iff, !Z.leb_le, !Z.ltb_lt. tauto.
Qed.

(** The buttons of one screen do not overlap. *)
Lemma buttons_disjoint (st : GameState) (b1 b2 : ButtonId) (p : Z * Z) :
  b1 ∈ buttons_by_state st -> b2 ∈ buttons_by_state st ->
  collidepoint (button_rect b1) p = true -> collidepoint (button_rect b2) p = true ->
  b1 = b2.
Proof.
  intros H1 H2 C1 C2.
  apply collidepoint_bounds in C1. apply collidepoint_bounds in C2.
  destruct st; simpl in H1, H2;
    repeat (apply elem_of_cons in H1; destruct H1 as [-> | H1]);
    try (now apply elem_of_nil in H1);
    repeat (apply elem_of_cons in H2; destruct H2 as [-> | H2]);
    try (now apply elem_of_nil in H2);
    try reflexivity;
    exfalso; cbn in C1, C2;
    change GameConfig.WINDOW_WIDTH with 1000 in *;
    change GameConfig.WINDOW_HEIGHT with 700 in *;
    change (1000 `div` 2) with 500 in *; lia.
Qed.

Lemma button_hit_disjoint (st : GameState) (b1 b2 : ButtonId) (event : PygameEvent) :
  b1 ∈ buttons_by_state st -> b2 ∈ buttons_by_state st ->
  button_hit b1 event = true -> button_hit b2 event = true -> b1 = b2.
Proof.
  intros H1 H2 C1 C2. destruct event; try discriminate. simpl in C1, C2.
  apply andb_true_iff in C1. apply andb_true_iff in C2.
  apply (buttons_disjoint st b1 b2 pos); tauto.
Qed.

(** On a screen, a click that hits a button acts as that button and a
    click that hits none does nothing. *)
Lemma handle_button_clicks_cases (event : PygameEvent) (g : SnakeGame) :
  ((forall b, b ∈ buttons_by_state (state g) -> button_hit b event = false) ->
   handle_button_clicks event g = (true, g)) /\
  (forall b, b ∈ buttons_by_state (state g) -> button_hit b event = true ->
   handle_button_clicks event g = button_action (state g) b (click g)).
Proof.
  split.
  - intros Hno. unfold handle_button_clicks.
    destruct (state g); simpl in Hno;
      repeat (rewrite press_eq; rewrite Hno by (repeat constructor); cbv beta iota);
      reflexivity.
  - intros b Hb Hhit.
    assert (Hoth : forall b', b' ∈ buttons_by_state (state g) -> b' <> b ->
                              button_hit b' event = false).
    { intros b' Hb' Hne. destruct (button_hit b' event) eqn:E; [| reflexivity].
      exfalso. apply Hne. exact (button_hit_disjoint (state g) b' b event Hb' Hb E Hhit). }
    unfold handle_button_clicks.
    destruct (state g); simpl in Hb;
      repeat (apply elem_of_cons in Hb; destruct Hb as [-> | Hb]);
      try (now apply elem_of_nil in Hb);
      repeat (rewrite press_eq;
              first [ rewrite Hhit
                    | rewrite Hoth by (first [discriminate | repeat constructor]) ];
              cbv beta iota);
      reflexivity.
Qed.

(** A click keeps the invariant and the score table. *)
Lemma handle_button_clicks_ok (event : PygameEvent) (g : SnakeGame) :
  game_ok g ->
  game_ok (snd (handle_button_clicks event g)) /\
  score_manager (snd (handle_button_clicks event g)) = score_manager g.
Proof.
  intros H. unfold handle_button_clicks.
  destruct (state g) eqn:Hst;
    repeat (rewrite press_eq; destruct (button_hit _ event); cbv beta iota);
    cbn [snd]; (split; [keeps_game_ok g H | try reflexivity; apply start_new_game_scores]).
Qed.

(** The event loop never raises on a state that satisfies the
    invariant, keeps the invariant and never touches the score table. *)
Lemma handle_event_loop_ok (events : list PygameEvent) (g : SnakeGame) :
  game_ok g ->
  exists b g', handle_event_loop events g = Some (b, g') /\ game_ok g' /\
    score_manager g' = score_manager g.
Proof.
  revert g. induction events as [| event rest IH]; intros g H.
  - exists true, g. auto.
  - assert (Hkey : exists b g1,
              match event with
              | EV_KEYDOWN key => handle_keyboard_input key g
              | _ => Some (true, g)
              end = Some (b, g1) /\ game_ok g1 /\ score_manager g1 = score_manager g).
    { destruct event as [| key | button pos |];
        [exists true, g; auto | apply handle_keyboard_input_ok, H
        | exists true, g; auto | exists true, g; auto]. }
    destruct Hkey as [b [g1 [Hk [H1 Hs1]]]].
    destruct (handle_button_clicks_ok event g1 H1) as [H2 Hs2].
    destruct (handle_button_clicks event g1) as [c g2] eqn:Hc. simpl in H2, Hs2.
    destruct event.
    + exists false, g. auto.
    + cbn [handle_event_loop]. rewrite Hk. destruct b.
      * rewrite Hc. destruct c.
        -- destruct (IH g2 H2) as [b' [g' [He [H' Hs']]]].
           exists b', g'. split; [exact He |]. split; [exact H' | congruence].
        -- exists false, g2. split; [reflexivity |]. split; [exact H2 | congruence].
      * exists false, g1. auto.
    + cbn [handle_event_loop]. injection Hk as <- <-. rewrite Hc. destruct c.
      * destruct (IH g2 H2) as [b' [g' [He [H' Hs']]]].
        exists b', g'. split; [exact He |]. split; [exact H' | congruence].
      * exists false, g2. split; [reflexivity |]. split; [exact H2 | congruence].
    + cbn [handle_event_loop]. injection Hk as <- <-. rewrite Hc. destruct c.
      * destruct (IH g2 H2) as [b' [g' [He [H' Hs']]]].
        exists b', g'. split; [exact He |]. split; [exact H' | congruence].
      * exists false, g2. split; [reflexivity |]. split; [exact H2 | congruence].
Qed.

(** ** Hover *)

Lemma same_but_audio_refl (g : SnakeGame) : same_but_audio g g.
Proof. repeat split. Qed.

Lemma same_but_audio_trans (g1 g2 g3 : SnakeGame) :
  same_but_audio g1 g2 -> same_but_audio g2 g3 -> same_but_audio g1 g3.
Proof. unfold same_but_audio. intuition congruence. Qed.

Lemma game_ok_same_but_audio (g g' : SnakeGame) :
  same_but_audio g g' -> game_ok g -> game_ok g'.
Proof.
  intros (H1 & _ & H2 & H3 & H4 & _). now apply game_ok_ext.
Qed.

Lemma Button_update_game (b : ButtonId) (p : Z * Z) (ui : UI) :
  same_but_audio (game ui) (game (Button_update b p ui)).
Proof. repeat split. Qed.

Lemma update_buttons_game (bs : list ButtonId) (p : Z * Z) (ui : UI) :
  same_but_audio (game ui) (game (fold_left (fun u b => Button_update b p u) bs ui)).
Proof.
  revert ui. induction bs as [| b bs IH]; intros ui; [apply same_but_audio_refl |].
  simpl. eapply same_but_audio_trans; [apply (Button_update_game b p ui) | apply IH].
Qed.

(** Updating the hover states changes nothing but the sound log. *)
Lemma update_button_hovers_game (p : Z * Z) (ui : UI) :
  same_but_audio (game ui) (game (update_button_hovers p ui)).
Proof. apply update_buttons_game. Qed.

(** [_handle_events] in full: no exception, the invariant and the score
    table are kept. *)
Lemma handle_events_ui_ok (events : list PygameEvent) (p : Z * Z) (ui : UI) :
  game_ok (game ui) ->
  exists b ui', handle_events_ui events p ui = Some (b, ui') /\ game_ok (game ui') /\
    score_manager (game ui') = score_manager (game ui).
Proof.
  intros H. destruct (handle_event_loop_ok events (game ui) H) as [b [g' [He [H' Hs']]]].
  unfold handle_events_ui. rewrite He. destruct b.
  - eexists _, _. split; [reflexivity |].
    pose proof (update_button_hovers_game p (mkUI g' (is_hovered ui))) as Hsame.
    split; [exact (game_ok_same_but_audio _ _ Hsame H') |].
    destruct Hsame as (_ & _ & _ & _ & _ & Hsm & _). simpl in Hsm. congruence.
  - eexists _, _. split; [reflexivity |]. auto.
Qed.

(** ** Drawing *)

Lemma Snake_draw_from_some (s : Snake) (cells : list Cell) (i : nat) :
  (i + length cells <= length (segment_animations s))%nat ->
  exists drawn, Snake_draw_from i cells s = Some drawn /\ length drawn = length cells.
Proof.
  revert i. induction cells as [| c rest IH]; intros i Hi.
  - exists []. auto.
  - simpl in Hi. cbn [Snake_draw_from].
    destruct (lookup_lt_is_Some_2 (segment_animations s) i ltac:(lia)) as [phase Hph].
    rewrite Hph. cbn [mbind option_bind].
    destruct (IH (S i) ltac:(lia)) as [drawn [Hd Hl]]. rewrite Hd. cbn [mbind option_bind].
    eexists. split; [reflexivity |]. simpl. now rewrite Hl.
Qed.

(** Drawing a well-formed snake never indexes past its animation list. *)
Lemma Snake_draw_ok (s : Snake) :
  snake_ok s -> exists drawn, Snake_draw s = Some drawn /\ length drawn = length (positions s).
Proof.
  intros [_ [Hlen _]]. apply Snake_draw_from_some. rewrite Hlen. simpl. lia.
Qed.

Lemma draw_leaderboard_tabs_game (mouse : Z -> (Z * Z) * bool) (g : SnakeGame) :
  let g' := draw_leaderboard_tabs mouse g in
  state g' = state g /\ snake g' = snake g /\ food g' = food g /\
  game_score g' = game_score g /\ score_manager g' = score_manager g /\
  audio_manager g' = audio_manager g /\ current_difficulty g' = current_difficulty g /\
  rng g' = rng g.
Proof.
  unfold draw_leaderboard_tabs. cbn [fold_left].
  destruct (collidepoint (tab_rect 0) _ && _);
    destruct (collidepoint (tab_rect 1) _ && _);
    destruct (collidepoint (tab_rect 2) _ && _); repeat split.
Qed.

(** Drawing never raises on a state that satisfies the invariant; it
    changes at most the difficulty shown on the leaderboard. *)
Lemma draw_ok (mouse : Z -> (Z * Z) * bool) (g : SnakeGame) :
  game_ok g ->
  exists g', draw mouse g = Some g' /\ game_ok g' /\
    state g' = state g /\ score_manager g' = score_manager g /\
    (state g <> LEADERBOARD -> g' = g).
Proof.
  intros H. pose proof H as [Hsc [Hsn Hpl]]. unfold draw.
  assert (Hdg : exists drawn, draw_game g = Some drawn).
  { unfold draw_game. destruct (snake g) as [s |] eqn:Hs; [| eauto].
    destruct (Snake_draw_ok s (Hsn s eq_refl)) as [drawn [Hd _]]. eauto. }
  destruct Hdg as [drawn Hdg].
  destruct (state g) eqn:Hst.
  - exists g. split; [reflexivity |]. split; [exact H |]. auto.
  - exists g. split; [reflexivity |]. split; [exact H |]. auto.
  - exists g. rewrite Hdg. split; [reflexivity |]. split; [exact H |]. auto.
  - exists g. rewrite Hdg. cbn [mbind option_bind]. unfold draw_game_over.
    destruct (final_score_some (current_difficulty g) _ Hsc) as [fs ->].
    split; [reflexivity |]. split; [exact H |]. auto.
  - exists (draw_leaderboard_tabs mouse g).
    destruct (draw_leaderboard_tabs_game mouse g) as (H1 & H2 & H3 & H4 & H5 & _).
    split; [reflexivity |]. split; [| split; [congruence | split; [exact H5 | congruence]]].
    apply (game_ok_ext g); assumption.
Qed.

(** ** The loop *)

(** One turn of the loop on a state that satisfies the invariant: no
    exception, and the invariant holds again. *)
Lemma run_frame_ok (i : FrameInput) (ui : UI) :
  game_ok (game ui) ->
  exists running ui', run_frame i ui = Some (running, ui') /\ game_ok (game ui').
Proof.
  intros H. unfold run_frame.
  destruct (handle_events_ui_ok (frame_events i) (frame_mouse_pos i) ui H)
    as [b [ui1 [He [H1 _]]]].
  rewrite He.
  destruct (update_game_logic_ok (frame_now i) (game ui1) H1) as [g2 [Hu [H2 _]]].
  rewrite Hu. cbn [mbind option_bind].
  destruct (draw_ok (frame_draw_mouse i) g2 H2) as [g3 [Hd [H3 _]]].
  rewrite Hd. cbn [mbind option_bind]. eexists _, _. split; [reflexivity | exact H3].
Qed.

Lemma run_ok (inputs : list FrameInput) (ui : UI) :
  game_ok (game ui) -> exists ui', run inputs ui = Some ui' /\ game_ok (game ui').
Proof.
  revert ui. induction inputs as [| i rest IH]; intros ui H; [eauto |].
  cbn [run]. destruct (run_frame_ok i ui H) as [running [ui1 [Hf H1]]]. rewrite Hf.
  destruct running; [apply IH, H1 | eauto].
Qed.

Lemma SnakeGame_init_ok (scores : gmap string (list ScoreEntry)) (r : Rng) :
  game_ok (SnakeGame_init scores r).
Proof.
  split; [simpl; rewrite MAX_RAW_SCORE_value; lia |].
  split; [discriminate | discriminate].
Qed.

(** ** More on the score table *)

Lemma add_score_table_ok (d : string) (sc : Z) (pl now : string)
    (m : gmap string (list ScoreEntry)) :
  table_ok m -> table_ok (snd (add_score d sc pl now m)).
Proof.
  intros Hok d0 l0 H0.
  destruct (add_score_unfold d sc pl now m) as [Hl [Hother _]].
  destruct (decide (d0 = d)) as [-> | Hne].
  - rewrite Hl in H0. injection H0 as <-. split.
    + rewrite length_take. lia.
    + apply take_sorted, sort_reverse_sorted.
  - rewrite Hother in H0 by assumption. now apply Hok in H0.
Qed.

Lemma table_ok_list (d : string) (m : gmap string (list ScoreEntry)) :
  table_ok m ->
  (length (default [] (m !! d)) <= 10)%nat /\ sorted_desc (default [] (m !! d)).
Proof.
  intros Hok. destruct (m !! d) as [l |] eqn:E; simpl.
  - exact (Hok d l E).
  - split; [lia | constructor].
Qed.

(** The stored list after [add_score], on a sorted list: the entries
    not below the new score, the new entry, the entries below, cut
    after ten. *)
Lemma add_score_stored (d : string) (sc : Z) (pl now : string)
    (m : gmap string (list ScoreEntry)) :
  let l := default [] (m !! d) in
  let e := mkEntry sc pl now in
  sorted_desc l ->
  snd (add_score d sc pl now m) !! d
  = Some (take 10 (filter (fun y => sc <= score y) l ++ e
                   :: filter (fun y => score y < sc) l)).
Proof.
  intros l e Hs. destruct (add_score_unfold d sc pl now m) as [Hl _].
  rewrite Hl. fold l e. rewrite sort_reverse_snoc, (sort_reverse_id score l Hs).
  now rewrite (insert_back_split score e l Hs).
Qed.

(** The rank loop finds the first entry equal to the new one. *)
Lemma rank_of_elem (e : ScoreEntry) (l : list ScoreEntry) (i : Z) :
  e ∈ l ->
  exists k, rank_of (entry_eqb e) l i = Some (i + Z.of_nat k + 1) /\
            l !! k = Some e /\ (k < length l)%nat.
Proof.
  intros H. revert i. induction l as [| x l IH]; intros i; [now apply elem_of_nil in H |].
  simpl. destruct (entry_eqb e x) eqn:E.
  - apply entry_eqb_eq in E. subst x. exists 0%nat. simpl. split; [f_equal; lia |].
    split; [reflexivity | lia].
  - apply elem_of_cons in H. destruct H as [-> | H].
    + rewrite (proj2 (entry_eqb_eq _ _) eq_refl) in E. discriminate.
    + destruct (IH H (i + 1)) as [k [Hr [Hk Hlt]]]. exists (S k).
      split; [rewrite Hr; f_equal; lia |]. split; [exact Hk | simpl; lia].
Qed.

Lemma rank_of_bounds {A} (p : A -> bool) (l : list A) (i r : Z) :
  rank_of p l i = Some r -> i < r <= i + Z.of_nat (length l).
Proof.
  revert i. induction l as [| x l IH]; intros i; simpl; [discriminate |].
  destruct (p x).
  - intros [= <-]. lia.
  - intros H. apply IH in H. lia.
Qed.

(** A qualifying score has fewer than ten stored scores at or above it. *)
Lemma qualifying_above (d : string) (sc : Z) (m : gmap string (list ScoreEntry)) :
  table_ok m -> is_high_score d sc m = true ->
  (length (filter (fun y => (sc <= score y)%Z) (default [] (m !! d))) < 10)%nat.
Proof.
  intros Hok Hq. destruct (table_ok_list d m Hok) as [Hlen Hs].
  unfold is_high_score in Hq. apply orb_true_iff in Hq. destruct Hq as [Hq | Hq].
  - apply Nat.ltb_lt in Hq.
    pose proof (length_filter (fun y => sc <= score y) (default [] (m !! d))). lia.
  - destruct (last (default [] (m !! d))) as [e9 |] eqn:El; [| discriminate].
    apply Z.gtb_lt in Hq.
    assert (Hin : e9 ∈ default [] (m !! d)).
    { rewrite last_lookup in El. eapply list_elem_of_lookup_2. exact El. }
    assert (Hn : ~ sc <= score e9) by lia.
    pose proof (length_filter_lt (fun y => sc <= score y) _ e9 Hin Hn). lia.
Qed.

(** A score that does not qualify meets a full list whose entries are
    all at or above it. *)
Lemma not_qualifying_full (d : string) (sc : Z) (m : gmap string (list ScoreEntry)) :
  table_ok m -> is_high_score d sc m = false ->
  exists l, m !! d = Some l /\ length l = 10%nat /\ Forall (fun y => sc <= score y) l.
Proof.
  intros Hok Hq. unfold is_high_score in Hq. apply orb_false_iff in Hq.
  destruct Hq as [Hlen Hlast]. apply Nat.ltb_ge in Hlen.
  destruct (m !! d) as [l |] eqn:E; simpl in *; [| lia].
  destruct (Hok d l E) as [Hle Hs]. exists l. split; [reflexivity |]. split; [lia |].
  destruct (last l) as [e9 |] eqn:El.
  - apply Forall_forall. intros y Hy.
    pose proof (sorted_last_lowest l e9 y Hs El Hy).
    rewrite Z.gtb_ltb in Hlast. apply Z.ltb_ge in Hlast. lia.
  - apply last_None in El. subst l. simpl in Hlen. lia.
Qed.

Lemma rank_of_le {A} (p : A -> bool) (l : list A) (i : Z) (j : nat) (x : A) :
  l !! j = Some x -> p x = true ->
  exists r, rank_of p l i = Some r /\ r <= i + Z.of_nat j + 1.
Proof.
  revert i j. induction l as [| y l IH]; intros i j Hj Hx; [discriminate |].
  simpl. destruct (p y) eqn:E.
  - exists (i + 1). split; [reflexivity | lia].
  - destruct j as [| j]; simpl in Hj.
    + injection Hj as ->. congruence.
    + destruct (IH (i + 1) j Hj Hx) as [r [Hr Hle]]. exists r. split; [exact Hr | lia].
Qed.

Lemma rank_of_lookup (e : ScoreEntry) (l : list ScoreEntry) (i r : Z) :
  rank_of (entry_eqb e) l i = Some r -> l !! Z.to_nat (r - i - 1) = Some e.
Proof.
  revert i. induction l as [| x l IH]; intros i; simpl; [discriminate |].
  destruct (entry_eqb e x) eqn:E.
  - intros [= <-]. replace (i + 1 - i - 1) with 0 by lia. simpl.
    apply entry_eqb_eq in E. now subst.
  - intros H. pose proof (rank_of_bounds _ _ _ _ H) as Hb. apply IH in H.
    replace (Z.to_nat (r - i - 1)) with (S (Z.to_nat (r - (i + 1) - 1))) by lia.
    exact H.
Qed.

Lemma rows_from_lookup (l : list ScoreEntry) (i : Z) (k : nat) (e : ScoreEntry) :
  l !! k = Some e -> rows_from i l !! k = Some (i + Z.of_nat k + 1, score e, date e).
Proof.
  revert i k. induction l as [| x l IH]; intros i k H; [discriminate |].
  destruct k as [| k]; simpl in *.
  - injection H as ->. do 3 f_equal. lia.
  - rewrite (IH (i + 1) k H). do 3 f_equal. lia.
Qed.


(** X1. After [add_score], [get_high_score] of that difficulty is the
    maximum of the new score and the scores stored before: it is at
    least each of them and is one of them. The high score of every
    other difficulty is unchanged. No assumption on the table. *)
Theorem high_score_after_add (d : string) (sc : Z) (pl now : string)
    (m : gmap string (list ScoreEntry)) :
  let l := default [] (m !! d) in
  let hs := get_high_score d (snd (add_score d sc pl now m)) in
  sc <= hs /\
  (forall y, y ∈ l -> score y <= hs) /\
  (hs = sc \/ exists y, y ∈ l /\ score y = hs) /\
  (forall d', d' <> d ->
     get_high_score d' (snd (add_score d sc pl now m)) = get_high_score d' m).
Proof.
  intros l hs. destruct (add_score_unfold d sc pl now m) as [Hl [Hother _]].
  fold l in Hl. set (e := mkEntry sc pl now) in *.
  pose proof (sort_reverse_perm score (l ++ [e])) as Hperm.
  pose proof (sort_reverse_sorted score (l ++ [e])) as Hsorted.
  destruct (sort_reverse score (l ++ [e])) as [| x rest] eqn:E.
  { apply Permutation_length in Hperm. rewrite length_app in Hperm. simpl in Hperm. lia. }
  assert (Hhs : hs = score x).
  { unfold hs, get_high_score. rewrite Hl. reflexivity. }
  assert (Hmax : forall y, y ∈ l ++ [e] -> score y <= score x).
  { intros y Hy. rewrite <- Hperm in Hy. apply elem_of_cons in Hy.
    destruct Hy as [-> | Hy]; [lia |].
    inversion Hsorted as [| ? ? _ Hall]; subst. rewrite Forall_forall in Hall.
    exact (Hall y Hy). }
  assert (Hx : x ∈ l ++ [e]) by (rewrite <- Hperm; left).
  rewrite Hhs. split; [| split; [| split]].
  - apply (Hmax e). apply elem_of_app. right. left.
  - intros y Hy. apply Hmax. apply elem_of_app. now left.
  - apply elem_of_app in Hx. destruct Hx as [Hx | Hx].
    + right. exists x. split; [exact Hx | reflexivity].
    + left. apply list_elem_of_singleton in Hx. now subst.
  - intros d' Hne. unfold get_high_score. now rewrite Hother.
Qed.

(** X2. A score that qualifies on a table that keeps the leaderboard
    invariant is stored: [add_score] returns a rank between 1 and 10,
    the entry at that rank of the stored list is the new entry, the
    rank is at most one more than the number of stored scores at or
    above the new one, and the leaderboard screen of that difficulty
    shows the row (rank, score, date). *)
Theorem qualifying_score_is_ranked (d : string) (sc : Z) (pl now : string)
    (m : gmap string (list ScoreEntry)) :
  table_ok m -> is_high_score d sc m = true ->
  let e := mkEntry sc pl now in
  let r := fst (add_score d sc pl now m) in
  let m' := snd (add_score d sc pl now m) in
  let l' := default [] (m' !! d) in
  1 <= r <= 10 /\
  l' !! Z.to_nat (r - 1) = Some e /\
  r <= Z.of_nat (length (filter (fun y => sc <= score y) (default [] (m !! d)))) + 1 /\
  (forall g, score_manager g = m' -> leaderboard_difficulty g = d ->
     (r, sc, now) ∈ draw_leaderboard_rows g).
Proof.
  intros Hok Hq e r m' l'.
  destruct (table_ok_list d m Hok) as [Hlen Hs].
  pose proof (qualifying_above d sc m Hok Hq) as Habove.
  pose proof (add_score_stored d sc pl now m Hs) as Hst. fold e m' in Hst.
  set (above := filter (fun y => sc <= score y) (default [] (m !! d))) in *.
  set (below := filter (fun y => score y < sc) (default [] (m !! d))) in *.
  assert (Hat : l' !! length above = Some e).
  { unfold l'. rewrite Hst. simpl default. rewrite lookup_take_lt by lia.
    rewrite lookup_app_r by lia. now rewrite Nat.sub_diag. }
  assert (Hr : r = default (Z.of_nat (length l')) (rank_of (entry_eqb e) l' 0)).
  { unfold r, l', m'. destruct (add_score_unfold d sc pl now m) as [Hl [_ Hr]].
    rewrite Hr, Hl. reflexivity. }
  destruct (rank_of_le (entry_eqb e) l' 0 (length above) e Hat
              (proj2 (entry_eqb_eq e e) eq_refl)) as [r0 [Hr0 Hle]].
  rewrite Hr0 in Hr. simpl in Hr. subst r0.
  pose proof (rank_of_bounds _ _ _ _ Hr0) as Hb.
  pose proof (rank_of_lookup e l' 0 r Hr0) as Hlk.
  replace (r - 0 - 1) with (r - 1) in Hlk by lia.
  split; [lia |]. split; [exact Hlk |]. split; [lia |].
  intros g Hg Hd. unfold draw_leaderboard_rows, get_top_scores. rewrite Hg, Hd.
  fold l'. apply (list_elem_of_lookup_2 _ (Z.to_nat (r - 1))).
  rewrite (rows_from_lookup _ 0 _ e).
  - simpl. do 3 f_equal. lia.
  - rewrite lookup_take_lt by lia. exact Hlk.
Qed.

Lemma qualifying_score_is_ranked_witness :
  let m := <["EASY" := [mkEntry 80 "Player" "2024-05-01 09:00";
                        mkEntry 50 "Player" "2024-05-01 09:10"]]> empty_scores in
  let g := mkGame LEADERBOARD "EASY" None None 0
             (snd (add_score "EASY" 60 "Player" "2024-05-01 09:20" m))
             (mkAudio true []) "EASY" (mkRng (fun _ => 0) 0) in
  fst (add_score "EASY" 60 "Player" "2024-05-01 09:20" m) = 2 /\
  (2, 60, "2024-05-01 09:20"%string) ∈ draw_leaderboard_rows g.
Proof.
  intros m g.
  assert (Hok : table_ok m).
  { intros d l Hd. unfold m in Hd.
    destruct (decide (d = "EASY")) as [-> | Hne].
    - rewrite lookup_insert_eq in Hd. injection Hd as <-. split; [simpl; lia |].
      repeat constructor; unfold desc; simpl; lia.
    - rewrite lookup_insert_ne in Hd by congruence. unfold empty_scores in Hd.
      rewrite lookup_insert_ne in Hd by congruence.
      destruct (decide (d = "MEDIUM")) as [-> | H2];
        [rewrite lookup_insert_eq in Hd | rewrite lookup_insert_ne in Hd by congruence].
      { injection Hd as <-. split; [simpl; lia | constructor]. }
      destruct (decide (d = "HARD")) as [-> | H3];
        [rewrite lookup_insert_eq in Hd | rewrite lookup_insert_ne in Hd by congruence].
      { injection Hd as <-. split; [simpl; lia | constructor]. }
      rewrite lookup_empty in Hd. discriminate. }
  assert (Hq : is_high_score "EASY" 60 m = true) by (vm_compute; reflexivity).
  pose proof (qualifying_score_is_ranked "EASY" 60 "Player" "2024-05-01 09:20" m Hok Hq)
    as (_ & _ & _ & Hrow).
  assert (Hr : fst (add_score "EASY" 60 "Player" "2024-05-01 09:20" m) = 2)
    by (vm_compute; reflexivity).
  split; [exact Hr |]. rewrite <- Hr. apply Hrow; reflexivity.
Defined.

(** X3. On a table that keeps the leaderboard invariant,
    [is_high_score] answers exactly whether [add_score] would change
    the table: a score that does not qualify would leave every list as
    it is, and a score that qualifies changes the list of its
    difficulty. The guard of [_handle_game_over] therefore loses no
    entry. *)
Theorem is_high_score_exact (d : string) (sc : Z) (pl now : string)
    (m : gmap string (list ScoreEntry)) :
  table_ok m ->
  (is_high_score d sc m = false <-> snd (add_score d sc pl now m) = m).
Proof.
  intros Hok. destruct (table_ok_list d m Hok) as [Hlen Hs].
  pose proof (add_score_stored d sc pl now m Hs) as Hst. cbv zeta in Hst.
  destruct (add_score_unfold d sc pl now m) as [_ [Hother _]].
  split.
  - intros Hq. destruct (not_qualifying_full d sc m Hok Hq) as [l [Hl [H10 Hall]]].
    apply map_eq. intros d0. destruct (decide (d0 = d)) as [-> | Hne].
    + rewrite Hst, Hl. simpl default. f_equal.
      rewrite (filter_all (fun y => sc <= score y) l Hall).
      now apply take_app_length'.
    + now apply Hother.
  - intros Heq. destruct (is_high_score d sc m) eqn:Hq; [exfalso | reflexivity].
    pose proof (qualifying_above d sc m Hok Hq) as Habove.
    rewrite Heq in Hst.
    set (l := default [] (m !! d)) in *.
    set (above := filter (fun y => sc <= score y) l) in *.
    set (below := filter (fun y => score y < sc) l) in *.
    assert (Hl : l = take 10 (above ++ mkEntry sc pl now :: below)).
    { unfold l at 1. rewrite Hst. reflexivity. }
    assert (Hcount : length (filter (fun y => sc <= score y) l) = length above)
      by reflexivity.
    rewrite Hl in Hcount at 1.
    rewrite take_app, take_ge in Hcount by lia.
    rewrite filter_app in Hcount.
    destruct (10 - length above)%nat as [| k] eqn:Ek; [lia |].
    cbn [take] in Hcount. rewrite filter_cons_True in Hcount by (simpl; lia).
    rewrite length_app in Hcount. cbn [length] in Hcount.
    unfold above in Hcount at 1.
    rewrite (filter_all (fun y => sc <= score y)) in Hcount.
    + fold above in Hcount. lia.
    + apply Forall_forall. intros y Hy. apply list_elem_of_filter in Hy. tauto.
Qed.

Lemma is_high_score_exact_witness :
  let m := <["HARD" := replicate 10 (mkEntry 100 "Player" "2024-01-01 10:00")]>
             empty_scores in
  snd (add_score "HARD" 50 "Player" "2024-01-02 10:00" m) = m.
Proof.
  intros m.
  apply (is_high_score_exact "HARD" 50 "Player" "2024-01-02 10:00" m).
  - intros d l Hd. unfold m in Hd.
    destruct (decide (d = "HARD")) as [-> | Hne].
    + rewrite lookup_insert_eq in Hd. injection Hd as <-. split; [simpl; lia |].
      repeat constructor; unfold desc; simpl; lia.
    + rewrite lookup_insert_ne in Hd by congruence. unfold empty_scores in Hd.
      destruct (decide (d = "EASY")) as [-> | H1];
        [rewrite lookup_insert_eq in Hd | rewrite lookup_insert_ne in Hd by congruence].
      { injection Hd as <-. split; [simpl; lia | constructor]. }
      destruct (decide (d = "MEDIUM")) as [-> | H2];
        [rewrite lookup_insert_eq in Hd | rewrite lookup_insert_ne in Hd by congruence].
      { injection Hd as <-. split; [simpl; lia | constructor]. }
      rewrite lookup_insert_ne in Hd by congruence.
      rewrite lookup_empty in Hd. discriminate.
  - vm_compute. reflexivity.
Defined.

(** X4. A difficulty the table has no list for: the high score is 0,
    there are no top scores, every score qualifies, and [add_score]
    creates the list with the new entry alone and returns rank 1,
    leaving the other lists as they are. *)
Theorem missing_difficulty (d : string) (sc : Z) (pl now : string) (n : nat)
    (m : gmap string (list ScoreEntry)) :
  m !! d = None ->
  get_high_score d m = 0 /\
  get_top_scores d n m = [] /\
  is_high_score d sc m = true /\
  add_score d sc pl now m = (1, <[d := [mkEntry sc pl now]]> m).
Proof.
  intros Hd. unfold get_high_score, get_top_scores, is_high_score. rewrite Hd. simpl.
  split; [reflexivity |]. split; [now rewrite take_nil |]. split; [reflexivity |].
  unfold add_score. rewrite Hd.
  assert (Hm : alter (take 10) d
                 (alter (sort_reverse score) d
                    (alter (fun l => l ++ [mkEntry sc pl now]) d (<[d := []]> m)))
               = <[d := [mkEntry sc pl now]]> m).
  { apply map_eq. intros d0. destruct (decide (d0 = d)) as [-> | Hne].
    - rewrite !lookup_alter_eq, !lookup_insert_eq. reflexivity.
    - rewrite !lookup_alter_ne, !lookup_insert_ne by congruence. reflexivity. }
  cbv zeta. rewrite Hm, lookup_insert_eq. simpl.
  unfold entry_eqb. simpl. rewrite Z.eqb_refl, !String.eqb_refl. reflexivity.
Qed.

Lemma missing_difficulty_witness :
  add_score "EXPERT" 30 "Player" "2024-01-02 10:00" empty_scores
  = (1, <["EXPERT" := [mkEntry 30 "Player" "2024-01-02 10:00"]]> empty_scores).
Proof.
  apply (missing_difficulty "EXPERT" 30 "Player" "2024-01-02 10:00" 10 empty_scores).
  vm_compute. reflexivity.
Defined.



Lemma add_score_length (d : string) (sc : Z) (pl now : string)
    (m : gmap string (list ScoreEntry)) :
  length (default [] (snd (add_score d sc pl now m) !! d))
  = Nat.min 10 (S (length (default [] (m !! d)))).
Proof.
  destruct (add_score_unfold d sc pl now m) as [Hl _]. rewrite Hl. simpl default.
  rewrite length_take, (Permutation_length (sort_reverse_perm score _)), length_app.
  cbn [length]. f_equal. lia.
Qed.




(** X6. The banner NEW HIGH SCORE of the game-over screen is tested
    against the table after the final score was stored. The banner is
    shown only for a score that qualified and was stored; it is shown
    whenever the list held at most 8 entries; and a qualifying score
    that becomes the tenth and lowest entry is stored without a banner.
    A qualifying score is stored and plays "high_score"; any other
    leaves the table as it is and plays "game_over". *)
Theorem banner_after_game_over (now : string) (g : SnakeGame) :
  0 <= game_score g <= MAX_RAW_SCORE ->
  let d := current_difficulty g in
  let l := default [] (score_manager g !! d) in
  exists g' fs b,
    handle_game_over now g = Some g' /\ draw_game_over g' = Some (fs, b) /\
    final_score d (game_score g) = Some fs /\
    (b = true -> is_high_score d fs (score_manager g) = true) /\
    (is_high_score d fs (score_manager g) = true -> (length l <= 8)%nat -> b = true) /\
    (is_high_score d fs (score_manager g) = true -> length l = 9%nat ->
     (forall y, y ∈ l -> fs <= score y) -> b = false) /\
    (is_high_score d fs (score_manager g) = true ->
     score_manager g' = snd (add_score d fs "Player" now (score_manager g)) /\
     audio_manager g' = play_sound "high_score" (audio_manager g)) /\
    (is_high_score d fs (score_manager g) = false ->
     score_manager g' = score_manager g /\
     audio_manager g' = play_sound "game_over" (audio_manager g)).
Proof.
  intros Hr d l.
  destruct (handle_game_over_ok now g Hr)
    as (g' & fs & Hgo & Hfs & _ & _ & _ & Hsc & Hd & _ & _ & Hsm & Ha).
  fold d in Hfs, Hsm, Ha.
  exists g', fs, (is_high_score d fs (score_manager g')).
  split; [exact Hgo |]. split.
  { unfold draw_game_over. rewrite Hd, Hsc. fold d. rewrite Hfs. reflexivity. }
  split; [exact Hfs |].
  destruct (is_high_score d fs (score_manager g)) eqn:Hq.
  - pose proof (add_score_length d fs "Player" now (score_manager g)) as Hlen.
    rewrite <- Hsm in Hlen. fold l in Hlen.
    split; [reflexivity |]. split.
    { intros _ H8. unfold is_high_score. apply orb_true_iff. left.
      apply Nat.ltb_lt. lia. }
    split.
    { intros _ H9 Hall.
      destruct (add_score_unfold d fs "Player" now (score_manager g)) as [Hst _].
      rewrite <- Hsm in Hst. cbv zeta in Hst. fold l in Hst.
      set (e := mkEntry fs "Player" now) in *.
      set (l' := take 10 (sort_reverse score (l ++ [e]))) in *.
      assert (Hsorted : sorted_desc l').
      { apply take_sorted. apply sort_reverse_sorted. }
      assert (Hfull : l' = sort_reverse score (l ++ [e])).
      { unfold l'. apply take_ge.
        rewrite (Permutation_length (sort_reverse_perm score _)), length_app. simpl. lia. }
      assert (Hlen' : length l' = 10%nat).
      { rewrite Hfull, (Permutation_length (sort_reverse_perm score _)), length_app.
        simpl. lia. }
      assert (Hmem : forall y, y ∈ l' -> fs <= score y).
      { intros y Hy. rewrite Hfull, sort_reverse_perm in Hy.
        apply elem_of_app in Hy. destruct Hy as [Hy | Hy]; [now apply Hall |].
        apply list_elem_of_singleton in Hy. subst y. simpl. lia. }
      assert (He : e ∈ l').
      { rewrite Hfull, sort_reverse_perm. apply elem_of_app. right. now left. }
      unfold is_high_score. rewrite Hst. simpl default. rewrite Hlen'.
      destruct (last l') as [z |] eqn:Hz; [| reflexivity].
      pose proof (sorted_last_lowest l' z e Hsorted Hz He) as Hlow. simpl in Hlow.
      assert (Hzin : z ∈ l').
      { rewrite last_lookup in Hz. eapply list_elem_of_lookup_2. exact Hz. }
      specialize (Hmem z Hzin). simpl. rewrite Z.gtb_ltb. apply Z.ltb_ge. lia. }
    split; [intros _; split; assumption | discriminate].
  - rewrite Hsm, Hq. split; [discriminate |]. split; [discriminate |].
    split; [discriminate |]. split; [discriminate |]. intros _. split; [reflexivity | exact Ha].
Qed.

Lemma banner_after_game_over_witness :
  let m := <["EASY" := [mkEntry 90 "Player" "2024-03-01 08:00";
                        mkEntry 80 "Player" "2024-03-01 08:01";
                        mkEntry 70 "Player" "2024-03-01 08:02";
                        mkEntry 60 "Player" "2024-03-01 08:03";
                        mkEntry 50 "Player" "2024-03-01 08:04";
                        mkEntry 40 "Player" "2024-03-01 08:05";
                        mkEntry 30 "Player" "2024-03-01 08:06";
                        mkEntry 20 "Player" "2024-03-01 08:07";
                        mkEntry 10 "Player" "2024-03-01 08:08"]]>
             (∅ : gmap string (list ScoreEntry)) in
  let g := mkGame PLAYING "EASY" (Some Snake_init) None 0 m (mkAudio true [])
             "EASY" (mkRng (fun _ => 0) 0) in
  exists g', handle_game_over "2024-03-02 08:00" g = Some g' /\
    length (default [] (score_manager g' !! "EASY")) = 10%nat /\
    played (audio_manager g') = ["high_score"%string] /\
    draw_game_over g' = Some (0, false).
Proof.
  intros m g.
  destruct (banner_after_game_over "2024-03-02 08:00" g)
    as (g' & fs & b & Hgo & Hdraw & Hfs & _ & _ & Hlow & Hstore & _).
  { vm_compute. split; discriminate. }
  assert (Hfs0 : fs = 0).
  { assert (H0 : final_score "EASY" 0 = Some 0) by (vm_compute; reflexivity).
    simpl in Hfs. rewrite H0 in Hfs. congruence. }
  subst fs.
  assert (Hq : is_high_score "EASY" 0 m = true) by (vm_compute; reflexivity).
  assert (Hb : b = false).
  { apply Hlow.
    - exact Hq.
    - reflexivity.
    - intros y Hy. vm_compute in Hy.
      repeat (apply elem_of_cons in Hy; destruct Hy as [-> | Hy]; [simpl; lia |]).
      inversion Hy. }
  subst b. destruct (Hstore Hq) as [Hsm Ha].
  exists g'. split; [exact Hgo |].
  split; [rewrite Hsm; vm_compute; reflexivity |].
  split; [rewrite Ha; reflexivity | exact Hdraw].
Defined.

(** ** The tick in detail *)

(** The tick while playing, on a state that satisfies the invariant:
    the moved snake, and the three outcomes. *)
Lemma update_game_logic_playing (now : string) (g : SnakeGame) (s : Snake) (h : Cell) :
  game_ok g -> state g = PLAYING -> snake g = Some s -> new_head s = Some h ->
  exists s' f,
    move s = Some s' /\ food g = Some f /\
    positions s' = h :: (if grow_pending s then positions s else removelast (positions s)) /\
    let g1 := set_food (Food_update f) (set_snake s' g) in
    update_game_logic now g
    = if negb (in_grid h)
         || cell_in h (if grow_pending s then positions s else removelast (positions s))
      then handle_game_over now g1
      else if cell_eqb h (position f) then handle_food_eaten g1 else Some g1.
Proof.
  intros H Hst Hs Hh. pose proof H as [_ [Hsn Hpl]].
  destruct (Hpl Hst) as [s0 [f [Hs0 [Hf _]]]].
  rewrite Hs in Hs0. injection Hs0 as <-.
  destruct (move_snake_ok s (Hsn s Hs)) as [s' [h' [Hm [Hh' [Hp _]]]]].
  rewrite Hh in Hh'. injection Hh' as <-.
  exists s', f. split; [exact Hm |]. split; [exact Hf |]. split; [exact Hp |].
  exact (update_game_logic_eq now g s s' f h _ Hst Hs Hf Hm Hp).
Qed.

(** The score table after a tick: as before, or with the qualifying
    final score of the game that just ended. *)
Lemma update_game_logic_scores (now : string) (g g' : SnakeGame) :
  game_ok g -> update_game_logic now g = Some g' ->
  score_manager g' = score_manager g \/
  (state g = PLAYING /\ state g' = GAME_OVER /\
   current_difficulty g' = current_difficulty g /\ game_score g' = game_score g /\
   exists fs,
     final_score (current_difficulty g) (game_score g) = Some fs /\
     is_high_score (current_difficulty g) fs (score_manager g) = true /\
     score_manager g'
     = snd (add_score (current_difficulty g) fs "Player" now (score_manager g))).
Proof.
  intros H Hu. pose proof H as [Hsc [Hsn Hpl]].
  assert (Hdec : state g = PLAYING \/ state g <> PLAYING)
    by (destruct (state g); auto; right; discriminate).
  destruct Hdec as [Hst | Hst].
  2: { destruct (update_game_logic_ok now g H) as [g1 [Hu1 [_ [Hsame _]]]].
       rewrite Hu in Hu1. injection Hu1 as <-. left. now rewrite (Hsame Hst). }
  destruct (Hpl Hst) as [s [f0 [Hs _]]].
  destruct (new_head_some s (proj1 (Hsn s Hs))) as [h Hh].
  destruct (update_game_logic_playing now g s h H Hst Hs Hh)
    as [s' [f [Hm [Hf [Hp Heq]]]]].
  cbv zeta in Heq. rewrite Heq in Hu. clear Heq.
  set (g1 := set_food (Food_update f) (set_snake s' g)) in *.
  destruct (negb (in_grid h) || cell_in h _).
  - destruct (handle_game_over_ok now g1 Hsc)
      as (g2 & fs & Hgo & Hfs & Hst2 & _ & _ & Hsc2 & Hd2 & _ & _ & Hsm & _).
    rewrite Hu in Hgo. injection Hgo as <-.
    change (current_difficulty g1) with (current_difficulty g) in *.
    change (game_score g1) with (game_score g) in *.
    change (score_manager g1) with (score_manager g) in *.
    destruct (is_high_score (current_difficulty g) fs (score_manager g)) eqn:Hq.
    + right. split; [exact Hst |]. split; [exact Hst2 |].
      split; [exact Hd2 |]. split; [exact Hsc2 |]. exists fs. auto.
    + left. exact Hsm.
  - destruct (cell_eqb h (position f)).
    + rewrite (handle_food_eaten_eq g1 s' (Food_update f) eq_refl eq_refl) in Hu.
      injection Hu as <-. left. reflexivity.
    + injection Hu as <-. left. reflexivity.
Qed.

(** One turn of the loop and the score table: the events leave it as
    it is, and so does the drawing; the tick in between changes it only
    by ending the game in play and storing that game's final score. *)
Lemma run_frame_scores (i : FrameInput) (ui ui' : UI) (running : bool) :
  game_ok (game ui) -> run_frame i ui = Some (running, ui') ->
  score_manager (game ui') = score_manager (game ui) \/
  (state (game ui') = GAME_OVER /\
   (exists b ui1,
      handle_events_ui (frame_events i) (frame_mouse_pos i) ui = Some (b, ui1) /\
      state (game ui1) = PLAYING /\
      score_manager (game ui1) = score_manager (game ui) /\
      update_game_logic (frame_now i) (game ui1) = Some (game ui')) /\
   exists fs,
     final_score (current_difficulty (game ui')) (game_score (game ui')) = Some fs /\
     is_high_score (current_difficulty (game ui')) fs (score_manager (game ui)) = true /\
     score_manager (game ui')
     = snd (add_score (current_difficulty (game ui')) fs "Player" (frame_now i)
              (score_manager (game ui)))).
Proof.
  intros H Hf. unfold run_frame in Hf.
  destruct (handle_events_ui_ok (frame_events i) (frame_mouse_pos i) ui H)
    as [b [ui1 [He [H1 Hs1]]]].
  rewrite He in Hf.
  destruct (update_game_logic_ok (frame_now i) (game ui1) H1) as [g2 [Hu [H2 _]]].
  rewrite Hu in Hf. cbn [mbind option_bind] in Hf.
  destruct (draw_ok (frame_draw_mouse i) g2 H2) as [g3 [Hd [H3 [Hst3 [Hs3 Hsame3]]]]].
  rewrite Hd in Hf. cbn [mbind option_bind] in Hf. injection Hf as <- <-. cbn [game].
  destruct (update_game_logic_scores (frame_now i) (game ui1) g2 H1 Hu)
    as [Hsame | (Hplay & Hover & Hd2 & Hsc2 & fs & Hfs & Hq & Hsm)].
  - left. congruence.
  - right.
    assert (E : g3 = g2) by (apply Hsame3; rewrite Hover; discriminate).
    subst g3. split; [exact Hover |]. split.
    + exists b, ui1. split; [exact He |]. split; [exact Hplay |].
      split; [exact Hs1 | exact Hu].
    + exists fs. rewrite Hd2, Hsc2, <- Hs1. auto.
Qed.

Lemma run_frame_table_ok (i : FrameInput) (ui ui' : UI) (running : bool) :
  game_ok (game ui) -> run_frame i ui = Some (running, ui') ->
  table_ok (score_manager (game ui)) -> table_ok (score_manager (game ui')).
Proof.
  intros H Hf Hok.
  destruct (run_frame_scores i ui ui' running H Hf) as [-> | (_ & _ & fs & _ & _ & ->)];
    [exact Hok | now apply add_score_table_ok].
Qed.

Lemma run_table_ok (inputs : list FrameInput) (ui ui' : UI) :
  game_ok (game ui) -> run inputs ui = Some ui' ->
  table_ok (score_manager (game ui)) -> table_ok (score_manager (game ui')).
Proof.
  revert ui. induction inputs as [| i rest IH]; intros ui H Hr Hok.
  - injection Hr as <-. exact Hok.
  - cbn [run] in Hr. destruct (run_frame_ok i ui H) as [running [ui1 [Hf H1]]].
    rewrite Hf in Hr.
    pose proof (run_frame_table_ok i ui ui1 running H Hf Hok) as Hok1.
    destruct running; [exact (IH ui1 H1 Hr Hok1) | injection Hr as <-; exact Hok1].
Qed.

(** ** The program as a whole *)

(** X7. From program start, whatever score table was loaded, whatever
    the random draws and whatever the events, pointer positions and
    clock readings of each turn, no turn of the main loop raises: there
    is always a snake with a head and a food while playing, the
    animation list is never indexed past its end, and the final score
    never overflows. The state reached satisfies the invariant. *)
Theorem run_never_raises (scores : gmap string (list ScoreEntry)) (r : Rng)
    (inputs : list FrameInput) :
  exists ui', run inputs (UI_init scores r) = Some ui' /\ game_ok (game ui').
Proof.
  apply run_ok. apply SnakeGame_init_ok.
Qed.

(** X8. In every state the program can reach while playing, the body
    consists of distinct cells of the grid (at most 945 of them), the
    food is on a cell of the grid, the direction is one of the four key
    directions, there is one animation counter per segment, and the raw
    score is ten times the number of segments grown so far, counting a
    pending one: at most 9450. *)
Theorem reachable_playing_state (scores : gmap string (list ScoreEntry)) (r : Rng)
    (inputs : list FrameInput) (ui' : UI) :
  run inputs (UI_init scores r) = Some ui' -> state (game ui') = PLAYING ->
  exists s f,
    snake (game ui') = Some s /\ food (game ui') = Some f /\
    NoDup (positions s) /\ Forall (fun c => in_grid c = true) (positions s) /\
    (1 <= length (positions s) <= 945)%nat /\
    in_grid (position f) = true /\
    unit_direction (direction s) /\
    length (segment_animations s) = length (positions s) /\
    game_score (game ui')
    = 10 * (Z.of_nat (length (positions s)) - 1) + (if grow_pending s then 10 else 0) /\
    0 <= game_score (game ui') <= 9450.
Proof.
  intros Hrun Hst.
  destruct (run_ok inputs (UI_init scores r) (SnakeGame_init_ok scores r))
    as [ui1 [Hrun1 Hok]].
  rewrite Hrun in Hrun1. injection Hrun1 as <-.
  destruct Hok as [Hsc [Hsn Hpl]].
  destruct (Hpl Hst) as [s [f [Hs [Hf [Hb [Hfg Hrel]]]]]].
  destruct (Hsn s Hs) as [Hne [Hlen Hu]].
  pose proof (body_length_bound s Hb) as Hbound.
  change (GameConfig.GRID_WIDTH * GameConfig.GRID_HEIGHT) with 945 in Hbound.
  exists s, f. destruct Hb as [Hnd Hin].
  repeat (split; [assumption |]).
  split.
  { destruct (positions s); [congruence | simpl in *; lia]. }
  repeat (split; [assumption |]).
  rewrite MAX_RAW_SCORE_value in Hsc. exact Hsc.
Qed.

Lemma reachable_playing_state_witness :
  let inputs := [mkInput [EV_KEYDOWN K_SPACE] (0, 0) (fun _ => ((0, 0), false))
                   "2024-01-01 10:00";
                 mkInput [EV_KEYDOWN K_RETURN] (0, 0) (fun _ => ((0, 0), false))
                   "2024-01-01 10:00"] in
  exists ui', run inputs (UI_init ∅ (mkRng (fun _ => 3) 0)) = Some ui' /\
    exists s, snake (game ui') = Some s /\ NoDup (positions s) /\
              game_score (game ui') = 0.
Proof.
  intros inputs.
  destruct (run inputs (UI_init ∅ (mkRng (fun _ => 3) 0))) as [ui' |] eqn:Hrun;
    [| vm_compute in Hrun; discriminate].
  assert (Hst : state (game ui') = PLAYING).
  { vm_compute in Hrun. injection Hrun as <-. reflexivity. }
  destruct (reachable_playing_state ∅ (mkRng (fun _ => 3) 0) inputs ui' Hrun Hst)
    as (s & f & Hs & _ & Hnd & _ & _ & _ & _ & _ & Hrel & _).
  exists ui'. split; [reflexivity |]. exists s. split; [exact Hs |]. split; [exact Hnd |].
  vm_compute in Hrun. injection Hrun as <-. reflexivity.
Defined.

(** X9. The score table and the main loop: a table that satisfies the
    leaderboard invariant when loaded satisfies it after any run. A
    single turn of the loop either leaves the table as it is or ends
    the game in play: the state after the turn's events was PLAYING,
    the state after the turn is GAME_OVER, and the table is the old one
    with the final score of that game (its raw score times the
    multiplier of its difficulty, as an integer), which qualified,
    added under that difficulty for "Player" with the clock reading of
    the turn. Keys, clicks, hovering and drawing never touch the
    table. *)
Theorem score_table_through_the_loop :
  (forall scores r inputs ui',
     table_ok scores -> run inputs (UI_init scores r) = Some ui' ->
     table_ok (score_manager (game ui'))) /\
  (forall i ui ui' running,
     game_ok (game ui) -> run_frame i ui = Some (running, ui') ->
     score_manager (game ui') = score_manager (game ui) \/
     (state (game ui') = GAME_OVER /\
      (exists b ui1,
         handle_events_ui (frame_events i) (frame_mouse_pos i) ui = Some (b, ui1) /\
         state (game ui1) = PLAYING /\
         score_manager (game ui1) = score_manager (game ui) /\
         update_game_logic (frame_now i) (game ui1) = Some (game ui')) /\
      exists fs,
        final_score (current_difficulty (game ui')) (game_score (game ui')) = Some fs /\
        is_high_score (current_difficulty (game ui')) fs (score_manager (game ui)) = true /\
        score_manager (game ui')
        = snd (add_score (current_difficulty (game ui')) fs "Player" (frame_now i)
                 (score_manager (game ui))))) /\
  (forall events p ui b ui1,
     game_ok (game ui) -> handle_events_ui events p ui = Some (b, ui1) ->
     score_manager (game ui1) = score_manager (game ui)) /\
  (forall mouse g g',
     game_ok g -> draw mouse g = Some g' -> score_manager g' = score_manager g).
Proof.
  split; [| split; [| split]].
  - intros scores r inputs ui' Hok Hrun.
    exact (run_table_ok inputs (UI_init scores r) ui' (SnakeGame_init_ok scores r) Hrun Hok).
  - intros i ui ui' running H Hf. exact (run_frame_scores i ui ui' running H Hf).
  - intros events p ui b ui1 H He.
    destruct (handle_events_ui_ok events p ui H) as [b' [ui2 [He' [_ Hs]]]].
    rewrite He in He'. injection He' as <- <-. exact Hs.
  - intros mouse g g' H Hd.
    destruct (draw_ok mouse g H) as [g2 [Hd' [_ [_ [Hs _]]]]].
    rewrite Hd in Hd'. injection Hd' as <-. exact Hs.
Qed.

(** X10. A tick ends the game exactly when the new head is outside the
    grid or on a cell of the body as it is after the tail was removed
    (the whole old body when growth was pending). Otherwise play goes
    on with the head on the new cell; the raw score grows by 10 exactly
    when that cell is the food cell, and is unchanged at game over. *)
Theorem game_ends_iff_collision (now : string) (g : SnakeGame) (s : Snake) (f : Food)
    (h : Cell) :
  game_ok g -> state g = PLAYING -> snake g = Some s -> food g = Some f ->
  new_head s = Some h ->
  let rest := if grow_pending s then positions s else removelast (positions s) in
  exists g',
    update_game_logic now g = Some g' /\
    (state g' = GAME_OVER <-> in_grid h = false \/ In h rest) /\
    (state g' = GAME_OVER -> game_score g' = game_score g) /\
    (state g' <> GAME_OVER ->
     state g' = PLAYING /\
     (exists s', snake g' = Some s' /\ positions s' = h :: rest) /\
     game_score g' = game_score g + (if cell_eqb h (position f) then 10 else 0)).
Proof.
  intros H Hst Hs Hf Hh rest. pose proof H as [Hsc _].
  destruct (update_game_logic_playing now g s h H Hst Hs Hh)
    as [s' [f1 [Hm [Hf1 [Hp Heq]]]]].
  rewrite Hf in Hf1. injection Hf1 as <-. fold rest in Hp, Heq. cbv zeta in Heq.
  rewrite Heq. clear Heq.
  set (g1 := set_food (Food_update f) (set_snake s' g)).
  assert (Hcol : negb (in_grid h) || cell_in h rest = true
                 <-> in_grid h = false \/ In h rest).
  { rewrite orb_true_iff, negb_true_iff, cell_in_In. tauto. }
  destruct (negb (in_grid h) || cell_in h rest) eqn:Hc.
  - destruct (handle_game_over_ok now g1 Hsc)
      as (g2 & fs & Hgo & _ & Hst2 & _ & _ & Hsc2 & _).
    exists g2. split; [exact Hgo |]. split; [| split].
    + split; [intros _; now apply Hcol | intros _; exact Hst2].
    + intros _. exact Hsc2.
    + intros Hne. contradiction.
  - assert (Hno : ~ (in_grid h = false \/ In h rest)).
    { intros Hx. apply Hcol in Hx. discriminate. }
    change (position (Food_update f)) with (position f).
    destruct (cell_eqb h (position f)) eqn:Heat.
    + rewrite (handle_food_eaten_eq g1 s' (Food_update f) eq_refl eq_refl).
      eexists. split; [reflexivity |]. cbn [state game_score snake].
      change (state g1) with (state g). change (game_score g1) with (game_score g).
      rewrite Hst. split; [| split].
      * split; [discriminate | intros Hx; contradiction].
      * discriminate.
      * intros _. split; [reflexivity |]. split; [| reflexivity].
        eexists. split; [reflexivity |]. exact Hp.
    + exists g1. split; [reflexivity |].
      change (state g1) with (state g). change (game_score g1) with (game_score g).
      rewrite Hst. split; [| split].
      * split; [discriminate | intros Hx; contradiction].
      * discriminate.
      * intros _. split; [reflexivity |]. split; [| lia].
        exists s'. split; [reflexivity | exact Hp].
Qed.

Lemma game_ends_iff_collision_witness :
  let s := mkSnake [(34, 13); (33, 13)] (1, 0) false [5; 4] 5 5 in
  let g := mkGame PLAYING "EASY" (Some s) (Some (mkFood (2, 2) 7)) 10 ∅
             (mkAudio true []) "MEDIUM" (mkRng (fun _ => 0) 0) in
  exists g', update_game_logic "2024-01-01 10:00" g = Some g' /\ state g' = GAME_OVER.
Proof.
  intros s g.
  assert (Hok : game_ok g).
  { split; [vm_compute; split; discriminate |]. split.
    - intros s0 [= <-]. split; [discriminate |]. split; [reflexivity |]. left. reflexivity.
    - intros _. exists s, (mkFood (2, 2) 7). split; [reflexivity |]. split; [reflexivity |].
      split; [| split; reflexivity]. split.
      + apply NoDup_ListNoDup. repeat (constructor; [simpl; intuition congruence |]).
        constructor.
      + repeat constructor. }
  destruct (game_ends_iff_collision "2024-01-01 10:00" g s (mkFood (2, 2) 7) (35, 13)
              Hok eq_refl eq_refl eq_refl eq_refl) as [g' [Hu [Hiff _]]].
  exists g'. split; [exact Hu |]. apply Hiff. left. reflexivity.
Defined.

(** ** Events *)

Lemma handle_keyboard_input_false (key : Key) (g g' : SnakeGame) :
  handle_keyboard_input key g = Some (false, g') <->
  state g = MENU /\ key = K_ESCAPE /\ g' = g.
Proof.
  unfold handle_keyboard_input. split.
  - destruct (state g) eqn:Hst; destruct key; try discriminate;
      try (intros [= <-]; auto);
      unfold game_change_direction; destruct (snake g); simpl;
      try discriminate; destruct (change_direction _ _ _); discriminate.
  - intros (-> & -> & ->). reflexivity.
Qed.

Lemma handle_button_clicks_key (key : Key) (g : SnakeGame) :
  handle_button_clicks (EV_KEYDOWN key) g = (true, g).
Proof. apply (handle_button_clicks_cases (EV_KEYDOWN key) g). reflexivity. Qed.

Lemma handle_button_clicks_other (g : SnakeGame) :
  handle_button_clicks EV_OTHER g = (true, g).
Proof. apply (handle_button_clicks_cases EV_OTHER g). reflexivity. Qed.

Lemma handle_button_clicks_false (event : PygameEvent) (g g' : SnakeGame) :
  handle_button_clicks event g = (false, g') <->
  state g = MENU /\ button_hit quit_button event = true /\ g' = click g.
Proof.
  split.
  - unfold handle_button_clicks.
    destruct (state g) eqn:Hst;
      repeat (rewrite press_eq;
              match goal with
              | |- context [button_hit ?b event] => destruct (button_hit b event) eqn:?
              end; cbv beta iota);
      try discriminate.
    intros [= <-]. auto.
  - intros (Hst & Hq & ->).
    destruct (handle_button_clicks_cases event g) as [_ H].
    rewrite Hst in H. rewrite (H quit_button ltac:(repeat constructor) Hq). reflexivity.
Qed.

(** X11. One event stops the main loop exactly when it is a QUIT event,
    the Escape key on the main menu, or a left click on the QUIT button
    of the main menu; in no other state can a key or a click end the
    program. *)
Theorem loop_stops_only_on_quit (event : PygameEvent) (g : SnakeGame) :
  (exists g', handle_event_loop [event] g = Some (false, g')) <->
  event = EV_QUIT \/
  (state g = MENU /\
   (event = EV_KEYDOWN K_ESCAPE \/ button_hit quit_button event = true)).
Proof.
  destruct event as [| key | button pos |]; cbn [handle_event_loop].
  - split; [auto | intros _; eauto].
  - split.
    + intros [g' H]. right.
      destruct (handle_keyboard_input key g) as [[[] g1] |] eqn:Hk; [| | discriminate].
      * rewrite handle_button_clicks_key in H. discriminate.
      * apply handle_keyboard_input_false in Hk. destruct Hk as (Hst & -> & _). auto.
    + intros [H | [Hst [H | H]]]; [discriminate | | discriminate].
      injection H as ->. exists g.
      rewrite (proj2 (handle_keyboard_input_false K_ESCAPE g g)) by auto. reflexivity.
  - split.
    + intros [g' H]. right.
      destruct (handle_button_clicks (EV_MOUSEBUTTONDOWN button pos) g) as [[] g2] eqn:Hc;
        [discriminate |].
      apply handle_button_clicks_false in Hc. destruct Hc as (Hst & Hq & _). auto.
    + intros [H | [Hst [H | H]]]; [discriminate | discriminate |].
      exists (click g).
      rewrite (proj2 (handle_button_clicks_false _ g (click g))) by auto. reflexivity.
  - rewrite handle_button_clicks_other. split.
    + intros [g' H]. discriminate.
    + intros [H | [_ [H | H]]]; discriminate.
Qed.

Lemma start_new_game_fresh (g : SnakeGame) :
  state (start_new_game g) = PLAYING /\
  snake (start_new_game g) = Some Snake_init /\
  game_score (start_new_game g) = 0 /\
  current_difficulty (start_new_game g) = current_difficulty g /\
  exists p, food (start_new_game g) = Some (mkFood p 0) /\ in_grid p = true.
Proof.
  unfold start_new_game, Food_init.
  pose proof (generate_position_in_grid (rng g)) as Hp.
  destruct (generate_position (rng g)) as [p r']. simpl in *.
  repeat split. eauto.
Qed.

(** What it takes to be a session that has just started. *)
Lemma fresh_session_keyboard (key : Key) (g g' : SnakeGame) (b : bool) :
  handle_keyboard_input key g = Some (b, g') ->
  state g <> PLAYING -> state g' = PLAYING ->
  g' = start_new_game g.
Proof.
  unfold handle_keyboard_input. intros H Hne Hst.
  destruct (state g) eqn:E; try congruence;
    destruct key; injection H as <- <-; try reflexivity; simpl in Hst;
    try congruence.
Qed.

Lemma fresh_session_click (event : PygameEvent) (g g' : SnakeGame) (b : bool) :
  handle_button_clicks event g = (b, g') ->
  state g <> PLAYING -> state g' = PLAYING ->
  exists g0, g' = start_new_game g0.
Proof.
  unfold handle_button_clicks. intros H Hne Hst.
  destruct (state g) eqn:E; try congruence;
    revert H;
    repeat (rewrite press_eq;
            match goal with
            | |- context [button_hit ?bt event] => destruct (button_hit bt event)
            end; cbv beta iota);
    intros [= <- <-]; simpl in Hst; try congruence; eauto.
Qed.

(** X12. Play cannot be resumed: whenever one event takes the program
    from another state into PLAYING, the session is a new one, with the
    one-segment snake in the centre moving right, raw score 0 and a
    food on a cell of the grid. Leaving play with Escape therefore
    gives the session up. *)
Theorem play_starts_fresh (event : PygameEvent) (g g' : SnakeGame) (b : bool) :
  handle_event_loop [event] g = Some (b, g') ->
  state g <> PLAYING -> state g' = PLAYING ->
  snake g' = Some Snake_init /\ game_score g' = 0 /\
  exists p, food g' = Some (mkFood p 0) /\ in_grid p = true.
Proof.
  intros H Hne Hst.
  assert (Hfresh : exists g0, g' = start_new_game g0).
  { destruct event as [| key | button pos |]; cbn [handle_event_loop] in H.
    - injection H as <- <-. congruence.
    - destruct (handle_keyboard_input key g) as [[[] g1] |] eqn:Hk; [| | discriminate].
      + rewrite handle_button_clicks_key in H. injection H as <- <-.
        exists g. exact (fresh_session_keyboard key g g1 true Hk Hne Hst).
      + injection H as <- <-. apply handle_keyboard_input_false in Hk.
        destruct Hk as (_ & _ & ->). congruence.
    - destruct (handle_button_clicks (EV_MOUSEBUTTONDOWN button pos) g) as [c g2] eqn:Hc.
      assert (g' = g2) by (destruct c; congruence). subst g2.
      exact (fresh_session_click _ g g' c Hc Hne Hst).
    - rewrite handle_button_clicks_other in H. injection H as <- <-. congruence. }
  destruct Hfresh as [g0 ->].
  destruct (start_new_game_fresh g0) as (_ & Hs & Hsc & _ & Hf). auto.
Qed.

Lemma play_starts_fresh_witness :
  let g := mkGame DIFFICULTY_SELECT "MEDIUM"
             (Some (mkSnake [(3, 3); (2, 3)] (1, 0) false [1; 1] 1 1))
             (Some (mkFood (9, 9) 4)) 10 ∅ (mkAudio true []) "MEDIUM"
             (mkRng (fun _ => 40) 0) in
  exists g', handle_event_loop [EV_MOUSEBUTTONDOWN 1 (700, 320)] g = Some (true, g') /\
    current_difficulty g' = "HARD"%string /\ snake g' = Some Snake_init /\
    game_score g' = 0.
Proof.
  intros g.
  destruct (handle_event_loop [EV_MOUSEBUTTONDOWN 1 (700, 320)] g) as [[b g'] |] eqn:H;
    [| vm_compute in H; discriminate].
  assert (Hb : b = true /\ state g' = PLAYING /\ current_difficulty g' = "HARD"%string).
  { vm_compute in H. injection H as <- <-. repeat split. }
  destruct Hb as (-> & Hst & Hd).
  destruct (play_starts_fresh _ g g' true H ltac:(discriminate) Hst) as (Hs & Hsc & _).
  exists g'. auto.
Defined.

(** X13. On every screen a left click acts on the button under the
    pointer and on no other: when a button of the screen is hit, the
    click sound is played and that button's action is carried out,
    whatever its place in the chain of tests; when none is hit, or the
    game is being played, the event changes nothing. *)
Theorem click_acts_on_the_button_hit (event : PygameEvent) (g : SnakeGame) :
  ((forall b, b ∈ buttons_by_state (state g) -> button_hit b event = false) ->
   handle_button_clicks event g = (true, g)) /\
  (forall b, b ∈ buttons_by_state (state g) -> button_hit b event = true ->
   handle_button_clicks event g = button_action (state g) b (click g)) /\
  (state g = PLAYING -> handle_button_clicks event g = (true, g)).
Proof.
  destruct (handle_button_clicks_cases event g) as [H1 H2].
  split; [exact H1 |]. split; [exact H2 |].
  intros Hst. apply H1. rewrite Hst. intros b Hb. now apply elem_of_nil in Hb.
Qed.

Lemma tab_rect_bounds (i : Z) (p : Z * Z) :
  collidepoint (tab_rect i) p = true <->
  200 + i * 200 <= fst p < 400 + i * 200 /\ 130 <= snd p < 180.
Proof.
  unfold tab_rect. rewrite collidepoint_bounds.
  change GameConfig.WINDOW_WIDTH with 1000. change (1000 `div` 2) with 500. lia.
Qed.

(** X14. The layout of the screens: every button lies inside the
    1000 x 700 window, no two buttons of one screen overlap, and the
    three leaderboard tabs do not overlap either; so a pointer position
    selects at most one button and at most one tab. *)
Theorem buttons_layout :
  (forall b, in_window (button_rect b)) /\
  (forall st b1 b2 p,
     b1 ∈ buttons_by_state st -> b2 ∈ buttons_by_state st ->
     collidepoint (button_rect b1) p = true -> collidepoint (button_rect b2) p = true ->
     b1 = b2) /\
  (forall i j p,
     collidepoint (tab_rect i) p = true -> collidepoint (tab_rect j) p = true -> i = j).
Proof.
  split; [| split].
  - intros b. destruct b; vm_compute; repeat split; discriminate.
  - exact buttons_disjoint.
  - intros i j p Hi Hj. apply tab_rect_bounds in Hi. apply tab_rect_bounds in Hj. lia.
Qed.

(** X15. The keyboard-only event loop is the full event loop seen
    through key and QUIT events: on such events [_handle_events] does
    what the keyboard handler alone does, the buttons never react. *)
Theorem keyboard_events_refine (events : list Event) (g : SnakeGame) :
  handle_event_loop (to_pygame <$> events) g = handle_events events g.
Proof.
  revert g. induction events as [| e rest IH]; intros g; [reflexivity |].
  destruct e as [| key]; [reflexivity |].
  cbn [fmap list_fmap to_pygame handle_event_loop handle_events].
  change (list_fmap Event PygameEvent to_pygame rest) with (to_pygame <$> rest).
  destruct (handle_keyboard_input key g) as [[[] g1] |]; [| reflexivity | reflexivity].
  rewrite handle_button_clicks_key. apply IH.
Qed.

Lemma handle_event_loop_mouse_playing (events : list PygameEvent) (g : SnakeGame) :
  state g = PLAYING -> Forall mouse_or_other events ->
  handle_event_loop events g = Some (true, g).
Proof.
  intros Hst H. induction H as [| event rest He _ IH]; [reflexivity |].
  destruct event; try contradiction; cbn [handle_event_loop].
  - destruct (handle_button_clicks_cases (EV_MOUSEBUTTONDOWN button pos) g) as [H1 _].
    rewrite H1; [exact IH |]. rewrite Hst. intros b Hb. now apply elem_of_nil in Hb.
  - rewrite handle_button_clicks_other. exact IH.
Qed.

(** X16. While the game is being played the mouse does nothing: a
    turn's events that are mouse clicks or of other types, wherever the
    pointer is, leave the controller and every hover flag exactly as
    they were (the audio button that is drawn on the game screen does
    not react). *)
Theorem mouse_ignored_while_playing (events : list PygameEvent) (p : Z * Z) (ui : UI) :
  state (game ui) = PLAYING -> Forall mouse_or_other events ->
  handle_events_ui events p ui = Some (true, ui).
Proof.
  intros Hst H. unfold handle_events_ui.
  rewrite (handle_event_loop_mouse_playing events (game ui) Hst H).
  unfold update_button_hovers. cbn [game]. rewrite Hst. destruct ui. reflexivity.
Qed.

Lemma mouse_ignored_while_playing_witness :
  let ui := mkUI (start_new_game (SnakeGame_init ∅ (mkRng (fun _ => 0) 0)))
                 (fun _ => false) in
  handle_events_ui [EV_MOUSEBUTTONDOWN 1 (880, 640); EV_OTHER] (880, 640) ui
  = Some (true, ui).
Proof.
  intros ui. apply mouse_ignored_while_playing.
  - reflexivity.
  - repeat constructor.
Defined.

(** ** Hover *)

Lemma Button_update_flags (b b' : ButtonId) (p : Z * Z) (ui : UI) :
  is_hovered (Button_update b p ui) b'
  = if bool_decide (b' = b) then collidepoint (button_rect b) p else is_hovered ui b'.
Proof. reflexivity. Qed.

(** After the update of a list of buttons, each of them carries the
    flag of the pointer position and the others keep theirs. *)
Lemma update_buttons_flags (bs : list ButtonId) (p : Z * Z) (ui : UI) (b : ButtonId) :
  is_hovered (fold_left (fun u b0 => Button_update b0 p u) bs ui) b
  = if bool_decide (b ∈ bs) then collidepoint (button_rect b) p else is_hovered ui b.
Proof.
  revert ui. induction bs as [| b0 bs IH]; intros ui; [reflexivity |].
  cbn [fold_left]. rewrite IH, Button_update_flags.
  destruct (decide (b ∈ bs)) as [Hin | Hnin].
  - rewrite bool_decide_eq_true_2 by assumption.
    rewrite bool_decide_eq_true_2 by (now right). reflexivity.
  - rewrite (bool_decide_eq_false_2 (b ∈ bs)) by assumption.
    destruct (decide (b = b0)) as [-> | Hne].
    + rewrite bool_decide_eq_true_2 by reflexivity.
      rewrite bool_decide_eq_true_2 by left. reflexivity.
    + rewrite bool_decide_eq_false_2 by assumption.
      rewrite bool_decide_eq_false_2; [reflexivity |].
      intros H. apply elem_of_cons in H. tauto.
Qed.

(** Buttons whose flags already agree with the pointer play no sound. *)
Lemma update_buttons_settled (bs : list ButtonId) (p : Z * Z) (ui : UI) :
  (forall b, b ∈ bs -> is_hovered ui b = collidepoint (button_rect b) p) ->
  game (fold_left (fun u b0 => Button_update b0 p u) bs ui) = game ui.
Proof.
  revert ui. induction bs as [| b0 bs IH]; intros ui H; [reflexivity |].
  cbn [fold_left]. rewrite IH.
  - unfold Button_update. cbn [game]. rewrite (H b0) by left.
    rewrite andb_negb_r. apply set_audio_same.
  - intros b Hb. rewrite Button_update_flags.
    destruct (bool_decide (b = b0)) eqn:E; [| apply H; now right].
    apply bool_decide_eq_true in E. now subst.
Qed.

(** Buttons that the pointer does not enter play no sound. *)
Lemma update_buttons_quiet (bs : list ButtonId) (p : Z * Z) (ui : UI) :
  (forall b, b ∈ bs -> collidepoint (button_rect b) p && negb (is_hovered ui b) = false) ->
  game (fold_left (fun u b0 => Button_update b0 p u) bs ui) = game ui.
Proof.
  revert ui. induction bs as [| b0 bs IH]; intros ui H; [reflexivity |].
  cbn [fold_left]. rewrite IH.
  - unfold Button_update. cbn [game]. rewrite (H b0) by left. apply set_audio_same.
  - intros b Hb. rewrite Button_update_flags.
    destruct (bool_decide (b = b0)) eqn:E; [| apply H; now right].
    apply bool_decide_eq_true in E. subst b. apply andb_negb_r.
Qed.

(** The one button that the pointer enters plays the hover sound once. *)
Lemma update_buttons_enter (bs : list ButtonId) (p : Z * Z) (ui : UI) (b : ButtonId) :
  b ∈ bs -> collidepoint (button_rect b) p = true -> is_hovered ui b = false ->
  (forall b', b' ∈ bs -> b' <> b -> collidepoint (button_rect b') p = false) ->
  game (fold_left (fun u b0 => Button_update b0 p u) bs ui)
  = set_audio (play_sound "button_hover" (audio_manager (game ui))) (game ui).
Proof.
  revert ui. induction bs as [| b0 bs IH]; intros ui Hin Hc Hf Hothers.
  - now apply elem_of_nil in Hin.
  - cbn [fold_left]. destruct (decide (b0 = b)) as [-> | Hne].
    + rewrite update_buttons_quiet.
      * unfold Button_update. cbn [game]. rewrite Hc, Hf. reflexivity.
      * intros b' Hb'. rewrite Button_update_flags.
        destruct (decide (b' = b)) as [-> | Hne'].
        -- rewrite bool_decide_eq_true_2 by reflexivity. apply andb_negb_r.
        -- rewrite (Hothers b') by (auto; now right). reflexivity.
    + apply elem_of_cons in Hin. destruct Hin as [-> | Hin]; [congruence |].
      rewrite (IH (Button_update b0 p ui) Hin Hc).
      * unfold Button_update. cbn [game]. rewrite (Hothers b0) by (auto; left).
        cbn [andb]. now rewrite set_audio_same.
      * rewrite Button_update_flags. rewrite bool_decide_eq_false_2 by congruence. exact Hf.
      * intros b' Hb' Hnb. apply Hothers; [now right | exact Hnb].
Qed.

(** X17. The hover sound is played when the pointer enters a button,
    not while it rests there. When the pointer is inside a button of
    the screen whose flag was off, the update plays "button_hover" once
    and changes nothing else of the controller; when every button under
    the pointer had its flag on already, the controller is unchanged.
    Updating the hover states a second time with the pointer at the
    same place changes neither the controller (no sound is added) nor
    any flag. After an update the flag of each button of the screen
    says whether the pointer is inside it. *)
Theorem hover_sound_only_on_entering (p : Z * Z) (ui : UI) :
  let ui1 := update_button_hovers p ui in
  let ui2 := update_button_hovers p ui1 in
  game ui2 = game ui1 /\
  (forall b, is_hovered ui2 b = is_hovered ui1 b) /\
  (forall b, b ∈ buttons_by_state (state (game ui)) ->
     is_hovered ui1 b = collidepoint (button_rect b) p) /\
  (forall b, b ∈ buttons_by_state (state (game ui)) ->
     collidepoint (button_rect b) p = true -> is_hovered ui b = false ->
     game ui1 = set_audio (play_sound "button_hover" (audio_manager (game ui))) (game ui)) /\
  ((forall b, b ∈ buttons_by_state (state (game ui)) ->
      collidepoint (button_rect b) p = true -> is_hovered ui b = true) ->
   game ui1 = game ui).
Proof.
  intros ui1 ui2.
  assert (Hst : state (game ui1) = state (game ui)).
  { destruct (update_button_hovers_game p ui) as [H _]. exact H. }
  assert (Hflags : forall b, b ∈ buttons_by_state (state (game ui)) ->
                             is_hovered ui1 b = collidepoint (button_rect b) p).
  { intros b Hb. unfold ui1, update_button_hovers. rewrite update_buttons_flags.
    now rewrite bool_decide_eq_true_2. }
  split; [| split; [| split; [exact Hflags | split]]].
  - unfold ui2, update_button_hovers. rewrite Hst.
    apply update_buttons_settled. exact Hflags.
  - intros b. unfold ui2, update_button_hovers. rewrite Hst, update_buttons_flags.
    destruct (decide (b ∈ buttons_by_state (state (game ui)))) as [Hin | Hnin].
    + rewrite bool_decide_eq_true_2 by assumption. symmetry. now apply Hflags.
    + now rewrite bool_decide_eq_false_2.
  - intros b Hb Hc Hf. unfold ui1, update_button_hovers.
    apply (update_buttons_enter _ p ui b Hb Hc Hf).
    intros b' Hb' Hne. destruct (collidepoint (button_rect b') p) eqn:E; [| reflexivity].
    exfalso. apply Hne. exact (buttons_disjoint _ b' b p Hb' Hb E Hc).
  - intros H. unfold ui1, update_button_hovers. apply update_buttons_quiet.
    intros b Hb. destruct (collidepoint (button_rect b) p) eqn:E; [| reflexivity].
    rewrite (H b Hb E). reflexivity.
Qed.

(** ** Pixels *)

(** X18. The grid fills the game area exactly: a cell is in the grid if
    and only if its centre pixel, where the food and the particle
    effects are drawn, is inside the game area, and if and only if its
    whole 20 x 20 square is. Distinct cells have distinct pixels. *)
Theorem grid_fills_game_area (c c' : Cell) :
  (in_grid c = true <-> collidepoint game_area (cell_center c) = true) /\
  (in_grid c = true <->
     collidepoint game_area (cell_screen c) = true /\
     collidepoint game_area
       (fst (cell_screen c) + GameConfig.GRID_SIZE - 1,
        snd (cell_screen c) + GameConfig.GRID_SIZE - 1) = true) /\
  (cell_screen c = cell_screen c' -> c = c').
Proof.
  destruct c as [x y], c' as [x' y'].
  rewrite in_grid_bounds, !collidepoint_bounds.
  unfold game_area, cell_center, cell_screen. cbn [fst snd].
  change GameConfig.GAME_AREA_X with 150. change GameConfig.GAME_AREA_Y with 80.
  change GameConfig.GAME_AREA_WIDTH with 700. change GameConfig.GAME_AREA_HEIGHT with 540.
  change GameConfig.GRID_SIZE with 20. change GameConfig.GRID_WIDTH with 35.
  change GameConfig.GRID_HEIGHT with 27. change (20 `div` 2) with 10.
  split; [lia |]. split; [lia |].
  intros [= H1 H2]. f_equal; lia.
Qed.

(** ** The keyboard frame and the loop *)

Lemma update_button_hovers_away (p : Z * Z) (ui : UI) :
  (forall b, collidepoint (button_rect b) p = false) ->
  game (update_button_hovers p ui) = game ui.
Proof.
  intros H. unfold update_button_hovers.
  generalize (buttons_by_state (state (game ui))). intros bs. revert ui.
  induction bs as [| b bs IH]; intros ui; [reflexivity |].
  cbn [fold_left]. rewrite IH. unfold Button_update. cbn [game]. rewrite H.
  apply set_audio_same.
Qed.

Lemma draw_not_pressed (mouse : Z -> (Z * Z) * bool) (g g' : SnakeGame) :
  (forall i, snd (mouse i) = false) -> draw mouse g = Some g' -> g' = g.
Proof.
  intros H. unfold draw.
  destruct (state g).
  - congruence.
  - congruence.
  - destruct (draw_game g); simpl; congruence.
  - destruct (draw_game g); simpl; [| discriminate].
    destruct (draw_game_over g); simpl; congruence.
  - unfold draw_leaderboard_tabs. cbn [fold_left]. rewrite !H, !andb_false_r. congruence.
Qed.

(** X19. The keyboard frame used for the game rules is what the main
    loop does on key and QUIT events when the pointer is over no button
    and the mouse button is not held down: a turn of the loop that
    completes leaves exactly the controller that the keyboard frame
    computes, with the same [running] flag. *)
Theorem keyboard_frame_refines (events : list Event) (now : string) (p : Z * Z)
    (mouse : Z -> (Z * Z) * bool) (ui ui' : UI) (running : bool) :
  (forall b, collidepoint (button_rect b) p = false) ->
  (forall i, snd (mouse i) = false) ->
  run_frame (mkInput (to_pygame <$> events) p mouse now) ui = Some (running, ui') ->
  frame events now (game ui) = Some (running, game ui').
Proof.
  intros Hp Hm H. unfold run_frame, handle_events_ui in H. cbn [frame_events
    frame_mouse_pos frame_draw_mouse frame_now] in H.
  rewrite keyboard_events_refine in H. unfold frame.
  destruct (handle_events events (game ui)) as [[b g1] |]; [| discriminate].
  assert (Hg : forall u, (if b then Some (true, update_button_hovers p (mkUI g1 (is_hovered ui)))
                          else Some (false, mkUI g1 (is_hovered ui))) = Some u ->
                         fst u = b /\ game (snd u) = g1).
  { intros u Hu. destruct b; injection Hu as <-; cbn [fst snd game]; split; try reflexivity.
    now rewrite update_button_hovers_away. }
  destruct b.
  - destruct (Hg _ eq_refl) as [_ Hg1]. cbn [snd] in Hg1. rewrite Hg1 in H.
    destruct (update_game_logic now g1) as [g2 |]; [| discriminate].
    cbn [mbind option_bind] in *.
    destruct (draw mouse g2) as [g3 |] eqn:Hd; [| discriminate].
    cbn [mbind option_bind] in H. injection H as <- <-.
    now rewrite (draw_not_pressed mouse g2 g3 Hm Hd).
  - cbn [game] in H.
    destruct (update_game_logic now g1) as [g2 |]; [| discriminate].
    cbn [mbind option_bind] in *.
    destruct (draw mouse g2) as [g3 |] eqn:Hd; [| discriminate].
    cbn [mbind option_bind] in H. injection H as <- <-.
    now rewrite (draw_not_pressed mouse g2 g3 Hm Hd).
Qed.

Lemma keyboard_frame_refines_witness :
  let ui := UI_init ∅ (mkRng (fun _ => 0) 0) in
  exists g', frame [KEYDOWN K_l] "2024-01-01 10:00" (game ui) = Some (true, g') /\
             state g' = LEADERBOARD.
Proof.
  intros ui.
  destruct (run_frame (mkInput (to_pygame <$> [KEYDOWN K_l]) (0, 0)
                         (fun _ => ((0, 0), false)) "2024-01-01 10:00") ui)
    as [[b ui'] |] eqn:H; [| vm_compute in H; discriminate].
  assert (Hb : b = true /\ state (game ui') = LEADERBOARD).
  { vm_compute in H. injection H as <- <-. split; reflexivity. }
  destruct Hb as [-> Hst].
  exists (game ui'). split; [| exact Hst].
  apply (keyboard_frame_refines [KEYDOWN K_l] "2024-01-01 10:00" (0, 0)
           (fun _ => ((0, 0), false)) ui ui' true).
  - intros bt. destruct bt; reflexivity.
  - reflexivity.
  - exact H.
Defined.

(** ** The final score in integers *)

Lemma get_config_EASY : get_config "EASY" = EASY_config.
Proof. unfold get_config, DIFFICULTIES. now rewrite lookup_insert_eq. Qed.

Lemma get_config_HARD : get_config "HARD" = HARD_config.
Proof.
  unfold get_config, DIFFICULTIES.
  rewrite !lookup_insert_ne by discriminate. now rewrite lookup_insert_eq.
Qed.

Lemma get_config_unknown (d : string) :
  d <> "EASY"%string -> d <> "MEDIUM"%string -> d <> "HARD"%string ->
  get_config d = MEDIUM_config.
Proof.
  intros H1 H2 H3. unfold get_config, DIFFICULTIES.
  rewrite !lookup_insert_ne by congruence. now rewrite lookup_empty.
Qed.

Lemma Qfloor_scaled (raw n d k : Z) :
  0 < k -> 0 < d ->
  Qfloor (inject_Z raw * Qmake (n * k) (Z.to_pos (d * k))) = (raw * n) / d.
Proof.
  intros Hk Hd. unfold Qfloor, Qmult, inject_Z. cbn [Qnum Qden].
  rewrite Pos.mul_1_l, Z2Pos.id by lia.
  rewrite Z.mul_assoc. apply Z.div_mul_cancel_r; lia.
Qed.

(** X20. For every raw score a session can reach (0 to 9450) the final
    score is an exact integer function of the raw score: the raw score
    itself on EASY, three halves of it rounded down on MEDIUM, twice it
    on HARD; a difficulty name that is none of the three is scored as
    MEDIUM. So the final score is never below the raw score and grows
    with it. *)
Theorem final_score_in_integers (d : string) (raw : Z) :
  0 <= raw <= MAX_RAW_SCORE ->
  final_score "EASY" raw = Some raw /\
  final_score "MEDIUM" raw = Some (3 * raw / 2) /\
  final_score "HARD" raw = Some (2 * raw) /\
  (d <> "EASY"%string -> d <> "MEDIUM"%string -> d <> "HARD"%string ->
   final_score d raw = Some (3 * raw / 2)) /\
  (exists fs, final_score d raw = Some fs /\ raw <= fs <= 2 * raw).
Proof.
  intros Hr.
  assert (HE : final_score "EASY" raw = Some raw).
  { rewrite (final_score_floor "EASY" raw Hr), get_config_EASY.
    change (float_value (multiplier EASY_config))
      with (Qmake (1 * 4503599627370496) (Z.to_pos (1 * 4503599627370496))).
    rewrite Qfloor_scaled by lia. f_equal. rewrite Z.div_1_r. lia. }
  assert (HM : forall d0, get_config d0 = MEDIUM_config ->
                          final_score d0 raw = Some (3 * raw / 2)).
  { intros d0 Hd0. rewrite (final_score_floor d0 raw Hr), Hd0.
    change (float_value (multiplier MEDIUM_config))
      with (Qmake (3 * 2251799813685248) (Z.to_pos (2 * 2251799813685248))).
    rewrite Qfloor_scaled by lia. do 2 f_equal. lia. }
  assert (HH : final_score "HARD" raw = Some (2 * raw)).
  { rewrite (final_score_floor "HARD" raw Hr), get_config_HARD.
    change (float_value (multiplier HARD_config))
      with (Qmake (2 * 2251799813685248) (Z.to_pos (1 * 2251799813685248))).
    rewrite Qfloor_scaled by lia. f_equal. rewrite Z.div_1_r. lia. }
  split; [exact HE |]. split; [exact (HM _ get_config_MEDIUM) |]. split; [exact HH |].
  split.
  - intros H1 H2 H3. apply HM. now apply get_config_unknown.
  - assert (Hmid : raw <= 3 * raw / 2 <= 2 * raw).
    { split.
      - apply Z.div_le_lower_bound; lia.
      - apply Z.div_le_upper_bound; lia. }
    destruct (decide (d = "EASY")) as [-> | H1]; [exists raw; split; [exact HE | lia] |].
    destruct (decide (d = "HARD")) as [-> | H3]; [exists (2 * raw); split; [exact HH | lia] |].
    exists (3 * raw / 2). split; [| exact Hmid].
    destruct (decide (d = "MEDIUM")) as [-> | H2]; [exact (HM _ get_config_MEDIUM) |].
    apply HM. now apply get_config_unknown.
Qed.

Lemma final_score_in_integers_witness :
  final_score "MEDIUM" 50 = Some 75 /\ final_score "NORMAL" 50 = Some 75.
Proof.
  destruct (final_score_in_integers "NORMAL" 50) as (_ & HM & _ & HU & _);
    [vm_compute; split; discriminate |].
  split; [exact HM |]. apply HU; discriminate.
Defined.

(** ** Food and direction *)

Lemma respawn_loop_rng (n : nat) (ps : list Cell) (f : Food) (r : Rng) :
  draws (snd (respawn_loop n ps f r)) = draws r /\
  exists k, (k <= n)%nat /\
            cursor (snd (respawn_loop n ps f r)) = (2 * k + cursor r)%nat.
Proof.
  revert r. induction n as [| n IH]; intros r.
  - split; [reflexivity |]. exists 0%nat. split; [lia | reflexivity].
  - rewrite respawn_loop_S. destruct (negb (cell_in (sample r 0) ps)).
    + split; [reflexivity |]. exists 1%nat. split; [lia | reflexivity].
    + destruct (IH (skip 2 r)) as [Hd [k [Hk Hc]]].
      split; [exact Hd |]. exists (S k). split; [lia |]. rewrite Hc. simpl. lia.
Qed.

(** X21. [Food.respawn] never moves the food onto the snake: whatever
    the draws, the food afterwards is where it was or on a free cell of
    the grid. Its frame counter is untouched, and the call consumes two
    draws per sample, at most 200. *)
Theorem respawn_never_onto_body (ps : list Cell) (f : Food) (r : Rng) :
  let f' := fst (respawn ps f r) in
  let r' := snd (respawn ps f r) in
  (position f' = position f \/
   (cell_in (position f') ps = false /\ in_grid (position f') = true)) /\
  animation_frame f' = animation_frame f /\
  draws r' = draws r /\
  exists k, (k <= 100)%nat /\ cursor r' = (2 * k + cursor r)%nat.
Proof.
  intros f' r'. destruct (respawn_cases ps f r) as [Ha Hp].
  destruct (respawn_loop_rng 100 ps f r) as [Hd Hk].
  split; [exact Hp |]. split; [exact Ha |]. split; [exact Hd | exact Hk].
Qed.

(** X22. [Food.respawn] takes the first free sample: when sample
    number [k] (below 100) is the first that is not a body cell, the
    food moves there and exactly [k + 1] samples, two draws each, are
    consumed. *)
Theorem respawn_takes_first_free (k : nat) (ps : list Cell) (f : Food) (r : Rng) :
  (k < 100)%nat -> cell_in (sample r k) ps = false ->
  (forall j, (j < k)%nat -> cell_in (sample r j) ps = true) ->
  respawn ps f r = (mkFood (sample r k) (animation_frame f), skip (2 * (k + 1)) r).
Proof.
  intros Hk Hfree Hocc. exact (respawn_loop_first_free 100 k ps f r Hk Hfree Hocc).
Qed.

Lemma respawn_takes_first_free_witness :
  let r := mkRng (fun n => if (n <? 4)%nat then 0 else 5) 0 in
  respawn [(0, 0); (1, 0)] (mkFood (0, 0) 3) r = (mkFood (5, 5) 3, skip 6 r).
Proof.
  intros r.
  apply (respawn_takes_first_free 2 [(0, 0); (1, 0)] (mkFood (0, 0) 3) r).
  - lia.
  - reflexivity.
  - intros j Hj. destruct j as [| [| j]]; [reflexivity | reflexivity | lia].
Defined.

(** X23. The turn sound goes with a change of direction: a request is
    either dropped or becomes the direction, the sound log gains "turn"
    exactly when audio is enabled and the direction after the call
    differs from the one before, and nothing else of the snake or the
    audio manager changes. *)
Theorem turn_sound_iff_direction_changes (d : Z * Z) (s : Snake) (a : AudioManager) :
  let s' := fst (change_direction d s a) in
  let a' := snd (change_direction d s a) in
  (direction s' = d \/ direction s' = direction s) /\
  played a'
  = played a ++ (if enabled a && negb (dir_eqb (direction s') (direction s))
                 then ["turn"%string] else []) /\
  enabled a' = enabled a /\
  positions s' = positions s /\ grow_pending s' = grow_pending s /\
  segment_animations s' = segment_animations s.
Proof.
  unfold change_direction, play_sound.
  destruct (dir_eqb (fst d * -1, snd d * -1) (direction s)) eqn:Hrev; cbn [negb fst snd].
  - unfold dir_eqb at 1. rewrite cell_eqb_refl.
    rewrite andb_false_r, app_nil_r. repeat split; auto.
  - cbn [direction positions grow_pending segment_animations].
    destruct (dir_eqb d (direction s)) eqn:Hsame; cbn [negb].
    + rewrite andb_false_r, app_nil_r. repeat split; auto.
    + rewrite andb_true_r. destruct (enabled a) eqn:He; cbn [played enabled];
        [| rewrite app_nil_r]; repeat split; auto.
Qed.

(** ** The snake's step, as a whole *)

(** X24. A step of a well-formed snake (a head, one animation counter
    per segment, a key direction) never raises; the head moves to one
    of the four neighbouring cells, the body follows, the direction is
    kept, growth is no longer pending, there is again one animation
    counter per segment and every counter is in its range. If the body
    was made of distinct grid cells and the step does not collide, it
    still is. *)
Theorem step_of_a_well_formed_snake (s : Snake) :
  snake_ok s ->
  exists s' hd h,
    move s = Some s' /\ head (positions s) = Some hd /\
    Z.abs (fst h - fst hd) + Z.abs (snd h - snd hd) = 1 /\
    positions s' = h :: (if grow_pending s then positions s else removelast (positions s)) /\
    direction s' = direction s /\ grow_pending s' = false /\
    length (segment_animations s') = length (positions s') /\
    Forall (fun a => 0 <= a < 60) (segment_animations s') /\
    0 <= head_glow_intensity s' < 60 /\ 0 <= body_pulse_offset s' < 120 /\
    (body_ok s -> check_collision s' = Some false -> body_ok s').
Proof.
  intros Hs. pose proof Hs as [Hne [_ Hu]].
  destruct (move_snake_ok s Hs) as (s' & h & Hm & Hh & Hp & Hd & Hg & Hs' & Ha & Hgl & Hpu).
  destruct (positions s) as [| [hx hy] rest] eqn:E; [congruence |].
  exists s', (hx, hy), h. split; [exact Hm |]. split; [reflexivity |]. split.
  { unfold new_head in Hh. rewrite E in Hh. injection Hh as <-. cbn [fst snd].
    destruct (unit_direction_dec _ Hu) as [_ Habs]. 
    replace (hx + fst (direction s) - hx) with (fst (direction s)) by lia.
    replace (hy + snd (direction s) - hy) with (snd (direction s)) by lia. exact Habs. }
  split; [exact Hp |]. split; [exact Hd |]. split; [exact Hg |].
  split; [apply Hs' |]. split; [exact Ha |]. split; [exact Hgl |]. split; [exact Hpu |].
  intros Hb Hc. exact (step_body_ok s s' Hs Hb Hm Hc).
Qed.

Lemma step_of_a_well_formed_snake_witness :
  exists s', move (mkSnake [(5, 5); (5, 6); (4, 6)] (0, -1) true [59; 3; 7] 59 119) = Some s' /\
    positions s' = [(5, 4); (5, 5); (5, 6); (4, 6)] /\
    length (segment_animations s') = 4%nat.
Proof.
  destruct (step_of_a_well_formed_snake
              (mkSnake [(5, 5); (5, 6); (4, 6)] (0, -1) true [59; 3; 7] 59 119))
    as (s' & hd & h & Hm & _ & _ & Hp & _ & _ & Hl & _).
  - split; [discriminate |]. split; [reflexivity |]. right. right. right. reflexivity.
  - exists s'. split; [exact Hm |].
    assert (Hs' : positions s' = [(5, 4); (5, 5); (5, 6); (4, 6)]).
    { vm_compute in Hm. injection Hm as <-. reflexivity. }
    split; [exact Hs' |]. rewrite Hl, Hs'. reflexivity.
Defined.

(** ** The leaderboard screen *)

Lemma rows_from_length (i : Z) (l : list ScoreEntry) : length (rows_from i l) = length l.
Proof. revert i. induction l as [| e l IH]; intros i; simpl; [| rewrite IH]; reflexivity. Qed.

Lemma rows_from_lookup_inv (l : list ScoreEntry) (i : Z) (k : nat) (row : Z * Z * string) :
  rows_from i l !! k = Some row ->
  exists e, l !! k = Some e /\ row = (i + Z.of_nat k + 1, score e, date e).
Proof.
  intros H. destruct (l !! k) as [e |] eqn:E.
  - exists e. split; [reflexivity |]. rewrite (rows_from_lookup l i k e E) in H. congruence.
  - apply lookup_ge_None in E. rewrite <- (rows_from_length i l) in E.
    apply lookup_ge_None in E. congruence.
Qed.

(** X25. The leaderboard screen on a table that keeps the leaderboard
    invariant: it shows one row per stored entry of the selected
    difficulty, at most ten; row number [k] carries rank [k] and the
    score and date of the [k]-th entry; scores never increase down the
    list; a difficulty without a list shows no row. *)
Theorem leaderboard_rows_in_order (g : SnakeGame) :
  table_ok (score_manager g) ->
  let l := default [] (score_manager g !! leaderboard_difficulty g) in
  let rows := draw_leaderboard_rows g in
  length rows = length l /\ (length rows <= 10)%nat /\
  (forall k e, l !! k = Some e -> rows !! k = Some (Z.of_nat k + 1, score e, date e)) /\
  (forall j k rj sj dj rk sk dk,
     (j < k)%nat -> rows !! j = Some (rj, sj, dj) -> rows !! k = Some (rk, sk, dk) ->
     rj < rk /\ sk <= sj) /\
  (score_manager g !! leaderboard_difficulty g = None -> rows = []).
Proof.
  intros Hok l rows.
  destruct (table_ok_list (leaderboard_difficulty g) _ Hok) as [Hlen Hs]. fold l in Hlen, Hs.
  assert (Hrows : rows = rows_from 0 l).
  { unfold rows, draw_leaderboard_rows, get_top_scores. fold l.
    now rewrite take_ge by lia. }
  rewrite Hrows, rows_from_length.
  split; [reflexivity |]. split; [exact Hlen |]. split; [| split].
  - intros k e Hk. rewrite (rows_from_lookup l 0 k e Hk). reflexivity.
  - intros j k rj sj dj rk sk dk Hjk Hj Hk.
    apply rows_from_lookup_inv in Hj. destruct Hj as [ej [Hej [= -> -> ->]]].
    apply rows_from_lookup_inv in Hk. destruct Hk as [ek [Hek [= -> -> ->]]].
    split; [lia |]. exact (sorted_lookup l j k ej ek Hs Hjk Hej Hek).
  - intros Hnone. unfold l. rewrite Hnone. reflexivity.
Qed.

Lemma leaderboard_rows_in_order_witness :
  let m := <["HARD" := [mkEntry 120 "Player" "2024-02-01 18:00";
                        mkEntry 40 "Player" "2024-02-02 18:00"]]>
             (∅ : gmap string (list ScoreEntry)) in
  let g := mkGame LEADERBOARD "EASY" None None 0 m (mkAudio true []) "HARD"
             (mkRng (fun _ => 0) 0) in
  draw_leaderboard_rows g !! 1%nat = Some (2, 40, "2024-02-02 18:00"%string).
Proof.
  intros m g.
  assert (Hok : table_ok m).
  { intros d l Hd. unfold m in Hd.
    destruct (decide (d = "HARD")) as [-> | Hne].
    - rewrite lookup_insert_eq in Hd. injection Hd as <-. split; [simpl; lia |].
      repeat constructor; unfold desc; simpl; lia.
    - rewrite lookup_insert_ne in Hd by congruence. rewrite lookup_empty in Hd.
      discriminate. }
  destruct (leaderboard_rows_in_order g Hok) as (_ & _ & Hrow & _).
  apply (Hrow 1%nat (mkEntry 40 "Player" "2024-02-02 18:00")).
  vm_compute. reflexivity.
Defined.

(** ** Audio switched off *)

Lemma play_sound_disabled (name : string) (a : AudioManager) :
  enabled a = false -> play_sound name a = a.
Proof. intros H. unfold play_sound. now rewrite H. Qed.

Lemma start_new_game_muted (g : SnakeGame) :
  enabled (audio_manager g) = false ->
  audio_manager (start_new_game g) = audio_manager g.
Proof.
  intros H. unfold start_new_game. destruct (Food_init (rng g)). cbn [audio_manager].
  now apply play_sound_disabled.
Qed.

Lemma handle_keyboard_input_muted (key : Key) (g g' : SnakeGame) (b : bool) :
  enabled (audio_manager g) = false -> key <> K_m ->
  handle_keyboard_input key g = Some (b, g') ->
  audio_manager g' = audio_manager g.
Proof.
  intros H Hm. unfold handle_keyboard_input, game_change_direction, change_direction.
  destruct (state g); destruct key; try congruence;
    try (intros [= <- <-]; first [reflexivity | now apply start_new_game_muted]);
    (destruct (snake g); cbn [mbind option_bind]; [| discriminate]);
    repeat match goal with
           | |- context [if negb ?c then _ else _] => destruct c; cbn [negb]
           end;
    intros [= <- <-]; cbn [audio_manager];
    first [reflexivity | now apply play_sound_disabled].
Qed.

Lemma click_muted (g : SnakeGame) :
  enabled (audio_manager g) = false -> click g = g.
Proof.
  intros H. unfold click. rewrite play_sound_disabled by assumption. apply set_audio_same.
Qed.

Lemma handle_button_clicks_muted (event : PygameEvent) (g : SnakeGame) :
  enabled (audio_manager g) = false -> button_hit audio_button event = false ->
  audio_manager (snd (handle_button_clicks event g)) = audio_manager g.
Proof.
  intros H Ha. unfold handle_button_clicks.
  destruct (state g);
    repeat (rewrite press_eq;
            first [ rewrite Ha
                  | match goal with
                    | |- context [button_hit ?bt event] => destruct (button_hit bt event)
                    end ];
            cbv beta iota);
    rewrite ?click_muted by assumption; cbn [snd];
    first [ reflexivity
          | rewrite start_new_game_muted; [reflexivity | assumption] ].
Qed.

Lemma handle_event_loop_muted (events : list PygameEvent) (g g' : SnakeGame) (b : bool) :
  enabled (audio_manager g) = false -> Forall no_audio_toggle events ->
  handle_event_loop events g = Some (b, g') ->
  audio_manager g' = audio_manager g.
Proof.
  intros H Hev. revert g H. induction Hev as [| event rest [Hkey Hbtn] _ IH]; intros g H He.
  - injection He as <- <-. reflexivity.
  - assert (Hstep : forall g1,
              match event with
              | EV_KEYDOWN key => handle_keyboard_input key g
              | _ => Some (true, g)
              end = Some (true, g1) ->
              audio_manager g1 = audio_manager g).
    { intros g1 H1. destruct event; try (injection H1 as <-; reflexivity).
      apply (handle_keyboard_input_muted key g g1 true H); [congruence | exact H1]. }
    destruct event; cbn [handle_event_loop] in He.
    + injection He as <- <-. reflexivity.
    + destruct (handle_keyboard_input key g) as [[[] g1] |] eqn:Hk; [| | discriminate].
      * pose proof (Hstep g1 eq_refl) as H1.
        pose proof (handle_button_clicks_muted (EV_KEYDOWN key) g1 ltac:(congruence) Hbtn) as H2.
        destruct (handle_button_clicks (EV_KEYDOWN key) g1) as [c g2]. cbn [snd] in H2.
        destruct c.
        -- rewrite (IH g2 ltac:(congruence) He). congruence.
        -- injection He as <- <-. congruence.
      * injection He as <- <-.
        apply (handle_keyboard_input_muted key g g1 false H); [congruence | exact Hk].
    + pose proof (handle_button_clicks_muted (EV_MOUSEBUTTONDOWN button pos) g H Hbtn) as H2.
      destruct (handle_button_clicks (EV_MOUSEBUTTONDOWN button pos) g) as [c g2].
      cbn [snd] in H2. destruct c.
      * rewrite (IH g2 ltac:(congruence) He). congruence.
      * injection He as <- <-. congruence.
    + pose proof (handle_button_clicks_muted EV_OTHER g H Hbtn) as H2.
      destruct (handle_button_clicks EV_OTHER g) as [c g2].
      cbn [snd] in H2. destruct c.
      * rewrite (IH g2 ltac:(congruence) He). congruence.
      * injection He as <- <-. congruence.
Qed.

Lemma update_button_hovers_muted (p : Z * Z) (ui : UI) :
  enabled (audio_manager (game ui)) = false ->
  audio_manager (game (update_button_hovers p ui)) = audio_manager (game ui).
Proof.
  unfold update_button_hovers. generalize (buttons_by_state (state (game ui))).
  intros bs. revert ui. induction bs as [| b bs IH]; intros ui H; [reflexivity |].
  cbn [fold_left].
  assert (H1 : audio_manager (game (Button_update b p ui)) = audio_manager (game ui)).
  { unfold Button_update. cbn [game audio_manager set_audio].
    destruct (_ && _); [now apply play_sound_disabled | reflexivity]. }
  rewrite IH by congruence. exact H1.
Qed.

Lemma update_game_logic_muted (now : string) (g g' : SnakeGame) :
  game_ok g -> enabled (audio_manager g) = false ->
  update_game_logic now g = Some g' -> audio_manager g' = audio_manager g.
Proof.
  intros H Hmute Hu. pose proof H as [Hsc [Hsn Hpl]].
  assert (Hdec : state g = PLAYING \/ state g <> PLAYING)
    by (destruct (state g); auto; right; discriminate).
  destruct Hdec as [Hst | Hst].
  2: { destruct (update_game_logic_ok now g H) as [g1 [Hu1 [_ [Hsame _]]]].
       rewrite Hu in Hu1. injection Hu1 as <-. now rewrite (Hsame Hst). }
  destruct (Hpl Hst) as [s [f0 [Hs _]]].
  destruct (new_head_some s (proj1 (Hsn s Hs))) as [h Hh].
  destruct (update_game_logic_playing now g s h H Hst Hs Hh)
    as [s' [f [Hm [Hf [Hp Heq]]]]].
  cbv zeta in Heq. rewrite Heq in Hu. clear Heq.
  set (g1 := set_food (Food_update f) (set_snake s' g)) in *.
  destruct (negb (in_grid h) || cell_in h _).
  - destruct (handle_game_over_ok now g1 Hsc)
      as (g2 & fs & Hgo & _ & _ & _ & _ & _ & _ & _ & _ & _ & Ha).
    rewrite Hu in Hgo. injection Hgo as <-. rewrite Ha.
    now apply play_sound_disabled.
  - destruct (cell_eqb h (position f)).
    + rewrite (handle_food_eaten_eq g1 s' (Food_update f) eq_refl eq_refl) in Hu.
      injection Hu as <-. cbn [audio_manager]. now apply play_sound_disabled.
    + injection Hu as <-. reflexivity.
Qed.

Lemma draw_audio (mouse : Z -> (Z * Z) * bool) (g g' : SnakeGame) :
  draw mouse g = Some g' -> audio_manager g' = audio_manager g.
Proof.
  unfold draw. destruct (state g).
  - congruence.
  - congruence.
  - destruct (draw_game g); simpl; congruence.
  - destruct (draw_game g); simpl; [| discriminate].
    destruct (draw_game_over g); simpl; congruence.
  - intros [= <-]. now destruct (draw_leaderboard_tabs_game mouse g) as (_ & _ & _ & _ & _ & H & _).
Qed.

(** X26. Audio switched off stays silent: on a state that satisfies
    the invariant and has audio disabled, a turn of the loop whose
    events contain neither the M key nor a click on the audio button
    leaves the audio manager as it was, whatever happens in the game:
    no sound is played and audio stays disabled. *)
Theorem muted_game_is_silent (i : FrameInput) (ui ui' : UI) (running : bool) :
  game_ok (game ui) -> enabled (audio_manager (game ui)) = false ->
  Forall no_audio_toggle (frame_events i) ->
  run_frame i ui = Some (running, ui') ->
  audio_manager (game ui') = audio_manager (game ui).
Proof.
  intros H Hmute Hev Hf. unfold run_frame, handle_events_ui in Hf.
  destruct (handle_event_loop_ok (frame_events i) (game ui) H) as [b [g1 [He [H1 _]]]].
  pose proof (handle_event_loop_muted _ _ _ _ Hmute Hev He) as Ha1.
  rewrite He in Hf.
  assert (Hstep : exists ui1,
            (if b then Some (true, update_button_hovers (frame_mouse_pos i)
                                     (mkUI g1 (is_hovered ui)))
             else Some (false, mkUI g1 (is_hovered ui))) = Some (b, ui1) /\
            game_ok (game ui1) /\ audio_manager (game ui1) = audio_manager (game ui)).
  { destruct b; eexists; (split; [reflexivity |]).
    - split.
      + exact (game_ok_same_but_audio _ _
                 (update_button_hovers_game _ (mkUI g1 (is_hovered ui))) H1).
      + rewrite update_button_hovers_muted; cbn [game]; congruence.
    - split; [exact H1 | exact Ha1]. }
  destruct Hstep as [ui1 [Hui1 [Hok1 Hau1]]].
  rewrite Hui1 in Hf.
  destruct (update_game_logic (frame_now i) (game ui1)) as [g2 |] eqn:Hu;
    [| discriminate].
  cbn [mbind option_bind] in Hf.
  destruct (draw (frame_draw_mouse i) g2) as [g3 |] eqn:Hd; [| discriminate].
  cbn [mbind option_bind] in Hf. injection Hf as _ <-. cbn [game].
  rewrite (draw_audio _ _ _ Hd).
  rewrite (update_game_logic_muted _ _ _ Hok1 ltac:(congruence) Hu). exact Hau1.
Qed.

Lemma muted_game_is_silent_witness :
  let g := mkGame PLAYING "EASY" (Some Snake_init) (Some (mkFood (18, 13) 0)) 0 ∅
             (mkAudio false []) "MEDIUM" (mkRng (fun _ => 7) 0) in
  let ui := mkUI g (fun _ => false) in
  let i := mkInput [EV_KEYDOWN K_UP; EV_KEYDOWN K_RIGHT] (0, 0)
             (fun _ => ((0, 0), false)) "2024-01-01 10:00" in
  exists ui', run_frame i ui = Some (true, ui') /\
    game_score (game ui') = 10 /\ played (audio_manager (game ui')) = [].
Proof.
  intros g ui i.
  assert (Hok : game_ok g).
  { split; [vm_compute; split; discriminate |]. split.
    - intros s [= <-]. apply Snake_init_ok.
    - intros _. exists Snake_init, (mkFood (18, 13) 0).
      split; [reflexivity |]. split; [reflexivity |].
      split; [apply Snake_init_ok |]. split; reflexivity. }
  destruct (run_frame i ui) as [[b ui'] |] eqn:Hf; [| vm_compute in Hf; discriminate].
  assert (Hb : b = true /\ game_score (game ui') = 10).
  { vm_compute in Hf. injection Hf as <- <-. split; reflexivity. }
  destruct Hb as [-> Hsc].
  exists ui'. split; [reflexivity |]. split; [exact Hsc |].
  rewrite (muted_game_is_silent i ui ui' true Hok eq_refl); [reflexivity | | exact Hf].
  repeat constructor; discriminate.
Defined.

(** ** Difficulty names *)

Lemma known_EASY : known_difficulty "EASY".
Proof. left. reflexivity. Qed.

Lemma known_MEDIUM : known_difficulty "MEDIUM".
Proof. right. left. reflexivity. Qed.

Lemma known_HARD : known_difficulty "HARD".
Proof. right. right. reflexivity. Qed.

Lemma names_ok_same (g g' : SnakeGame) :
  current_difficulty g' = current_difficulty g ->
  leaderboard_difficulty g' = leaderboard_difficulty g ->
  names_ok g -> names_ok g'.
Proof. unfold names_ok. intros -> ->. auto. Qed.

Lemma start_new_game_names (g : SnakeGame) :
  current_difficulty (start_new_game g) = current_difficulty g /\
  leaderboard_difficulty (start_new_game g) = leaderboard_difficulty g.
Proof. unfold start_new_game. destruct (Food_init (rng g)). split; reflexivity. Qed.

(** The handlers of one event give a known name or keep the names. *)
Ltac keeps_names H :=
  first
    [ exact H
    | split; cbn [current_difficulty leaderboard_difficulty];
      first [apply known_EASY | apply known_MEDIUM | apply known_HARD | apply H]
    | destruct (start_new_game_names _) as [? ?];
      split; cbn [current_difficulty leaderboard_difficulty] in *;
      first [ congruence
            | match goal with
              | E : current_difficulty (start_new_game _) = _ |- _ => rewrite E
              | E : leaderboard_difficulty (start_new_game _) = _ |- _ => rewrite E
              end;
              cbn [current_difficulty leaderboard_difficulty];
              first [apply known_EASY | apply known_MEDIUM | apply known_HARD | apply H] ] ].

Lemma handle_keyboard_input_names (key : Key) (g g' : SnakeGame) (b : bool) :
  names_ok g -> handle_keyboard_input key g = Some (b, g') -> names_ok g'.
Proof.
  intros H. unfold handle_keyboard_input, game_change_direction.
  destruct (state g); destruct key;
    try (intros [= <- <-]; keeps_names H);
    (destruct (snake g); cbn [mbind option_bind]; [| discriminate]);
    destruct (change_direction _ _ _); intros [= <- <-]; exact H.
Qed.

Lemma handle_button_clicks_names (event : PygameEvent) (g : SnakeGame) :
  names_ok g -> names_ok (snd (handle_button_clicks event g)).
Proof.
  intros H. unfold handle_button_clicks.
  destruct (state g);
    repeat (rewrite press_eq;
            match goal with
            | |- context [button_hit ?bt event] => destruct (button_hit bt event)
            end; cbv beta iota);
    cbn [snd]; keeps_names H.
Qed.

Lemma handle_event_loop_names (events : list PygameEvent) (g g' : SnakeGame) (b : bool) :
  names_ok g -> handle_event_loop events g = Some (b, g') -> names_ok g'.
Proof.
  revert g. induction events as [| event rest IH]; intros g H He.
  - injection He as <- <-. exact H.
  - assert (Hstep : forall c g1,
              match event with
              | EV_KEYDOWN key => handle_keyboard_input key g
              | _ => Some (true, g)
              end = Some (c, g1) -> names_ok g1).
    { intros c g1 H1. destruct event; try (injection H1 as <- <-; exact H).
      exact (handle_keyboard_input_names key g g1 c H H1). }
    destruct event; cbn [handle_event_loop] in He.
    + injection He as <- <-. exact H.
    + destruct (handle_keyboard_input key g) as [[[] g1] |] eqn:Hk; [| | discriminate].
      * pose proof (handle_button_clicks_names (EV_KEYDOWN key) g1 (Hstep _ _ eq_refl)) as H2.
        destruct (handle_button_clicks (EV_KEYDOWN key) g1) as [c g2]. cbn [snd] in H2.
        destruct c; [exact (IH g2 H2 He) | injection He as <- <-; exact H2].
      * injection He as <- <-. exact (Hstep _ _ eq_refl).
    + pose proof (handle_button_clicks_names (EV_MOUSEBUTTONDOWN button pos) g H) as H2.
      destruct (handle_button_clicks (EV_MOUSEBUTTONDOWN button pos) g) as [c g2].
      cbn [snd] in H2.
      destruct c; [exact (IH g2 H2 He) | injection He as <- <-; exact H2].
    + pose proof (handle_button_clicks_names EV_OTHER g H) as H2.
      destruct (handle_button_clicks EV_OTHER g) as [c g2]. cbn [snd] in H2.
      destruct c; [exact (IH g2 H2 He) | injection He as <- <-; exact H2].
Qed.

(** The tick keeps both names; the table gains at most a list under the
    current difficulty. *)
Lemma update_game_logic_names (now : string) (g g' : SnakeGame) :
  game_ok g -> update_game_logic now g = Some g' ->
  current_difficulty g' = current_difficulty g /\
  leaderboard_difficulty g' = leaderboard_difficulty g /\
  (forall d, score_manager g' !! d <> None ->
             score_manager g !! d <> None \/ d = current_difficulty g).
Proof.
  intros H Hu. pose proof H as [Hsc [Hsn Hpl]].
  assert (Hdec : state g = PLAYING \/ state g <> PLAYING)
    by (destruct (state g); auto; right; discriminate).
  destruct Hdec as [Hst | Hst].
  2: { destruct (update_game_logic_ok now g H) as [g1 [Hu1 [_ [Hsame _]]]].
       rewrite Hu in Hu1. injection Hu1 as <-. rewrite (Hsame Hst). auto. }
  destruct (Hpl Hst) as [s [f0 [Hs _]]].
  destruct (new_head_some s (proj1 (Hsn s Hs))) as [h Hh].
  destruct (update_game_logic_playing now g s h H Hst Hs Hh)
    as [s' [f [Hm [Hf [Hp Heq]]]]].
  cbv zeta in Heq. rewrite Heq in Hu. clear Heq.
  set (g1 := set_food (Food_update f) (set_snake s' g)) in *.
  destruct (negb (in_grid h) || cell_in h _).
  - destruct (handle_game_over_ok now g1 Hsc)
      as (g2 & fs & Hgo & _ & _ & _ & _ & _ & Hd & _ & Hl & Hsm & _).
    rewrite Hu in Hgo. injection Hgo as <-.
    split; [exact Hd |]. split; [exact Hl |].
    intros d Hne. rewrite Hsm in Hne.
    change (current_difficulty g1) with (current_difficulty g) in *.
    change (score_manager g1) with (score_manager g) in *.
    destruct (is_high_score (current_difficulty g) fs (score_manager g)); [| auto].
    destruct (decide (d = current_difficulty g)) as [-> | Hd']; [auto |].
    destruct (add_score_unfold (current_difficulty g) fs "Player" now (score_manager g))
      as [_ [Hother _]].
    rewrite Hother in Hne by assumption. auto.
  - destruct (cell_eqb h (position f)).
    + rewrite (handle_food_eaten_eq g1 s' (Food_update f) eq_refl eq_refl) in Hu.
      injection Hu as <-. auto.
    + injection Hu as <-. auto.
Qed.

Lemma draw_names (mouse : Z -> (Z * Z) * bool) (g g' : SnakeGame) :
  names_ok g -> draw mouse g = Some g' ->
  names_ok g' /\ score_manager g' = score_manager g.
Proof.
  intros H. unfold draw. destruct (state g).
  - intros [= <-]. auto.
  - intros [= <-]. auto.
  - destruct (draw_game g); simpl; [intros [= <-]; auto | discriminate].
  - destruct (draw_game g); simpl; [| discriminate].
    destruct (draw_game_over g); simpl; [intros [= <-]; auto | discriminate].
  - intros [= <-].
    split; [| now destruct (draw_leaderboard_tabs_game mouse g) as (_ & _ & _ & _ & Hsm & _)].
    unfold draw_leaderboard_tabs. cbn [fold_left].
    destruct H as [H1 H2].
    destruct (collidepoint (tab_rect 0) _ && _);
      destruct (collidepoint (tab_rect 1) _ && _);
      destruct (collidepoint (tab_rect 2) _ && _);
      split; cbn [current_difficulty leaderboard_difficulty];
      first [exact H1 | exact H2 | apply known_EASY | apply known_MEDIUM | apply known_HARD].
Qed.

Lemma run_frame_names (i : FrameInput) (ui ui' : UI) (running : bool) :
  game_ok (game ui) -> names_ok (game ui) ->
  run_frame i ui = Some (running, ui') ->
  names_ok (game ui') /\
  (forall d, score_manager (game ui') !! d <> None ->
             score_manager (game ui) !! d <> None \/ known_difficulty d).
Proof.
  intros H Hn Hf. unfold run_frame, handle_events_ui in Hf.
  destruct (handle_event_loop_ok (frame_events i) (game ui) H) as [b [g1 [He [H1 Hs1]]]].
  pose proof (handle_event_loop_names _ _ _ _ Hn He) as Hn1.
  rewrite He in Hf.
  assert (Hstep : exists ui1,
            (if b then Some (true, update_button_hovers (frame_mouse_pos i)
                                     (mkUI g1 (is_hovered ui)))
             else Some (false, mkUI g1 (is_hovered ui))) = Some (b, ui1) /\
            game_ok (game ui1) /\ names_ok (game ui1) /\
            score_manager (game ui1) = score_manager (game ui)).
  { destruct b; eexists; (split; [reflexivity |]).
    - pose proof (update_button_hovers_game (frame_mouse_pos i) (mkUI g1 (is_hovered ui)))
        as Hsame.
      split; [exact (game_ok_same_but_audio _ _ Hsame H1) |].
      destruct Hsame as (_ & Hc & _ & _ & _ & Hsm & Hl & _). cbn [game] in *.
      split; [exact (names_ok_same g1 _ Hc Hl Hn1) | congruence].
    - cbn [game]. auto. }
  destruct Hstep as [ui1 [Hui1 [Hok1 [Hnm1 Hsm1]]]].
  rewrite Hui1 in Hf.
  destruct (update_game_logic (frame_now i) (game ui1)) as [g2 |] eqn:Hu;
    [| discriminate].
  cbn [mbind option_bind] in Hf.
  destruct (draw (frame_draw_mouse i) g2) as [g3 |] eqn:Hd; [| discriminate].
  cbn [mbind option_bind] in Hf. injection Hf as _ <-. cbn [game].
  destruct (update_game_logic_names _ _ _ Hok1 Hu) as (Hc2 & Hl2 & Hkeys).
  pose proof (names_ok_same (game ui1) g2 Hc2 Hl2 Hnm1) as Hnm2.
  destruct (draw_names _ _ _ Hnm2 Hd) as [Hnm3 Hsm3].
  split; [exact Hnm3 |].
  intros d Hne. rewrite Hsm3 in Hne. destruct (Hkeys d Hne) as [Hk | ->].
  - left. congruence.
  - right. apply Hnm1.
Qed.

Lemma run_names (inputs : list FrameInput) (ui ui' : UI) :
  game_ok (game ui) -> names_ok (game ui) -> run inputs ui = Some ui' ->
  names_ok (game ui') /\
  (forall d, score_manager (game ui') !! d <> None ->
             score_manager (game ui) !! d <> None \/ known_difficulty d).
Proof.
  revert ui. induction inputs as [| i rest IH]; intros ui H Hn Hr.
  - injection Hr as <-. auto.
  - cbn [run] in Hr. destruct (run_frame_ok i ui H) as [running [ui1 [Hf H1]]].
    rewrite Hf in Hr.
    destruct (run_frame_names i ui ui1 running H Hn Hf) as [Hn1 Hk1].
    destruct running.
    + destruct (IH ui1 H1 Hn1 Hr) as [Hn' Hk']. split; [exact Hn' |].
      intros d Hd. destruct (Hk' d Hd) as [Hd1 | Hd1]; [exact (Hk1 d Hd1) | auto].
    + injection Hr as <-. auto.
Qed.

(** X27. The difficulty names never leave the table: in every state
    the program can reach, the current difficulty and the difficulty
    shown on the leaderboard are EASY, MEDIUM or HARD, so
    [get_config] never falls back; scores are stored only under these
    three names (the table has no key that was not loaded or is one of
    them); and the frame rate asked of the clock is, while playing, 8
    on EASY, 12 on MEDIUM and 18 on HARD, and 60 in every other
    state. *)
Theorem difficulty_names_stay_known (scores : gmap string (list ScoreEntry)) (r : Rng)
    (inputs : list FrameInput) (ui' : UI) :
  run inputs (UI_init scores r) = Some ui' ->
  known_difficulty (current_difficulty (game ui')) /\
  known_difficulty (leaderboard_difficulty (game ui')) /\
  name (get_config (current_difficulty (game ui'))) = current_difficulty (game ui') /\
  (forall d, score_manager (game ui') !! d <> None ->
             scores !! d <> None \/ known_difficulty d) /\
  (state (game ui') = PLAYING ->
     (current_difficulty (game ui') = "EASY"%string /\ tick_rate (game ui') = 8) \/
     (current_difficulty (game ui') = "MEDIUM"%string /\ tick_rate (game ui') = 12) \/
     (current_difficulty (game ui') = "HARD"%string /\ tick_rate (game ui') = 18)) /\
  (state (game ui') <> PLAYING -> tick_rate (game ui') = 60).
Proof.
  intros Hrun.
  destruct (run_names inputs (UI_init scores r) ui' (SnakeGame_init_ok scores r)
              ltac:(split; apply known_MEDIUM) Hrun) as [[Hc Hl] Hk].
  split; [exact Hc |]. split; [exact Hl |]. split; [| split; [exact Hk |]].
  - destruct Hc as [-> | [-> | ->]];
      [rewrite get_config_EASY | rewrite get_config_MEDIUM | rewrite get_config_HARD];
      reflexivity.
  - split.
    + intros Hst. unfold tick_rate. rewrite Hst.
      destruct Hc as [E | [E | E]]; rewrite E;
        [rewrite get_config_EASY | rewrite get_config_MEDIUM | rewrite get_config_HARD];
        simpl; auto.
    + intros Hst. unfold tick_rate. destruct (state (game ui')); congruence.
Qed.

(** Space, 3 and Return: a game on HARD is in play, at 18 frames a
    second. *)
Lemma difficulty_names_stay_known_witness :
  let inputs := [mkInput [EV_KEYDOWN K_SPACE; EV_KEYDOWN K_3; EV_KEYDOWN K_RETURN] (0, 0)
                   (fun _ => ((0, 0), false)) "2024-01-01 10:00"] in
  exists ui', run inputs (UI_init ∅ (mkRng (fun _ => 3) 0)) = Some ui' /\
    state (game ui') = PLAYING /\
    current_difficulty (game ui') = "HARD"%string /\
    name (get_config (current_difficulty (game ui'))) = current_difficulty (game ui') /\
    tick_rate (game ui') = 18.
Proof.
  intros inputs.
  destruct (run inputs (UI_init ∅ (mkRng (fun _ => 3) 0))) as [ui' |] eqn:Hrun;
    [| vm_compute in Hrun; discriminate].
  destruct (difficulty_names_stay_known ∅ (mkRng (fun _ => 3) 0) inputs ui' Hrun)
    as (_ & _ & Hname & _ & Hrate & _).
  assert (Hst : state (game ui') = PLAYING)
    by (vm_compute in Hrun; injection Hrun as <-; reflexivity).
  assert (Hd : current_difficulty (game ui') = "HARD"%string)
    by (vm_compute in Hrun; injection Hrun as <-; reflexivity).
  exists ui'. split; [reflexivity |]. split; [exact Hst |]. split; [exact Hd |].
  split; [exact Hname |].
  destruct (Hrate Hst) as [[E _] | [[E _] | [_ Ht]]];
    [rewrite Hd in E; discriminate | rewrite Hd in E; discriminate | exact Ht].
Defined.

(** ** Sounds of a tick, and leaving *)

(** X28. The sound of a tick while playing is decided by where the
    new head lands. On a collision (the new head outside the grid or
    on a body cell that is left after the tail was removed) the game is
    over, the raw score is unchanged and exactly one of "high_score"
    and "game_over" is played, the first exactly when the final score
    qualifies for the table. Without a collision, a head that reaches
    the food cell plays "eat" and adds ten points; any other head plays
    nothing and leaves the score as it is. Playing a sound logs it only
    while audio is enabled, so a tick logs at most one sound. *)
Theorem sounds_of_a_tick (now : string) (g : SnakeGame) (s : Snake) (f : Food)
    (h : Cell) :
  game_ok g -> state g = PLAYING -> snake g = Some s -> food g = Some f ->
  new_head s = Some h ->
  let collision := negb (in_grid h) || cell_in h (kept_cells s) in
  exists g',
    update_game_logic now g = Some g' /\
    (collision = true ->
       state g' = GAME_OVER /\ game_score g' = game_score g /\
       exists fs,
         final_score (current_difficulty g) (game_score g) = Some fs /\
         audio_manager g'
         = play_sound (if is_high_score (current_difficulty g) fs (score_manager g)
                       then "high_score" else "game_over") (audio_manager g)) /\
    (collision = false -> h = position f ->
       state g' = PLAYING /\ game_score g' = game_score g + 10 /\
       audio_manager g' = play_sound "eat" (audio_manager g)) /\
    (collision = false -> h <> position f ->
       state g' = PLAYING /\ game_score g' = game_score g /\
       audio_manager g' = audio_manager g) /\
    enabled (audio_manager g') = enabled (audio_manager g) /\
    (exists logged, played (audio_manager g') = played (audio_manager g) ++ logged /\
                    (length logged <= 1)%nat /\
                    (enabled (audio_manager g) = false -> logged = [])).
Proof.
  intros H Hst Hs Hf0 Hh collision. pose proof H as [Hsc [Hsn Hpl]].
  destruct (update_game_logic_playing now g s h H Hst Hs Hh)
    as [s' [f1 [Hm [Hf [Hp Heq]]]]].
  rewrite Hf0 in Hf. injection Hf as <-.
  cbv zeta in Heq. rewrite Heq. clear Heq.
  fold (kept_cells s). fold collision.
  set (g1 := set_food (Food_update f) (set_snake s' g)).
  assert (Hlog : forall nm a,
            enabled (play_sound nm a) = enabled a /\
            exists logged, played (play_sound nm a) = played a ++ logged /\
                           (length logged <= 1)%nat /\
                           (enabled a = false -> logged = [])).
  { intros nm a. unfold play_sound. destruct (enabled a) eqn:Ea; simpl.
    - split; [reflexivity |]. exists [nm]. split; [reflexivity |]. split; [simpl; lia |].
      discriminate.
    - split; [exact Ea |]. exists []. split; [now rewrite app_nil_r |].
      split; [simpl; lia |]. reflexivity. }
  destruct collision eqn:Ecol.
  - destruct (handle_game_over_ok now g1 Hsc)
      as (g2 & fs & Hgo & Hfs & Hst2 & _ & _ & Hsc2 & _ & _ & _ & _ & Ha).
    exists g2. split; [exact Hgo |].
    split.
    { intros _. split; [exact Hst2 |]. split; [exact Hsc2 |]. exists fs.
      split; [exact Hfs | exact Ha]. }
    split; [discriminate |]. split; [discriminate |].
    rewrite Ha. apply Hlog.
  - destruct (cell_eqb h (position f)) eqn:Eat.
    + rewrite (handle_food_eaten_eq g1 s' (Food_update f) eq_refl eq_refl).
      eexists. split; [reflexivity |]. cbn [state game_score audio_manager].
      split; [discriminate |].
      split; [intros _ _; split; [exact Hst |]; split; reflexivity |].
      split; [intros _ Hne; apply cell_eqb_eq in Eat; contradiction |].
      apply Hlog.
    + exists g1. split; [reflexivity |].
      split; [discriminate |].
      split; [intros _ He; apply cell_eqb_neq in Eat; contradiction |].
      split; [intros _ _; split; [exact Hst |]; split; reflexivity |].
      split; [reflexivity |]. exists []. split; [now rewrite app_nil_r |].
      split; [simpl; lia | reflexivity].
Qed.

(** The food lies right ahead of a new snake: the tick plays "eat". *)
Lemma sounds_of_a_tick_witness :
  let g := mkGame PLAYING "EASY" (Some Snake_init) (Some (mkFood (18, 13) 0)) 0 ∅
             (mkAudio true []) "MEDIUM" (mkRng (fun _ => 7) 0) in
  exists g', update_game_logic "2024-01-01 10:00" g = Some g' /\
    game_score g' = 10 /\ played (audio_manager g') = ["eat"%string].
Proof.
  intros g.
  assert (Hok : game_ok g).
  { split; [vm_compute; split; discriminate |]. split.
    - intros s [= <-]. apply Snake_init_ok.
    - intros _. exists Snake_init, (mkFood (18, 13) 0).
      split; [reflexivity |]. split; [reflexivity |].
      split; [apply Snake_init_ok |]. split; reflexivity. }
  destruct (sounds_of_a_tick "2024-01-01 10:00" g Snake_init (mkFood (18, 13) 0) (18, 13)
              Hok eq_refl eq_refl eq_refl eq_refl)
    as [g' [Hu [_ [Heat _]]]].
  exists g'. split; [exact Hu |].
  destruct Heat as (_ & Hscore & Ha); [reflexivity | reflexivity |].
  split; [exact Hscore |]. rewrite Ha. reflexivity.
Defined.

(** X29. Two presses of Escape always end the program: from the main
    menu the first one already does; from any other state, the game
    being played included, the first one goes to the main menu, keeping
    everything else, and the second one stops the loop. *)
Theorem two_escapes_quit (g : SnakeGame) :
  handle_event_loop [EV_KEYDOWN K_ESCAPE; EV_KEYDOWN K_ESCAPE] g
  = Some (false, match state g with MENU => g | _ => set_state MENU g end) /\
  (state g <> MENU ->
   handle_event_loop [EV_KEYDOWN K_ESCAPE] g = Some (true, set_state MENU g)).
Proof.
  split.
  - cbn [handle_event_loop]. unfold handle_keyboard_input at 1.
    destruct (state g) eqn:Hst; try reflexivity;
      rewrite handle_button_clicks_key; reflexivity.
  - intros Hne. cbn [handle_event_loop]. unfold handle_keyboard_input.
    destruct (state g) eqn:Hst; try congruence;
      rewrite handle_button_clicks_key; reflexivity.
Qed.

(** ** C1: the food and the body after a step *)




(** ** C3: two keys between two ticks *)

(** The cell behind the head stays a body cell over a step when the
    snake has three segments or more, or two and a growth pending. *)
Lemma neck_is_kept (s : Snake) (h n : Cell) (rest : list Cell) :
  positions s = h :: n :: rest -> rest <> [] \/ grow_pending s = true ->
  cell_in n (kept_cells s) = true.
Proof.
  intros Hp Hr. apply cell_in_In. unfold kept_cells. rewrite Hp.
  destruct (grow_pending s); [simpl; auto |].
  destruct Hr as [Hr | Hr]; [| discriminate].
  destruct rest as [| c rest]; [congruence |]. simpl. auto.
Qed.

(** C3 (the code departs from it). [change_direction] judges a request
    against the direction that the previous key of the same frame has
    already written, not against the direction of the previous step. A
    snake of three segments or more (or of two with a growth pending)
    that moves in direction [d], with the neck right behind the head:
    the key for the opposite of [d] alone is dropped and the next step
    moves the head on by [d]; but a key for a direction across [d]
    followed in the same frame by the key for the opposite of [d]
    leaves the snake heading for its own neck, and the next step ends
    the game. *)
Theorem double_key_reversal (now : string) (g : SnakeGame) (s : Snake) (f : Food)
    (h n : Cell) (rest : list Cell) (k1 k2 : Key) (p : Z * Z) :
  state g = PLAYING -> snake g = Some s -> food g = Some f ->
  0 <= game_score g <= MAX_RAW_SCORE ->
  positions s = h :: n :: rest -> rest <> [] \/ grow_pending s = true ->
  n = (fst h - fst (direction s), snd h - snd (direction s)) ->
  key_direction k1 = Some p -> p <> direction s -> p <> opposite (direction s) ->
  key_direction k2 = Some (opposite (direction s)) ->
  (exists g1 s1,
     handle_events [KEYDOWN k2] g = Some (true, g1) /\ snake g1 = Some s1 /\
     direction s1 = direction s /\ positions s1 = positions s /\
     new_head s1 = Some (fst h + fst (direction s), snd h + snd (direction s))) /\
  (exists g2 s2,
     handle_events [KEYDOWN k1; KEYDOWN k2] g = Some (true, g2) /\ snake g2 = Some s2 /\
     direction s2 = opposite (direction s) /\ positions s2 = positions s /\
     new_head s2 = Some n) /\
  (exists g3 s3,
     frame [KEYDOWN k2] now g = Some (true, g3) /\ snake g3 = Some s3 /\
     head (positions s3)
     = Some (fst h + fst (direction s), snd h + snd (direction s))) /\
  (exists g4 s4,
     frame [KEYDOWN k1; KEYDOWN k2] now g = Some (true, g4) /\
     state g4 = GAME_OVER /\ snake g4 = Some s4 /\ head (positions s4) = Some n).
Proof.
  intros Hst Hs Hf Hsc Hp Hrest Hn Hk1 Hp1 Hp2 Hk2.
  set (d := direction s) in *.
  assert (Hopp : opposite (opposite d) = d) by apply opposite_involutive.
  assert (T1 : turn d (opposite d) = d).
  { unfold turn. rewrite Hopp. unfold dir_eqb. now rewrite cell_eqb_refl. }
  assert (T2 : turn d p = p).
  { unfold turn. destruct (dir_eqb (opposite p) d) eqn:E; [| reflexivity].
    apply cell_eqb_eq in E. exfalso. apply Hp2. rewrite <- E.
    symmetry. apply opposite_involutive. }
  assert (T3 : turn p (opposite d) = opposite d).
  { unfold turn. rewrite Hopp. destruct (dir_eqb d p) eqn:E; [| reflexivity].
    apply cell_eqb_eq in E. congruence. }
  (* the single key *)
  destruct (intents_applied_in_order [k2] [opposite d] g s Hst Hs)
    as (g1 & s1 & He1 & Hst1 & Hs1 & Hf1 & Hsc1 & _ & Hp1' & Hg1 & Hd1 & _);
    [repeat constructor; exact Hk2 |].
  cbn [apply_intents fold_left] in Hd1. fold d in Hd1. rewrite T1 in Hd1.
  assert (Hh1 : new_head s1 = Some (fst h + fst d, snd h + snd d)).
  { unfold new_head. rewrite Hp1', Hp, Hd1. destruct h. reflexivity. }
  (* the two keys *)
  destruct (intents_applied_in_order [k1; k2] [p; opposite d] g s Hst Hs)
    as (g2 & s2 & He2 & Hst2 & Hs2 & Hf2 & Hsc2 & _ & Hp2' & Hg2 & Hd2 & _);
    [repeat constructor; assumption |].
  cbn [apply_intents fold_left] in Hd2. fold d in Hd2. rewrite T2, T3 in Hd2.
  assert (Hh2 : new_head s2 = Some n).
  { unfold new_head. rewrite Hp2', Hp, Hd2, Hn. destruct h, d. unfold opposite. simpl.
    f_equal. f_equal; lia. }
  split.
  { exists g1, s1. fold (map KEYDOWN [k2]). auto 10. }
  split.
  { exists g2, s2. auto 10. }
  split.
  - unfold frame. change [KEYDOWN k2] with (KEYDOWN <$> [k2]). rewrite He1.
    destruct (move_positions s1 _ Hh1) as [s' [Hm [Hpos _]]].
    assert (Hpos' : positions s' = (fst h + fst d, snd h + snd d) :: kept_cells s1).
    { rewrite Hpos. unfold kept_cells. destruct (grow_pending s1); reflexivity. }
    rewrite Hf in Hf1.
    rewrite (update_game_logic_eq now g1 s1 s' f _ _ Hst1 Hs1 Hf1 Hm Hpos').
    cbv zeta. set (g' := set_food (Food_update f) (set_snake s' g1)).
    destruct (negb (in_grid _) || cell_in _ (kept_cells s1)).
    + destruct (handle_game_over_ok now g') as (g3 & fs & Hgo & _ & _ & Hs3 & _).
      { cbn [g' game_score set_food set_snake]. rewrite Hsc1. exact Hsc. }
      rewrite Hgo. cbn [mbind option_bind]. exists g3, s'.
      split; [reflexivity |]. split; [rewrite Hs3; reflexivity |]. now rewrite Hpos'.
    + destruct (cell_eqb _ (position f)).
      * rewrite (handle_food_eaten_eq g' s' (Food_update f) eq_refl eq_refl).
        cbn [mbind option_bind]. eexists _, _. split; [reflexivity |].
        cbn [snake positions]. split; [reflexivity |]. now rewrite Hpos'.
      * cbn [mbind option_bind]. exists g', s'. split; [reflexivity |].
        split; [reflexivity |]. now rewrite Hpos'.
  - unfold frame. change [KEYDOWN k1; KEYDOWN k2] with (KEYDOWN <$> [k1; k2]). rewrite He2.
    destruct (move_positions s2 n Hh2) as [s' [Hm [Hpos _]]].
    assert (Hpos' : positions s' = n :: kept_cells s2).
    { rewrite Hpos. unfold kept_cells. destruct (grow_pending s2); reflexivity. }
    rewrite Hf in Hf2.
    rewrite (update_game_logic_eq now g2 s2 s' f _ _ Hst2 Hs2 Hf2 Hm Hpos').
    cbv zeta. set (g' := set_food (Food_update f) (set_snake s' g2)).
    assert (Hneck : cell_in n (kept_cells s2) = true).
    { apply (neck_is_kept s2 h n rest); [congruence |].
      rewrite Hg2. exact Hrest. }
    rewrite Hneck, orb_true_r.
    destruct (handle_game_over_ok now g') as (g4 & fs & Hgo & _ & Hst4 & Hs4 & _).
    { cbn [g' game_score set_food set_snake]. rewrite Hsc2. exact Hsc. }
    rewrite Hgo. cbn [mbind option_bind]. exists g4, s'.
    split; [reflexivity |]. split; [exact Hst4 |]. split; [rewrite Hs4; reflexivity |].
    now rewrite Hpos'.
Qed.

(** Three segments moving right, the head on (10, 10): the keys up and
    left in one frame end the game on the next step; the key left alone
    is dropped and the head moves on to (11, 10). *)
Lemma double_key_reversal_witness :
  let s := mkSnake [(10, 10); (9, 10); (8, 10)] (1, 0) false [0; 0; 0] 0 0 in
  let g := mkGame PLAYING "MEDIUM" (Some s) (Some (mkFood (20, 5) 0)) 20 ∅
             (mkAudio true []) "MEDIUM" (mkRng (fun _ => 0) 0) in
  (exists g3 s3, frame [KEYDOWN K_LEFT] "2026-01-01 12:00" g = Some (true, g3) /\
     snake g3 = Some s3 /\ head (positions s3) = Some (11, 10)) /\
  (exists g4 s4, frame [KEYDOWN K_UP; KEYDOWN K_LEFT] "2026-01-01 12:00" g = Some (true, g4) /\
     state g4 = GAME_OVER /\ snake g4 = Some s4 /\ head (positions s4) = Some (9, 10)).
Proof.
  intros s g.
  destruct (double_key_reversal "2026-01-01 12:00" g s (mkFood (20, 5) 0)
              (10, 10) (9, 10) [(8, 10)] K_UP K_LEFT (0, -1))
    as (_ & _ & H3 & H4); try reflexivity; try discriminate.
  - vm_compute. split; discriminate.
  - left. discriminate.
  - split; [exact H3 | exact H4].
Defined.

(** The same in a session from its start: the food is created right
    ahead of the snake and respawns one cell further, the snake eats
    both, and the keys up and left of the third frame end the game with
    a raw score of 20. The key left alone leaves the game in play. *)
Lemma double_key_reversal_in_a_session :
  let r := mkRng (fun k => match k with
                           | 0%nat => 18 | 1%nat => 13 | 2%nat => 19 | 3%nat => 13
                           | _ => 0
                           end) 0 in
  let now := "2026-01-01 12:00"%string in
  let g0 := start_new_game (SnakeGame_init ∅ r) in
  exists g1 g2 s2,
    frame [] now g0 = Some (true, g1) /\ frame [] now g1 = Some (true, g2) /\
    state g2 = PLAYING /\ snake g2 = Some s2 /\
    positions s2 = [(19, 13); (18, 13)] /\ direction s2 = (1, 0) /\
    grow_pending s2 = true /\ game_score g2 = 20 /\
    (exists g3, frame [KEYDOWN K_UP; KEYDOWN K_LEFT] now g2 = Some (true, g3) /\
                state g3 = GAME_OVER /\ game_score g3 = 20) /\
    (exists g4 s4, frame [KEYDOWN K_LEFT] now g2 = Some (true, g4) /\
                   state g4 = PLAYING /\ snake g4 = Some s4 /\
                   positions s4 = [(20, 13); (19, 13); (18, 13)]).
Proof.
  intros r now g0.
  eexists _, _, _. split; [vm_compute; reflexivity |].
  split; [vm_compute; reflexivity |].
  repeat (split; [reflexivity |]).
  split.
  - eexists. split; [vm_compute; reflexivity |]. split; reflexivity.
  - eexists _, _. split; [vm_compute; reflexivity |]. repeat split.
Qed.
